(** * virtual-list: the <virtual-list> custom element

    A shallow embedding of [src/virtual-list.ts] (class [VirtualListElement])
    together with the collaborators it talks to: the light DOM of the host
    element, the shadow tree built by [#setupShadowDom], the virtualization
    engine (modelled after the test double [MockVirtualizer] of
    [test/virtual-list.test.ts], which records what it is asked and reports
    whatever window it was last given) and the host's scheduling primitives
    [requestAnimationFrame], [cancelAnimationFrame] and [queueMicrotask].

    Every method of the class is a function on [World]; a method that can
    throw returns an [Outcome]. *)

From Stdlib Require Import ZArith QArith Qround Lia List Ascii String.
From stdpp Require Import base option list gmap strings pretty.

Local Open Scope nat_scope.

(** ** JavaScript numbers

    A [number] is NaN, an infinity or a finite value.  Finite values are
    kept as rationals: every operation the element applies to them
    ([Math.floor], [Math.max] against 0, comparison with 0) is exact. *)

Inductive JsNumber : Type :=
| NaN
| PosInfinity
| NegInfinity
| Finite (q : Q).

Definition Number_isFinite (x : JsNumber) : bool :=
  match x with Finite _ => true | _ => false end.

Definition Math_floor (x : JsNumber) : JsNumber :=
  match x with
  | Finite q => Finite (inject_Z (Qfloor q))
  | _ => x
  end.

(** [Math.max(0, x)]: NaN is contagious, the result is never below 0. *)
Definition Math_max0 (x : JsNumber) : JsNumber :=
  match x with
  | NaN => NaN
  | PosInfinity => PosInfinity
  | NegInfinity => Finite 0
  | Finite q => if Qle_bool 0 q then Finite q else Finite 0
  end.

Definition DEFAULT_ESTIMATE : JsNumber := Finite 48.
Definition DEFAULT_OVERSCAN : JsNumber := Finite 2.

Definition NUMBER_ATTRIBUTES : list string :=
  [ "overscan"; "estimate-size"; "padding-start"; "padding-end";
    "scroll-padding-start"; "scroll-padding-end" ].

Definition observedAttributes : list string :=
  NUMBER_ATTRIBUTES ++ ["orientation"].

(** [NUMBER_ATTRIBUTES.has(name)] *)
Definition has (set : list string) (name : string) : bool :=
  existsb (String.eqb name) set.

(** ** DOM nodes

    A node is an identity together with what it is; [nodeType] and
    [instanceof HTMLElement] are read off the kind.  The registry is an
    array of node references: the cast [node as HTMLElement] is erased at
    run time, so the model keeps plain nodes there too. *)

Inductive NodeKind : Type :=
| HTMLElementNode
| OtherElementNode
| TextNode
| CommentNode.

Record Node : Type := mkNode { node_id : nat; node_kind : NodeKind }.

#[global] Instance NodeKind_eq_dec : EqDecision NodeKind.
Proof. solve_decision. Defined.

#[global] Instance Node_eq_dec : EqDecision Node.
Proof. solve_decision. Defined.

Definition NodeKind_code (k : NodeKind) : nat :=
  match k with
  | HTMLElementNode => 0
  | OtherElementNode => 1
  | TextNode => 2
  | CommentNode => 3
  end.

Definition NodeKind_decode (n : nat) : NodeKind :=
  match n with
  | 0 => HTMLElementNode
  | 1 => OtherElementNode
  | 2 => TextNode
  | _ => CommentNode
  end.

#[global] Instance NodeKind_countable : Countable NodeKind.
Proof.
  apply (inj_countable' NodeKind_code NodeKind_decode).
  intros []; reflexivity.
Defined.

#[global] Instance Node_countable : Countable Node.
Proof.
  apply (inj_countable' (fun n => (node_id n, node_kind n))
                        (fun p => mkNode (fst p) (snd p))).
  intros []; reflexivity.
Defined.

(** [node.nodeType === Node.ELEMENT_NODE] *)
Definition isElementNode (n : Node) : bool :=
  match node_kind n with
  | HTMLElementNode | OtherElementNode => true
  | TextNode | CommentNode => false
  end.

(** [child instanceof HTMLElement] *)
Definition instanceofHTMLElement (n : Node) : bool :=
  match node_kind n with
  | HTMLElementNode => true
  | _ => false
  end.

(** One [MutationRecord] of a childList observation. *)
Record MutationRecord : Type := mkMutation {
  addedNodes : list Node;
  removedNodes : list Node
}.

(** ** The virtualization engine, as the element sees it *)

Inductive Orientation : Type := vertical | horizontal.

#[global] Instance Orientation_eq_dec : EqDecision Orientation.
Proof. solve_decision. Defined.

(** An entry of the visible window ([MockVirtualItem]). *)
Record VirtualItem : Type := mkVirtualItem {
  vi_index : Z;
  vi_start : JsNumber;
  vi_size : JsNumber;
  vi_end : JsNumber
}.

(** The data fields of the option set built by [#createOptions].  Its
    function-valued fields ([estimateSize], [onChange], [getItemKey]) close
    over the element and read it when called; they are the functions
    [getEstimatedSize], [onChange] and [getItemKey] below. *)
Record Options : Type := mkOptions {
  opt_count : nat;
  opt_overscan : JsNumber;
  opt_horizontal : bool;
  opt_paddingStart : JsNumber;
  opt_paddingEnd : JsNumber;
  opt_scrollPaddingStart : JsNumber;
  opt_scrollPaddingEnd : JsNumber
}.

(** One engine instance: the options it was last given and the window and
    total extent it reports. *)
Record Virtualizer : Type := mkVirtualizer {
  options : Options;
  virtualItems : list VirtualItem;
  totalSize : JsNumber
}.

(** The key handed to the engine: a string or a number. *)
Inductive Key : Type :=
| KeyString (s : string)
| KeyNumber (i : Z).

(** Calls the element makes on its collaborators, in program order. *)
Inductive Call : Type :=
| CallNew (inst : nat)
| CallWillUpdate (inst : nat)
| CallDidMount (inst : nat)
| CallSetOptions (inst : nat) (o : Options)
| CallMeasure (inst : nat)
| CallMeasureElement (inst : nat) (child : Node)
| CallCleanup (inst : nat)
| CallRequestAnimationFrame (handle : nat)
| CallCancelAnimationFrame (handle : nat)
| CallQueueMicrotask.

Definition isCleanup (c : Call) : bool :=
  match c with CallCleanup _ => true | _ => false end.

Definition isCancel (c : Call) : bool :=
  match c with CallCancelAnimationFrame _ => true | _ => false end.

(** ** The element and its surroundings *)

(** The shadow tree of [#setupShadowDom].  [#scrollElement],
    [#sizerElement] and [#itemsContainer] are assigned together there and
    nowhere else, so one optional record stands for the three fields. *)
Record Shadow : Type := mkShadow {
  sizer_width : string;
  sizer_height : string;
  items_transform : string;
  items_children : list Node
}.

Record Config : Type := mkConfig {
  orientation : Orientation;
  estimateSize : JsNumber;
  overscan : JsNumber;
  paddingStart : JsNumber;
  paddingEnd : JsNumber;
  scrollPaddingStart : JsNumber;
  scrollPaddingEnd : JsNumber
}.

(** What the host page offers for scheduling, and what is queued there on
    behalf of this element. *)
Record Host : Type := mkHost {
  has_requestAnimationFrame : bool;
  has_cancelAnimationFrame : bool;
  frames : list nat;
  next_handle : nat;
  microtasks : nat
}.

Record World : Type := mkWorld {
  virtualizer : option nat;
  virtualizerCleanup : option nat;
  items : list Node;
  shadow : option Shadow;
  initialized : bool;
  mutationObserver : option bool;
  config : Config;
  rafId : option nat;
  hostAttributes : gmap string string;
  childNodes : list Node;
  attributes : gmap (Node * string) string;
  virtualizerInstances : list Virtualizer;
  host : Host;
  calls : list Call
}.

(** ** Field updates

    [set_f v w] is the assignment [this.#f = v]. *)

Definition set_virtualizer (v : option nat) (w : World) : World :=
  mkWorld v (virtualizerCleanup w) (items w) (shadow w) (initialized w)
    (mutationObserver w) (config w) (rafId w) (hostAttributes w)
    (childNodes w) (attributes w) (virtualizerInstances w) (host w)
    (calls w).

Definition set_virtualizerCleanup (v : option nat) (w : World) : World :=
  mkWorld (virtualizer w) v (items w) (shadow w) (initialized w)
    (mutationObserver w) (config w) (rafId w) (hostAttributes w)
    (childNodes w) (attributes w) (virtualizerInstances w) (host w)
    (calls w).

Definition set_items (v : list Node) (w : World) : World :=
  mkWorld (virtualizer w) (virtualizerCleanup w) v (shadow w)
    (initialized w) (mutationObserver w) (config w) (rafId w)
    (hostAttributes w) (childNodes w) (attributes w)
    (virtualizerInstances w) (host w) (calls w).

Definition set_shadow (v : option Shadow) (w : World) : World :=
  mkWorld (virtualizer w) (virtualizerCleanup w) (items w) v (initialized w)
    (mutationObserver w) (config w) (rafId w) (hostAttributes w)
    (childNodes w) (attributes w) (virtualizerInstances w) (host w)
    (calls w).

Definition set_initialized (v : bool) (w : World) : World :=
  mkWorld (virtualizer w) (virtualizerCleanup w) (items w) (shadow w) v
    (mutationObserver w) (config w) (rafId w) (hostAttributes w)
    (childNodes w) (attributes w) (virtualizerInstances w) (host w)
    (calls w).

Definition set_mutationObserver (v : option bool) (w : World) : World :=
  mkWorld (virtualizer w) (virtualizerCleanup w) (items w) (shadow w)
    (initialized w) v (config w) (rafId w) (hostAttributes w) (childNodes w)
    (attributes w) (virtualizerInstances w) (host w) (calls w).

Definition set_config (v : Config) (w : World) : World :=
  mkWorld (virtualizer w) (virtualizerCleanup w) (items w) (shadow w)
    (initialized w) (mutationObserver w) v (rafId w) (hostAttributes w)
    (childNodes w) (attributes w) (virtualizerInstances w) (host w)
    (calls w).

Definition set_rafId (v : option nat) (w : World) : World :=
  mkWorld (virtualizer w) (virtualizerCleanup w) (items w) (shadow w)
    (initialized w) (mutationObserver w) (config w) v (hostAttributes w)
    (childNodes w) (attributes w) (virtualizerInstances w) (host w)
    (calls w).

Definition set_hostAttributes (v : gmap string string) (w : World) : World :=
  mkWorld (virtualizer w) (virtualizerCleanup w) (items w) (shadow w)
    (initialized w) (mutationObserver w) (config w) (rafId w) v
    (childNodes w) (attributes w) (virtualizerInstances w) (host w)
    (calls w).

Definition set_childNodes (v : list Node) (w : World) : World :=
  mkWorld (virtualizer w) (virtualizerCleanup w) (items w) (shadow w)
    (initialized w) (mutationObserver w) (config w) (rafId w)
    (hostAttributes w) v (attributes w) (virtualizerInstances w) (host w)
    (calls w).

Definition set_attributes (v : gmap (Node * string) string) (w : World) : World :=
  mkWorld (virtualizer w) (virtualizerCleanup w) (items w) (shadow w)
    (initialized w) (mutationObserver w) (config w) (rafId w)
    (hostAttributes w) (childNodes w) v (virtualizerInstances w) (host w)
    (calls w).

Definition set_virtualizerInstances (v : list Virtualizer) (w : World) : World :=
  mkWorld (virtualizer w) (virtualizerCleanup w) (items w) (shadow w)
    (initialized w) (mutationObserver w) (config w) (rafId w)
    (hostAttributes w) (childNodes w) (attributes w) v (host w) (calls w).

Definition set_host (v : Host) (w : World) : World :=
  mkWorld (virtualizer w) (virtualizerCleanup w) (items w) (shadow w)
    (initialized w) (mutationObserver w) (config w) (rafId w)
    (hostAttributes w) (childNodes w) (attributes w)
    (virtualizerInstances w) v (calls w).

Definition set_calls (v : list Call) (w : World) : World :=
  mkWorld (virtualizer w) (virtualizerCleanup w) (items w) (shadow w)
    (initialized w) (mutationObserver w) (config w) (rafId w)
    (hostAttributes w) (childNodes w) (attributes w)
    (virtualizerInstances w) (host w) v.

Definition set_orientation (v : Orientation) (x : Config) : Config :=
  mkConfig v (estimateSize x) (overscan x) (paddingStart x) (paddingEnd x)
    (scrollPaddingStart x) (scrollPaddingEnd x).

Definition set_estimateSize (v : JsNumber) (x : Config) : Config :=
  mkConfig (orientation x) v (overscan x) (paddingStart x) (paddingEnd x)
    (scrollPaddingStart x) (scrollPaddingEnd x).

Definition set_overscan (v : JsNumber) (x : Config) : Config :=
  mkConfig (orientation x) (estimateSize x) v (paddingStart x)
    (paddingEnd x) (scrollPaddingStart x) (scrollPaddingEnd x).

Definition set_paddingStart (v : JsNumber) (x : Config) : Config :=
  mkConfig (orientation x) (estimateSize x) (overscan x) v (paddingEnd x)
    (scrollPaddingStart x) (scrollPaddingEnd x).

Definition set_paddingEnd (v : JsNumber) (x : Config) : Config :=
  mkConfig (orientation x) (estimateSize x) (overscan x) (paddingStart x) v
    (scrollPaddingStart x) (scrollPaddingEnd x).

Definition set_scrollPaddingStart (v : JsNumber) (x : Config) : Config :=
  mkConfig (orientation x) (estimateSize x) (overscan x) (paddingStart x)
    (paddingEnd x) v (scrollPaddingEnd x).

Definition set_scrollPaddingEnd (v : JsNumber) (x : Config) : Config :=
  mkConfig (orientation x) (estimateSize x) (overscan x) (paddingStart x)
    (paddingEnd x) (scrollPaddingStart x) v.

Definition set_frames (v : list nat) (x : Host) : Host :=
  mkHost (has_requestAnimationFrame x) (has_cancelAnimationFrame x) v
    (next_handle x) (microtasks x).

Definition set_next_handle (v : nat) (x : Host) : Host :=
  mkHost (has_requestAnimationFrame x) (has_cancelAnimationFrame x)
    (frames x) v (microtasks x).

Definition set_microtasks (v : nat) (x : Host) : Host :=
  mkHost (has_requestAnimationFrame x) (has_cancelAnimationFrame x)
    (frames x) (next_handle x) v.

Definition set_sizer_width (v : string) (x : Shadow) : Shadow :=
  mkShadow v (sizer_height x) (items_transform x) (items_children x).

Definition set_sizer_height (v : string) (x : Shadow) : Shadow :=
  mkShadow (sizer_width x) v (items_transform x) (items_children x).

Definition set_items_transform (v : string) (x : Shadow) : Shadow :=
  mkShadow (sizer_width x) (sizer_height x) v (items_children x).

Definition set_items_children (v : list Node) (x : Shadow) : Shadow :=
  mkShadow (sizer_width x) (sizer_height x) (items_transform x) v.

Definition set_options (v : Options) (x : Virtualizer) : Virtualizer :=
  mkVirtualizer v (virtualItems x) (totalSize x).

Definition set_virtualItems (v : list VirtualItem) (x : Virtualizer) : Virtualizer :=
  mkVirtualizer (options x) v (totalSize x).

Definition set_totalSize (v : JsNumber) (x : Virtualizer) : Virtualizer :=
  mkVirtualizer (options x) (virtualItems x) v.

(** ** Outcomes

    A method either returns or throws; in both cases the world it leaves
    behind is kept. *)

Inductive Outcome : Type :=
| Done (w : World)
| Thrown (w : World).

Definition world_of (o : Outcome) : World :=
  match o with Done w | Thrown w => w end.

Definition and_then (o : Outcome) (k : World -> Outcome) : Outcome :=
  match o with
  | Done w => k w
  | Thrown w => Thrown w
  end.

Infix ">>>" := and_then (at level 61, left associativity).

(** [for (const x of l) body(x)] for a body that may throw. *)
Fixpoint for_each {A : Type} (l : list A) (body : A -> World -> Outcome)
    (w : World) : Outcome :=
  match l with
  | [] => Done w
  | x :: l' => body x w >>> for_each l' body
  end.

(** ** Arrays and the DOM *)

(** [array[i]] for a JavaScript number [i] that is an integer. *)
Definition item_at {A : Type} (l : list A) (i : Z) : option A :=
  if (i <? 0)%Z then None else l !! Z.to_nat i.

(** [array.indexOf(x)], [None] standing for -1. *)
Fixpoint indexOf (l : list Node) (x : Node) : option nat :=
  match l with
  | [] => None
  | y :: l' => if decide (y = x) then Some 0 else S <$> indexOf l' x
  end.

(** [array.splice(index, 1)] *)
Definition splice1 (index : nat) (l : list Node) : list Node :=
  delete index l.

Definition without (n : Node) (l : list Node) : list Node :=
  filter (fun m => m <> n) l.

Definition record (c : Call) (w : World) : World :=
  set_calls (calls w ++ [c]) w.

Definition getAttribute (w : World) (n : Node) (name : string)
    : option string :=
  attributes w !! (n, name).

Definition hasAttribute (w : World) (n : Node) (name : string) : bool :=
  bool_decide (is_Some (getAttribute w n name)).

Definition setAttribute (n : Node) (name value : string) (w : World)
    : World :=
  set_attributes (<[(n, name) := value]> (attributes w)) w.

(** [element.id] reflects the [id] content attribute: the empty string
    when the attribute is absent. *)
Definition element_id (w : World) (n : Node) : string :=
  default "" (getAttribute w n "id").

(** [node.parentNode === this] *)
Definition parentIsHost (w : World) (n : Node) : bool :=
  bool_decide (n ∈ childNodes w).

(** [this.removeChild(node)], called on children of the host only; a child
    list holds a node at most once. *)
Definition removeChild (n : Node) (w : World) : World :=
  set_childNodes (without n (childNodes w)) w.

(** A node that is inserted somewhere else first leaves the parent it has,
    be it the host or the items container. *)
Definition detach (n : Node) (w : World) : World :=
  let w1 := set_childNodes (without n (childNodes w)) w in
  match shadow w1 with
  | Some sh =>
      set_shadow (Some (set_items_children (without n (items_children sh)) sh)) w1
  | None => w1
  end.

(** [fragment.appendChild(item)] *)
Definition appendToFragment (item : Node) (st : World * list Node)
    : World * list Node :=
  (detach item (fst st), without item (snd st) ++ [item]).

(** ** The engine ([MockVirtualizer]) *)

Definition newVirtualizer (o : Options) (w : World) : nat * World :=
  let inst := length (virtualizerInstances w) in
  (inst,
   record (CallNew inst)
     (set_virtualizerInstances
        (virtualizerInstances w ++ [mkVirtualizer o [] (Finite 0)]) w)).

Definition _willUpdate (inst : nat) (w : World) : World :=
  record (CallWillUpdate inst) w.

Definition _didMount (inst : nat) (w : World) : World :=
  record (CallDidMount inst) w.

Definition setOptions (inst : nat) (o : Options) (w : World) : World :=
  record (CallSetOptions inst o)
    (set_virtualizerInstances
       (alter (set_options o) inst (virtualizerInstances w)) w).

Definition engine_measure (inst : nat) (w : World) : World :=
  record (CallMeasure inst) w.

Definition measureElement (inst : nat) (child : Node) (w : World) : World :=
  record (CallMeasureElement inst child) w.

Definition getVirtualItems (w : World) (inst : nat) : list VirtualItem :=
  match virtualizerInstances w !! inst with
  | Some v => virtualItems v
  | None => []
  end.

Definition getTotalSize (w : World) (inst : nat) : JsNumber :=
  match virtualizerInstances w !! inst with
  | Some v => totalSize v
  | None => Finite 0
  end.

(** The cleanup closure returned by [_didMount]. *)
Definition cleanup (inst : nat) (w : World) : World :=
  record (CallCleanup inst) w.

(** ** The host's scheduling primitives *)

Definition requestAnimationFrame (w : World) : nat * World :=
  let h := next_handle (host w) in
  (h,
   record (CallRequestAnimationFrame h)
     (set_host
        (set_next_handle (S h) (set_frames (frames (host w) ++ [h]) (host w)))
        w)).

Definition cancelAnimationFrame (h : nat) (w : World) : World :=
  record (CallCancelAnimationFrame h)
    (set_host
       (set_frames (filter (fun h' => h' <> h) (frames (host w))) (host w)) w).

Definition queueMicrotask (w : World) : World :=
  record CallQueueMicrotask
    (set_host (set_microtasks (S (microtasks (host w))) (host w)) w).

Definition pending (w : World) : nat :=
  length (frames (host w)) + microtasks (host w).

(** ** The class [VirtualListElement] *)

(** The two conversions of the language the element relies on:
    [Number(text)], and the conversion of a number to text in a template
    literal.  They are left open: whatever they compute, the element behaves
    as below. *)
Class Conversions : Type := {
  StringToNumber : string -> JsNumber;
  NumberToString : JsNumber -> string
}.

Section VirtualListElement.

Context `{Conversions}.

(** The fresh element: the field initialisers of the class, inside a page
    that has the given light DOM and scheduling primitives. *)
Definition new_VirtualListElement (raf caf : bool)
    (hostAttrs : gmap string string) (children : list Node)
    (attrs : gmap (Node * string) string) : World :=
  {| virtualizer := None;
     virtualizerCleanup := None;
     items := [];
     shadow := None;
     initialized := false;
     mutationObserver := None;
     config := mkConfig vertical DEFAULT_ESTIMATE DEFAULT_OVERSCAN
                 (Finite 0) (Finite 0) (Finite 0) (Finite 0);
     rafId := None;
     hostAttributes := hostAttrs;
     childNodes := children;
     attributes := attrs;
     virtualizerInstances := [];
     host := mkHost raf caf [] 1 0;
     calls := [] |}.

(** The closure [measure] of [#scheduleMeasurement]. *)
Definition measure (w : World) : World :=
  let w1 := set_rafId None w in
  match virtualizer w1, shadow w1 with
  | Some inst, Some sh =>
      fold_left
        (fun w' child =>
           if instanceofHTMLElement child
           then measureElement inst child w' else w')
        (items_children sh) w1
  | _, _ => w1
  end.

(** [#scheduleMeasurement].  Calling [cancelAnimationFrame] where the host
    has none throws. *)
Definition scheduleMeasurement (w : World) : Outcome :=
  match virtualizer w, shadow w with
  | Some _, Some _ =>
      if has_requestAnimationFrame (host w) then
        match rafId w with
        | Some h =>
            if has_cancelAnimationFrame (host w) then
              let w1 := cancelAnimationFrame h w in
              let requested := requestAnimationFrame w1 in
              Done (set_rafId (Some (fst requested)) (snd requested))
            else Thrown w
        | None =>
            let requested := requestAnimationFrame w in
            Done (set_rafId (Some (fst requested)) (snd requested))
        end
      else Done (queueMicrotask w)
  | _, _ => Done w
  end.

(** The body of the loop of [#render] over the visible window. *)
Definition render_entry (st : World * list Node) (virtualItem : VirtualItem)
    : World * list Node :=
  let w := fst st in
  match item_at (items w) (vi_index virtualItem) with
  | None => st
  | Some item =>
      let w1 := setAttribute item "aria-setsize"
                  (pretty (length (items w))) w in
      let w2 := setAttribute item "aria-posinset"
                  (pretty (vi_index virtualItem + 1)%Z) w1 in
      appendToFragment item (w2, snd st)
  end.

Definition px (x : JsNumber) : string := NumberToString x +:+ "px".

Definition update_shadow (f : Shadow -> Shadow) (w : World) : World :=
  match shadow w with
  | Some sh => set_shadow (Some (f sh)) w
  | None => w
  end.

(** The first statement of [#render]: the sizer takes the total extent
    along the active axis and fills the other one. *)
Definition sized (inst : nat) (w : World) (sh : Shadow) : Shadow :=
  if bool_decide (orientation (config w) = horizontal)
  then set_sizer_height "100%" (set_sizer_width (px (getTotalSize w inst)) sh)
  else set_sizer_width "100%" (set_sizer_height (px (getTotalSize w inst)) sh).

Definition firstStart (inst : nat) (w : World) : JsNumber :=
  match getVirtualItems w inst with
  | [] => Finite 0
  | first :: _ => vi_start first
  end.

(** The last but one statement of [#render]. *)
Definition translation (inst : nat) (w : World) : string :=
  if bool_decide (orientation (config w) = horizontal)
  then "translate3d(" +:+ NumberToString (firstStart inst w) +:+ "px, 0, 0)"
  else "translate3d(0, " +:+ NumberToString (firstStart inst w) +:+ "px, 0)".

(** [#render] up to, and not including, its last statement. *)
Definition render_tree (inst : nat) (w : World) : World :=
  let w1 := update_shadow (sized inst w) w in
  let st := fold_left render_entry (getVirtualItems w inst) (w1, []) in
  let fragment := snd st in
  let w3 := update_shadow (set_items_children fragment) (fst st) in
  update_shadow (set_items_transform (translation inst w)) w3.

Definition render (w : World) : Outcome :=
  match virtualizer w, shadow w with
  | Some inst, Some _ => scheduleMeasurement (render_tree inst w)
  | _, _ => Done w
  end.

Definition createOptions (w : World) : Options :=
  {| opt_count := length (items w);
     opt_overscan := overscan (config w);
     opt_horizontal := bool_decide (orientation (config w) = horizontal);
     opt_paddingStart := paddingStart (config w);
     opt_paddingEnd := paddingEnd (config w);
     opt_scrollPaddingStart := scrollPaddingStart (config w);
     opt_scrollPaddingEnd := scrollPaddingEnd (config w) |}.

(** [getItemKey] of the option set: [item?.id ?? index]. *)
Definition getItemKey (w : World) (index : Z) : Key :=
  match item_at (items w) index with
  | Some item => KeyString (element_id w item)
  | None => KeyNumber index
  end.

Definition getEstimatedSize (w : World) (index : Z) : JsNumber :=
  match item_at (items w) index with
  | Some item =>
      match getAttribute w item "data-estimate-size" with
      | Some attr =>
          if String.eqb attr "" then estimateSize (config w)
          else
            let parsed := StringToNumber attr in
            if Number_isFinite parsed then parsed
            else estimateSize (config w)
      | None => estimateSize (config w)
      end
  | None => estimateSize (config w)
  end.

(** [onChange] of the option set. *)
Definition onChange (instance : nat) (w : World) : Outcome :=
  if decide (virtualizer w = Some instance) then render w else Done w.

Definition updateVirtualizerOptions (w : World) : Outcome :=
  match virtualizer w with
  | None => Done w
  | Some inst =>
      let w1 := _willUpdate inst w in
      let w2 := setOptions inst (createOptions w1) w1 in
      let w3 := engine_measure inst w2 in
      render w3
  end.

Definition fallbackForAttribute (name : string) : JsNumber :=
  if String.eqb name "estimate-size" then DEFAULT_ESTIMATE
  else if String.eqb name "overscan" then DEFAULT_OVERSCAN
  else Finite 0.

Definition update_config (f : Config -> Config) (w : World) : World :=
  set_config (f (config w)) w.

Definition attributeChangedCallback (name : string)
    (oldValue newValue : option string) (w : World) : Outcome :=
  if decide (oldValue = newValue) then Done w
  else
    let w1 :=
      if String.eqb name "orientation" then
        update_config
          (set_orientation
             (if decide (newValue = Some "horizontal")
              then horizontal else vertical)) w
      else if has NUMBER_ATTRIBUTES name then
        let parsed :=
          match newValue with
          | Some text => StringToNumber text
          | None => NaN
          end in
        let fallback := fallbackForAttribute name in
        let next := if Number_isFinite parsed then parsed else fallback in
        if String.eqb name "estimate-size" then
          update_config (set_estimateSize next) w
        else if String.eqb name "overscan" then
          update_config (set_overscan (Math_max0 (Math_floor next))) w
        else if String.eqb name "padding-start" then
          update_config (set_paddingStart (Math_max0 next)) w
        else if String.eqb name "padding-end" then
          update_config (set_paddingEnd (Math_max0 next)) w
        else if String.eqb name "scroll-padding-start" then
          update_config (set_scrollPaddingStart (Math_max0 next)) w
        else if String.eqb name "scroll-padding-end" then
          update_config (set_scrollPaddingEnd (Math_max0 next)) w
        else w
      else w in
    updateVirtualizerOptions w1.

(** The body of the loop of [#captureChildren]. *)
Definition capture_node (st : World * list Node) (node : Node)
    : World * list Node :=
  let w := fst st in
  let collected := snd st in
  if isElementNode node then
    let w1 := if hasAttribute w node "role" then w
              else setAttribute node "role" "listitem" w in
    (removeChild node w1, collected ++ [node])
  else (removeChild node w, collected).

Definition captureChildren (w : World) : World :=
  let nodes := childNodes w in
  let st := fold_left capture_node nodes (w, []) in
  set_items (snd st) (fst st).

Definition startObservingLightDom (w : World) : World :=
  set_mutationObserver (Some true) w.

Definition stopObservingLightDom (w : World) : World :=
  match mutationObserver w with
  | Some _ => set_mutationObserver None w
  | None => w
  end.

(** State of the loop of [#handleLightDomMutations]: the world, the local
    [additions] and the local [changed]. *)
Record Reconcile : Type := mkReconcile {
  rc_world : World;
  rc_additions : list Node;
  rc_changed : bool
}.

(** The callback of [mutation.addedNodes.forEach]. *)
Definition visit_added (st : Reconcile) (node : Node) : Reconcile :=
  if isElementNode node then
    mkReconcile (rc_world st) (rc_additions st ++ [node]) (rc_changed st)
  else if parentIsHost (rc_world st) node then
    mkReconcile (removeChild node (rc_world st)) (rc_additions st)
      (rc_changed st)
  else st.

(** The callback of [mutation.removedNodes.forEach]. *)
Definition visit_removed (st : Reconcile) (node : Node) : Reconcile :=
  if isElementNode node then
    match indexOf (items (rc_world st)) node with
    | Some index =>
        mkReconcile
          (set_items (splice1 index (items (rc_world st))) (rc_world st))
          (rc_additions st) true
    | None => st
    end
  else st.

Definition visit_mutation (st : Reconcile) (mutation : MutationRecord)
    : Reconcile :=
  fold_left visit_removed (removedNodes mutation)
    (fold_left visit_added (addedNodes mutation) st).

(** The body of the loop over [additions]. *)
Definition adopt (w : World) (element : Node) : World :=
  let w1 := if hasAttribute w element "role" then w
            else setAttribute element "role" "listitem" w in
  let w2 := if parentIsHost w1 element then removeChild element w1
            else w1 in
  set_items (items w2 ++ [element]) w2.

Definition handleLightDomMutations (mutations : list MutationRecord)
    (w : World) : Outcome :=
  let st := fold_left visit_mutation mutations (mkReconcile w [] false) in
  let st' :=
    match rc_additions st with
    | [] => st
    | _ :: _ =>
        mkReconcile (fold_left adopt (rc_additions st) (rc_world st))
          (rc_additions st) true
    end in
  if rc_changed st' then updateVirtualizerOptions (rc_world st')
  else Done (rc_world st').

Definition setupShadowDom (w : World) : World :=
  set_shadow (Some (mkShadow "" "" "" [])) w.

Definition applyInitialAttributes (w : World) : Outcome :=
  let w1 :=
    update_config
      (set_orientation
         (if decide (hostAttributes w !! "orientation" = Some "horizontal")
          then horizontal else vertical)) w in
  for_each NUMBER_ATTRIBUTES
    (fun name w' =>
       match hostAttributes w' !! name with
       | Some value => attributeChangedCallback name None (Some value) w'
       | None => Done w'
       end) w1.

Definition mountVirtualizer (w : World) : Outcome :=
  match shadow w with
  | None => Done w
  | Some _ =>
      match virtualizer w with
      | Some inst =>
          let w1 := _willUpdate inst w in
          let w2 := setOptions inst (createOptions w1) w1 in
          let w3 := engine_measure inst w2 in
          render w3
      | None =>
          let created := newVirtualizer (createOptions w) w in
          let inst := fst created in
          let w2 := set_virtualizer (Some inst) (snd created) in
          let w3 := _willUpdate inst w2 in
          let w4 := set_virtualizerCleanup (Some inst) (_didMount inst w3) in
          render w4
      end
  end.

Definition teardownVirtualizer (w : World) : World :=
  let w1 :=
    match rafId w with
    | Some h =>
        if has_cancelAnimationFrame (host w)
        then set_rafId None (cancelAnimationFrame h w)
        else w
    | None => w
    end in
  let w2 :=
    match virtualizerCleanup w1 with
    | Some inst => set_virtualizerCleanup None (cleanup inst w1)
    | None => w1
    end in
  match virtualizer w2 with
  | Some _ => set_virtualizer None w2
  | None => w2
  end.

Definition initialize (w : World) : Outcome :=
  let w1 := set_initialized true w in
  let w2 :=
    match hostAttributes w1 !! "role" with
    | Some _ => w1
    | None => set_hostAttributes (<["role" := "list"]> (hostAttributes w1)) w1
    end in
  let w3 := captureChildren w2 in
  let w4 := setupShadowDom w3 in
  applyInitialAttributes w4 >>>
  (fun w5 => mountVirtualizer (startObservingLightDom w5)).

Definition connectedCallback (w : World) : Outcome :=
  if initialized w then mountVirtualizer (startObservingLightDom w)
  else initialize w.

Definition disconnectedCallback (w : World) : World :=
  teardownVirtualizer (stopObservingLightDom w).

(** ** The page around the element

    What can happen to an element once it exists: the life-cycle
    callbacks, attribute changes, a delivered batch of mutation records,
    the engine reporting a new window ([setVirtualState] of the test
    double, which stores the window and notifies through [onChange]), a
    queued frame or microtask being run, and the page editing the light
    DOM or an attribute of some node. *)

Inductive Input : Type :=
| Connected
| Disconnected
| AttributeChanged (name : string) (oldValue newValue : option string)
| Mutations (batch : list MutationRecord)
| SetVirtualState (inst : nat) (window : list VirtualItem) (total : JsNumber)
| RunFrame (handle : nat)
| RunMicrotask
| PageAppendChild (node : Node)
| PageRemoveChild (node : Node)
| PageSetAttribute (node : Node) (name value : string).

Definition setVirtualState (inst : nat) (window : list VirtualItem)
    (total : JsNumber) (w : World) : Outcome :=
  match virtualizerInstances w !! inst with
  | Some _ =>
      onChange inst
        (set_virtualizerInstances
           (alter (fun v => set_totalSize total (set_virtualItems window v))
              inst (virtualizerInstances w)) w)
  | None => Done w
  end.

Definition runFrame (h : nat) (w : World) : World :=
  if bool_decide (h ∈ frames (host w)) then
    measure
      (set_host
         (set_frames (filter (fun h' => h' <> h) (frames (host w))) (host w))
         w)
  else w.

Definition runMicrotask (w : World) : World :=
  match microtasks (host w) with
  | S n => measure (set_host (set_microtasks n (host w)) w)
  | O => w
  end.

Definition step (w : World) (i : Input) : Outcome :=
  match i with
  | Connected => connectedCallback w
  | Disconnected => Done (disconnectedCallback w)
  | AttributeChanged name oldValue newValue =>
      attributeChangedCallback name oldValue newValue w
  | Mutations batch => handleLightDomMutations batch w
  | SetVirtualState inst window total => setVirtualState inst window total w
  | RunFrame h => Done (runFrame h w)
  | RunMicrotask => Done (runMicrotask w)
  | PageAppendChild node =>
      let w1 := detach node w in
      Done (set_childNodes (childNodes w1 ++ [node]) w1)
  | PageRemoveChild node => Done (removeChild node w)
  | PageSetAttribute node name value => Done (setAttribute node name value w)
  end.

Definition run (w : World) (inputs : list Input) : World :=
  fold_left (fun w' i => world_of (step w' i)) inputs w.

(** The worlds an element can be in: a fresh element, then any inputs. *)
Inductive Reachable : World -> Prop :=
| Reachable_new raf caf hostAttrs children attrs :
    Reachable (new_VirtualListElement raf caf hostAttrs children attrs)
| Reachable_step w i :
    Reachable w -> Reachable (world_of (step w i)).

End VirtualListElement.

(** ** Views of the world

    The fields no render pass writes. *)
Definition kept (w : World) :=
  (virtualizer w, virtualizerCleanup w, items w, initialized w,
   mutationObserver w, config w, hostAttributes w, virtualizerInstances w).

(** What is scheduled: the host's queues and the handle the element holds. *)
Definition sched (w : World) : Host * option nat := (host w, rafId w).

(** The retained handle accounts for every queued frame, and no microtask
    is queued. *)
Definition scheduled_ok (w : World) : Prop :=
  microtasks (host w) = 0 /\ frames (host w) = option_list (rafId w).

(** [w'] comes from [w] by moves that keep the host's primitives as they
    are and, where the host has [requestAnimationFrame], keep
    [scheduled_ok]. *)
Definition steady (w w' : World) : Prop :=
  has_requestAnimationFrame (host w') = has_requestAnimationFrame (host w) /\
  has_cancelAnimationFrame (host w') = has_cancelAnimationFrame (host w) /\
  (has_requestAnimationFrame (host w) = true ->
   scheduled_ok w -> scheduled_ok w').

Definition has_shadow (w : World) : bool :=
  match shadow w with Some _ => true | None => false end.

(** What only activation and deactivation change. *)
Definition core (w : World) : option nat * bool * nat * bool :=
  (virtualizer w, initialized w, length (virtualizerInstances w), has_shadow w).

(** A retained instance is one of the instances created so far, and it is
    retained only once the element is initialised and has its shadow tree. *)
Definition mounted_ok (w : World) : Prop :=
  forall inst, virtualizer w = Some inst ->
    inst < length (virtualizerInstances w) /\
    has_shadow w = true /\ initialized w = true.

(** The registry is [l] and the host has no child. *)
Definition captured (l : list Node) (w : World) : Prop :=
  items w = l /\ childNodes w = [].

(** ** A page to run the element in

    Decimal conversions for whole numbers, on which they agree with the
    language (for magnitudes below 10^21, the empty text being 0); other
    text is not a number here, and a fraction is printed as a quotient.  They only serve to
    evaluate the element on concrete pages. *)

Definition digit_value (c : Ascii.ascii) : option Z :=
  let n := Ascii.nat_of_ascii c in
  if (48 <=? n) && (n <=? 57) then Some (Z.of_nat (n - 48)) else None.

Fixpoint digits_value (acc : Z) (s : string) : option Z :=
  match s with
  | EmptyString => Some acc
  | String c s' =>
      match digit_value c with
      | Some d => digits_value (10 * acc + d)%Z s'
      | None => None
      end
  end.

Definition decimal_of_string (s : string) : JsNumber :=
  match s with
  | EmptyString => Finite 0
  | String "-"%char EmptyString => NaN
  | String "-"%char s' =>
      match digits_value 0 s' with
      | Some z => Finite (inject_Z (- z))
      | None => NaN
      end
  | _ =>
      match digits_value 0 s with
      | Some z => Finite (inject_Z z)
      | None => NaN
      end
  end.

Definition decimal_to_string (x : JsNumber) : string :=
  match x with
  | NaN => "NaN"
  | PosInfinity => "Infinity"
  | NegInfinity => "-Infinity"
  | Finite q =>
      let r := Qred q in
      match Qden r with
      | xH => pretty (Qnum r)
      | d => pretty (Qnum r) +:+ "/" +:+ pretty (Zpos d)
      end
  end.

Definition decimal : Conversions :=
  {| StringToNumber := decimal_of_string;
     NumberToString := decimal_to_string |}.

(** The rows of a list, and window entries 24 pixels long. *)
Definition row (n : nat) : Node := mkNode n HTMLElementNode.

Definition entry (index start : Z) : VirtualItem :=
  mkVirtualItem index (Finite (inject_Z start)) (Finite 24)
    (Finite (inject_Z (start + 24))).

(** The list of the first test of [test/virtual-list.test.ts]: two rows,
    the first with an id, and a text node between them. *)
Definition two_rows (raf caf : bool) : World :=
  new_VirtualListElement raf caf ∅ [row 1; mkNode 2 TextNode; row 3]
    {[ (row 1, "id") := "first" ]}.

Definition window_of_two : list VirtualItem := [entry 0 0; entry 1 24].

(** Connected, in a page with both frame primitives. *)
Definition mounted : World :=
  run (H := decimal) (two_rows true true) [Connected].

(** Then the engine reports both rows visible. *)
Definition rendered : World :=
  run (H := decimal) mounted [SetVirtualState 0 window_of_two (Finite 96)].

(** Disconnected and connected again: the engine instance is a new one. *)
Definition reconnected : World :=
  run (H := decimal) rendered [Disconnected; Connected].

(** The same list in a page without the frame primitives. *)
Definition fallback_mounted : World :=
  run (H := decimal) (two_rows false false) [Connected].

(** Then, before any queued microtask has run, the page sets overscan. *)
Definition fallback_reconfigured : World :=
  run (H := decimal) fallback_mounted
    [AttributeChanged "overscan" None (Some "3")].

(** A row that the page appends to the list and removes again before the
    mutation records are delivered. *)
Definition guest : Node := row 7.

Definition append_then_remove : list MutationRecord :=
  [mkMutation [guest] []; mkMutation [] [guest]].

(** ** Further views of the world *)

(** The registry items of the entries of a window, in window order; an
    entry whose index has no registry item contributes nothing. *)
Definition window_items (w : World) (window : list VirtualItem) : list Node :=
  omap (fun v => item_at (items w) (vi_index v)) window.

Definition isMeasureElement (c : Call) : bool :=
  match c with CallMeasureElement _ _ => true | _ => false end.

Definition isSetOptions (c : Call) : bool :=
  match c with CallSetOptions _ _ => true | _ => false end.

(** What [fragment.appendChild] does to the list of the fragment's
    children. *)
Definition push (fragment : list Node) (e : Node) : list Node :=
  without e fragment ++ [e].

(** A number that is finite and not below 0. *)
Definition nonnegative (x : JsNumber) : Prop :=
  exists q : Q, x = Finite q /\ (0 <= q)%Q.

(** The configuration the engine can work with: a finite estimate, a whole
    overscan that is not negative, paddings that are not negative. *)
Definition config_ok (c : Config) : Prop :=
  (exists q : Q, estimateSize c = Finite q) /\
  (exists z : Z, (0 <= z)%Z /\ overscan c = Finite (inject_Z z)) /\
  nonnegative (paddingStart c) /\ nonnegative (paddingEnd c) /\
  nonnegative (scrollPaddingStart c) /\ nonnegative (scrollPaddingEnd c).

(** The node is not a child of the host. *)
Definition absent (n : Node) (w : World) : Prop := n ∉ childNodes w.

(** The element is not in the registry. *)
Definition unregistered (e : Node) (w : World) : Prop := e ∉ items w.

(** The calls on the host's scheduling primitives. *)
Definition isScheduling (c : Call) : bool :=
  match c with
  | CallRequestAnimationFrame _ | CallCancelAnimationFrame _
  | CallQueueMicrotask => true
  | _ => false
  end.

(** The retained instance holds the option set of the world as it is. *)
Definition pushed (w : World) : Prop :=
  forall inst, virtualizer w = Some inst ->
    options <$> virtualizerInstances w !! inst = Some (createOptions w).

(** What the option set and the retained instance depend on, the registry
    apart. *)
Definition engine_view (w : World) :=
  (virtualizer w, config w, virtualizerInstances w, initialized w,
   has_shadow w).

(** A page in which [#scheduleMeasurement] cannot fail: it has
    [cancelAnimationFrame], or it has no [requestAnimationFrame] either. *)
Definition safe_host (w : World) : Prop :=
  has_requestAnimationFrame (host w) = false \/
  has_cancelAnimationFrame (host w) = true.

Definition returns (o : Outcome) : Prop :=
  match o with Done _ => True | Thrown _ => False end.

(** What [#captureChildren] leaves as it is: everything but the registry,
    the host's children and the attributes of nodes. *)
Definition besides_dom (w : World) :=
  (virtualizer w, virtualizerCleanup w, shadow w, initialized w,
   mutationObserver w, config w, rafId w, hostAttributes w,
   virtualizerInstances w, host w, calls w).

Definition isLifecycle (c : Call) : bool := negb (isScheduling c).

(** An initialised element has its shadow tree. *)
Definition built (w : World) : Prop :=
  initialized w = true -> has_shadow w = true.

(** ** The life of the instances *)

Definition isNewOrCleanup (c : Call) : bool :=
  match c with CallNew _ | CallCleanup _ => true | _ => false end.

(** The constructions and cleanups the engine has seen. *)
Definition lifeline (w : World) : list Call :=
  List.filter isNewOrCleanup (calls w).

(** The first [n] instances, each created and then cleaned up before the
    next one is created. *)
Definition lifetimes (n : nat) : list Call :=
  flat_map (fun inst => [CallNew inst; CallCleanup inst]) (seq 0 n).

Definition life (w : World) :=
  (virtualizer w, virtualizerCleanup w, length (virtualizerInstances w),
   lifeline w).

Definition accounted (w : World) : Prop :=
  virtualizerCleanup w = virtualizer w /\
  match virtualizer w with
  | Some inst =>
      S inst = length (virtualizerInstances w) /\
      lifeline w = lifetimes inst ++ [CallNew inst]
  | None => lifeline w = lifetimes (length (virtualizerInstances w))
  end.

(** ** What the element writes *)

(** The inputs by which the page itself writes an attribute. *)
Definition page_writes (i : Input) : bool :=
  match i with PageSetAttribute _ _ _ => true | _ => false end.

(** From [w] to [w'] no attribute was removed, no attribute other than
    aria-setsize and aria-posinset changed its value, and no attribute
    other than these two and role was added; of the host's attributes none
    changed and only role was added. *)
Definition respects (w w' : World) : Prop :=
  (forall n name, is_Some (getAttribute w n name) ->
     is_Some (getAttribute w' n name)) /\
  (forall n name v, name <> "aria-setsize" -> name <> "aria-posinset" ->
     getAttribute w n name = Some v -> getAttribute w' n name = Some v) /\
  (forall n name, name <> "role" -> name <> "aria-setsize" ->
     name <> "aria-posinset" ->
     getAttribute w' n name = getAttribute w n name) /\
  (forall name v, hostAttributes w !! name = Some v ->
     hostAttributes w' !! name = Some v) /\
  (forall name, name <> "role" ->
     hostAttributes w' !! name = hostAttributes w !! name).

(** ** A render pass, attribute by attribute *)

(** What one entry of the window does to the attribute [k], the registry
    being [registry]: the attribute takes a stamp when the entry's item is
    its node, and stays as it is otherwise. *)
Definition stamped (registry : list Node) (k : Node * string)
    (value : option string) (virtualItem : VirtualItem) : option string :=
  match item_at registry (vi_index virtualItem) with
  | Some item =>
      if decide (k = (item, "aria-posinset"))
      then Some (pretty (vi_index virtualItem + 1)%Z)
      else if decide (k = (item, "aria-setsize"))
      then Some (pretty (length registry))
      else value
  | None => value
  end.

Definition remove_all (es children : list Node) : list Node :=
  fold_left (fun c e => without e c) es children.

(** ** More of the example page *)

(** A text node that the page appends to the mounted list. *)
Definition stray : Node := mkNode 9 TextNode.

Definition littered : World :=
  run (H := decimal) mounted [PageAppendChild stray].

(** The children of the items container are registry items. *)
Definition contained (w : World) : Prop :=
  forall sh e, shadow w = Some sh -> e ∈ items_children sh -> e ∈ items w.

(** The page moves the first row of the mounted list back under the host;
    the record of that arrives, and then the engine reports three entries
    visible. *)
Definition doubled : World :=
  run (H := decimal) mounted
    [PageAppendChild (row 1); Mutations [mkMutation [row 1] []];
     SetVirtualState 0 [entry 0 0; entry 1 24; entry 2 48] (Finite 72)].

(** In the page without the frame primitives: disconnected and connected
    again in one task, and the new instance reports both rows visible,
    before any queued microtask has run. *)
Definition fallback_restarted : World :=
  run (H := decimal) fallback_mounted
    [Disconnected; Connected; SetVirtualState 1 window_of_two (Finite 48)].

(** * Properties *)

Section Properties.

Context `{Conversions}.

(** ** Folds *)

Lemma fold_left_frame {S A T : Type} (proj : S -> T) (f : S -> A -> S)
    (l : list A) (s : S) :
  (forall s' a, proj (f s' a) = proj s') ->
  proj (fold_left f l s) = proj s.
Proof.
  intros Hf. revert s.
  induction l as [| a l IH]; intros s; simpl; [reflexivity |].
  rewrite IH. apply Hf.
Qed.

Lemma fold_left_invariant {S A : Type} (P : S -> Prop) (f : S -> A -> S)
    (l : list A) (s : S) :
  P s -> (forall s' a, P s' -> P (f s' a)) -> P (fold_left f l s).
Proof.
  intros Hs Hf. revert s Hs.
  induction l as [| a l IH]; intros s Hs; simpl; [exact Hs |].
  apply IH, Hf, Hs.
Qed.

Lemma for_each_preserves {A : Type} (P : World -> Prop) (l : list A)
    (body : A -> World -> Outcome) (w : World) :
  (forall x w', P w' -> P (world_of (body x w'))) ->
  P w -> P (world_of (for_each l body w)).
Proof.
  intros Hbody. revert w.
  induction l as [| x l IH]; intros w Hw; simpl; [exact Hw |].
  pose proof (Hbody x w Hw) as Hx.
  destruct (body x w) as [w' | w']; simpl in *; [apply IH, Hx | exact Hx].
Qed.

(** ** What a render pass leaves alone *)

Lemma kept_update_shadow f w : kept (update_shadow f w) = kept w.
Proof. unfold update_shadow. destruct (shadow w); reflexivity. Qed.

Lemma kept_detach n w : kept (detach n w) = kept w.
Proof. unfold detach. simpl. destruct (shadow w); reflexivity. Qed.

Lemma kept_render_entry st v :
  kept (fst (render_entry st v)) = kept (fst st).
Proof.
  unfold render_entry.
  destruct (item_at (items (fst st)) (vi_index v)); [| reflexivity].
  simpl. rewrite kept_detach. reflexivity.
Qed.

Lemma kept_render_tree inst w : kept (render_tree inst w) = kept w.
Proof.
  unfold render_tree. cbv zeta.
  rewrite !kept_update_shadow.
  etrans;
    [ apply (fold_left_frame (fun st => kept (fst st))), kept_render_entry
    | apply kept_update_shadow ].
Qed.

Lemma kept_scheduleMeasurement w :
  kept (world_of (scheduleMeasurement w)) = kept w.
Proof.
  unfold scheduleMeasurement.
  repeat case_match; reflexivity.
Qed.

Lemma kept_render w : kept (world_of (render w)) = kept w.
Proof.
  unfold render.
  destruct (virtualizer w) as [inst |]; [| reflexivity].
  destruct (shadow w); [| reflexivity].
  rewrite kept_scheduleMeasurement. apply kept_render_tree.
Qed.

Lemma config_updateVirtualizerOptions w :
  config (world_of (updateVirtualizerOptions w)) = config w.
Proof.
  unfold updateVirtualizerOptions.
  destruct (virtualizer w) as [inst |]; [| reflexivity].
  match goal with |- config (world_of (render ?x)) = _ =>
    pose proof (kept_render x) as Hk end.
  unfold kept in Hk. simpl in Hk. congruence.
Qed.

Lemma items_updateVirtualizerOptions w :
  items (world_of (updateVirtualizerOptions w)) = items w.
Proof.
  unfold updateVirtualizerOptions.
  destruct (virtualizer w) as [inst |]; [| reflexivity].
  match goal with |- items (world_of (render ?x)) = _ =>
    pose proof (kept_render x) as Hk end.
  unfold kept in Hk. simpl in Hk. congruence.
Qed.

(** ** Capture and render *)

Lemma elem_of_without (m n : Node) (l : list Node) :
  m ∈ without n l <-> m <> n /\ m ∈ l.
Proof. unfold without. rewrite list_elem_of_filter. tauto. Qed.

(** *** Capture *)

Lemma capture_collected (l : list Node) (w : World) (acc : list Node) :
  snd (fold_left capture_node l (w, acc)) = acc ++ List.filter isElementNode l.
Proof.
  revert w acc.
  induction l as [| n l IH]; intros w acc; simpl.
  - rewrite app_nil_r. reflexivity.
  - unfold capture_node at 2. simpl.
    destruct (isElementNode n); rewrite IH; [| reflexivity].
    rewrite <- app_assoc. reflexivity.
Qed.

Lemma capture_children (l : list Node) (w : World) (acc : list Node) (m : Node) :
  m ∈ childNodes (fst (fold_left capture_node l (w, acc))) <->
  m ∈ childNodes w /\ m ∉ l.
Proof.
  revert w acc.
  induction l as [| n l IH]; intros w acc; simpl.
  - rewrite elem_of_nil. tauto.
  - unfold capture_node at 2. simpl.
    rewrite not_elem_of_cons.
    destruct (isElementNode n); rewrite IH; simpl;
      try destruct (hasAttribute w n "role"); simpl;
      rewrite elem_of_without; tauto.
Qed.

Lemma role_after_marking (w : World) (n e : Node) :
  getAttribute
    (if hasAttribute w n "role" then w else setAttribute n "role" "listitem" w)
    e "role" =
  match getAttribute w e "role" with
  | Some r => Some r
  | None => if decide (n = e) then Some "listitem" else None
  end.
Proof.
  unfold hasAttribute.
  destruct (decide (n = e)) as [-> | Hne].
  - destruct (getAttribute w e "role") as [r |] eqn:Hr.
    + rewrite bool_decide_eq_true_2 by eauto. exact Hr.
    + rewrite bool_decide_eq_false_2 by (intros [? ?]; congruence).
      unfold getAttribute, setAttribute. simpl. apply lookup_insert_eq.
  - assert (Hsame : getAttribute
              (if bool_decide (is_Some (getAttribute w n "role")) then w
               else setAttribute n "role" "listitem" w) e "role"
            = getAttribute w e "role").
    { destruct (bool_decide _); [reflexivity |].
      unfold getAttribute, setAttribute. simpl.
      apply lookup_insert_ne. congruence. }
    rewrite Hsame. destruct (getAttribute w e "role"); reflexivity.
Qed.

Lemma capture_role (l : list Node) (w : World) (acc : list Node) (e : Node) :
  getAttribute (fst (fold_left capture_node l (w, acc))) e "role" =
  match getAttribute w e "role" with
  | Some r => Some r
  | None =>
      if bool_decide (e ∈ l) && isElementNode e then Some "listitem" else None
  end.
Proof.
  revert w acc.
  induction l as [| n l IH]; intros w acc.
  - simpl. destruct (getAttribute w e "role"); reflexivity.
  - cbn [fold_left]. unfold capture_node at 2. cbn [fst snd].
    assert (Hmem : forall b : bool,
              n <> e -> bool_decide (e ∈ n :: l) && b = bool_decide (e ∈ l) && b).
    { intros b Hne. f_equal. apply bool_decide_ext.
      rewrite elem_of_cons. split; [intros [-> | ?]; [congruence | assumption] | auto]. }
    destruct (isElementNode n) eqn:Hn; rewrite IH.
    + change (getAttribute (removeChild n ?x) e "role")
        with (getAttribute x e "role").
      rewrite role_after_marking.
      destruct (getAttribute w e "role"); [reflexivity |].
      destruct (decide (n = e)) as [-> | Hne].
      * rewrite Hn, bool_decide_eq_true_2 by (apply elem_of_cons; auto).
        reflexivity.
      * rewrite Hmem by assumption. reflexivity.
    + change (getAttribute (removeChild n w) e "role")
        with (getAttribute w e "role").
      destruct (getAttribute w e "role"); [reflexivity |].
      destruct (decide (n = e)) as [-> | Hne].
      * rewrite Hn, !andb_false_r. reflexivity.
      * rewrite Hmem by assumption. reflexivity.
Qed.

Lemma captureChildren_registry (w : World) :
  items (captureChildren w) = List.filter isElementNode (childNodes w) /\
  childNodes (captureChildren w) = [].
Proof.
  unfold captureChildren. cbv zeta. simpl. split.
  - apply capture_collected.
  - apply elem_of_nil_inv. intros m Hm. apply capture_children in Hm. tauto.
Qed.

(** What [#captureChildren] does to any world: the registry becomes the
    element nodes among the children, in document order; the host keeps no
    child; a node that is not an element is neither in the registry nor a
    child any more; and each captured element has its own role if it had
    one and the role listitem otherwise. *)
Lemma captureChildren_spec (w : World) :
  let w' := captureChildren w in
  items w' = List.filter isElementNode (childNodes w) /\
  childNodes w' = [] /\
  (forall n, n ∈ childNodes w -> isElementNode n = false ->
     (n ∉ items w') /\ (n ∉ childNodes w')) /\
  (forall e, e ∈ childNodes w -> isElementNode e = true ->
     getAttribute w' e "role" =
     Some (default "listitem" (getAttribute w e "role"))).
Proof.
  cbv zeta.
  destruct (captureChildren_registry w) as [Hitems Hnone].
  split; [exact Hitems |]. split; [exact Hnone |]. split.
  - intros n _ Hn. rewrite Hitems, Hnone. split.
    + rewrite list_elem_of_In, filter_In. intros [_ Hel]. congruence.
    + apply not_elem_of_nil.
  - intros e He Hel.
    unfold captureChildren. cbv zeta.
    change (getAttribute (set_items ?x ?y) e "role")
      with (getAttribute y e "role").
    rewrite capture_role.
    destruct (getAttribute w e "role"); [reflexivity |].
    rewrite bool_decide_eq_true_2 by assumption. rewrite Hel. reflexivity.
Qed.

(** *** The loop of a render pass *)

Lemma items_detach n w : items (detach n w) = items w.
Proof. unfold detach. simpl. destruct (shadow w); reflexivity. Qed.

Lemma attributes_detach n w : attributes (detach n w) = attributes w.
Proof. unfold detach. simpl. destruct (shadow w); reflexivity. Qed.

Lemma items_render_entry st v : items (fst (render_entry st v)) = items (fst st).
Proof.
  unfold render_entry.
  destruct (item_at (items (fst st)) (vi_index v)); [| reflexivity].
  simpl. rewrite items_detach. reflexivity.
Qed.

Lemma items_render_loop l st :
  items (fst (fold_left render_entry l st)) = items (fst st).
Proof.
  apply (fold_left_frame (fun st => items (fst st))), items_render_entry.
Qed.

(** An entry whose index has a registry item stamps that item. *)
Lemma render_entry_stamps st v e :
  item_at (items (fst st)) (vi_index v) = Some e ->
  getAttribute (fst (render_entry st v)) e "aria-setsize"
    = Some (pretty (length (items (fst st)))) /\
  getAttribute (fst (render_entry st v)) e "aria-posinset"
    = Some (pretty (vi_index v + 1)%Z) /\
  e ∈ snd (render_entry st v).
Proof.
  intros He. unfold render_entry. rewrite He.
  unfold getAttribute, appendToFragment. simpl.
  rewrite attributes_detach. simpl.
  split; [| split].
  - rewrite lookup_insert_ne by congruence. apply lookup_insert_eq.
  - apply lookup_insert_eq.
  - apply elem_of_app. right. apply list_elem_of_singleton. reflexivity.
Qed.

(** An entry leaves the attributes of every other node alone. *)
Lemma render_entry_other st v e name :
  item_at (items (fst st)) (vi_index v) <> Some e ->
  getAttribute (fst (render_entry st v)) e name = getAttribute (fst st) e name.
Proof.
  intros He. unfold render_entry.
  destruct (item_at (items (fst st)) (vi_index v)) as [item |]; [| reflexivity].
  unfold getAttribute, appendToFragment. simpl.
  rewrite attributes_detach. simpl.
  rewrite !lookup_insert_ne by congruence. reflexivity.
Qed.

Lemma render_entry_keeps_fragment st v e :
  e ∈ snd st -> e ∈ snd (render_entry st v).
Proof.
  intros He. unfold render_entry.
  destruct (item_at (items (fst st)) (vi_index v)) as [item |]; [| exact He].
  simpl. apply elem_of_app.
  destruct (decide (e = item)) as [-> | Hne].
  - right. apply list_elem_of_singleton. reflexivity.
  - left. apply elem_of_without. auto.
Qed.

(** Once stamped, the set size stays and the item stays in the fragment. *)
Lemma render_loop_keeps_setsize l st e :
  getAttribute (fst st) e "aria-setsize"
    = Some (pretty (length (items (fst st)))) ->
  e ∈ snd st ->
  getAttribute (fst (fold_left render_entry l st)) e "aria-setsize"
    = Some (pretty (length (items (fst st)))) /\
  e ∈ snd (fold_left render_entry l st).
Proof.
  revert st.
  induction l as [| v l IH]; intros st Hs Hf; simpl; [auto |].
  rewrite <- (items_render_entry st v).
  apply IH.
  - rewrite items_render_entry.
    destruct (decide (item_at (items (fst st)) (vi_index v) = Some e)) as [He | He].
    + apply render_entry_stamps, He.
    + rewrite render_entry_other by exact He. exact Hs.
  - apply render_entry_keeps_fragment, Hf.
Qed.

(** The position stays as long as no later entry stamps another one. *)
Lemma render_loop_keeps_posinset l st e (i : Z) :
  getAttribute (fst st) e "aria-posinset" = Some (pretty (i + 1)%Z) ->
  (forall v', v' ∈ l -> item_at (items (fst st)) (vi_index v') = Some e ->
     vi_index v' = i) ->
  getAttribute (fst (fold_left render_entry l st)) e "aria-posinset"
    = Some (pretty (i + 1)%Z).
Proof.
  revert st.
  induction l as [| v l IH]; intros st Hs Hlater; simpl; [exact Hs |].
  apply IH.
  - destruct (decide (item_at (items (fst st)) (vi_index v) = Some e)) as [He | He].
    + rewrite <- (Hlater v); [apply render_entry_stamps, He | | exact He].
      apply elem_of_cons. auto.
    + rewrite render_entry_other by exact He. exact Hs.
  - intros v' Hv'. rewrite items_render_entry. apply Hlater.
    apply elem_of_cons. auto.
Qed.


Lemma shadow_render_entry st v sh0 :
  (exists X, shadow (fst st) = Some (set_items_children X sh0)) ->
  exists X, shadow (fst (render_entry st v)) = Some (set_items_children X sh0).
Proof.
  intros [X HX]. unfold render_entry.
  destruct (item_at (items (fst st)) (vi_index v)) as [item |]; [| eauto].
  unfold appendToFragment, detach. simpl. rewrite HX. simpl.
  eexists. reflexivity.
Qed.

Lemma shadow_render_loop l st sh0 :
  (exists X, shadow (fst st) = Some (set_items_children X sh0)) ->
  exists X, shadow (fst (fold_left render_entry l st))
            = Some (set_items_children X sh0).
Proof.
  intros Hst.
  apply (fold_left_invariant
           (fun st => exists X, shadow (fst st) = Some (set_items_children X sh0)));
    [exact Hst |].
  intros st' v. apply shadow_render_entry.
Qed.

(** A render pass as its loop, started from the world with the sizer set. *)
Lemma render_tree_loop inst w sh :
  shadow w = Some sh ->
  let st := fold_left render_entry (getVirtualItems w inst)
              (set_shadow (Some (sized inst w sh)) w, []) in
  attributes (render_tree inst w) = attributes (fst st) /\
  childNodes (render_tree inst w) = childNodes (fst st) /\
  shadow (render_tree inst w) =
    Some (set_items_transform (translation inst w)
            (set_items_children (snd st) (sized inst w sh))).
Proof.
  intros Hsh st.
  unfold render_tree. cbv zeta.
  replace (update_shadow (sized inst w) w)
    with (set_shadow (Some (sized inst w sh)) w)
    by (unfold update_shadow; rewrite Hsh; reflexivity).
  fold st.
  destruct (shadow_render_loop (getVirtualItems w inst)
              (set_shadow (Some (sized inst w sh)) w, []) (sized inst w sh))
    as [X HX].
  { exists (items_children (sized inst w sh)). simpl.
    destruct (sized inst w sh); reflexivity. }
  fold st in HX.
  unfold update_shadow. rewrite HX. simpl. repeat split; reflexivity.
Qed.

Lemma scheduleMeasurement_tree w :
  attributes (world_of (scheduleMeasurement w)) = attributes w /\
  shadow (world_of (scheduleMeasurement w)) = shadow w /\
  childNodes (world_of (scheduleMeasurement w)) = childNodes w.
Proof.
  unfold scheduleMeasurement.
  repeat case_match; repeat split; simpl; congruence.
Qed.

(** C1.  In a render pass over a registry of N items, an entry of the
    visible window whose index has a registry item stamps that item with
    aria-setsize N and aria-posinset index + 1 when the loop reaches it,
    and after the pass the item is among the rendered children with
    aria-setsize N.  Its aria-posinset after the pass is index + 1 when no
    later entry of the window names the same element under another index,
    so whenever the registry holds no element twice; in general it is the
    index + 1 of the last entry of the window that names the element. *)
Theorem render_stamps_aria (w : World) (inst k : nat) (sh : Shadow)
    (v : VirtualItem) (e : Node) :
  virtualizer w = Some inst -> shadow w = Some sh ->
  getVirtualItems w inst !! k = Some v ->
  item_at (items w) (vi_index v) = Some e ->
  let w' := world_of (render w) in
  let N := length (items w) in
  (forall st, items (fst st) = items w ->
     getAttribute (fst (render_entry st v)) e "aria-setsize"
       = Some (pretty N) /\
     getAttribute (fst (render_entry st v)) e "aria-posinset"
       = Some (pretty (vi_index v + 1)%Z)) /\
  getAttribute w' e "aria-setsize" = Some (pretty N) /\
  ((forall k' v', k < k' -> getVirtualItems w inst !! k' = Some v' ->
      item_at (items w) (vi_index v') = Some e ->
      vi_index v' = vi_index v) ->
   getAttribute w' e "aria-posinset" = Some (pretty (vi_index v + 1)%Z)) /\
  (exists sh', shadow w' = Some sh' /\ e ∈ items_children sh') /\
  (NoDup (items w) ->
   getAttribute w' e "aria-posinset" = Some (pretty (vi_index v + 1)%Z)) /\
  (forall k' v', k < k' -> getVirtualItems w inst !! k' = Some v' ->
     item_at (items w) (vi_index v') = Some e ->
     (forall k'' v'', k' < k'' -> getVirtualItems w inst !! k'' = Some v'' ->
        item_at (items w) (vi_index v'') = Some e ->
        vi_index v'' = vi_index v') ->
     getAttribute w' e "aria-posinset" = Some (pretty (vi_index v' + 1)%Z)).
Proof.
  intros Hv Hsh Hk He w' N.
  assert (Hlast : forall j u, getVirtualItems w inst !! j = Some u ->
            item_at (items w) (vi_index u) = Some e ->
            (forall k' v', j < k' -> getVirtualItems w inst !! k' = Some v' ->
               item_at (items w) (vi_index v') = Some e ->
               vi_index v' = vi_index u) ->
            getAttribute w' e "aria-posinset" = Some (pretty (vi_index u + 1)%Z)).
  { intros j u Hj Hu Hlater. subst w'. unfold render. rewrite Hv, Hsh.
    destruct (scheduleMeasurement_tree (render_tree inst w)) as (Ha & _ & _).
    unfold getAttribute. rewrite Ha.
    destruct (render_tree_loop inst w sh Hsh) as (Hattr & _ & _).
    rewrite Hattr. clear Ha Hattr.
    rewrite <- (take_drop_middle _ _ _ Hj), fold_left_app. simpl.
    set (stj := fold_left render_entry (take j (getVirtualItems w inst)) _).
    assert (Hitems : items (fst stj) = items w)
      by (subst stj; rewrite items_render_loop; reflexivity).
    assert (Hej : item_at (items (fst stj)) (vi_index u) = Some e)
      by (rewrite Hitems; exact Hu).
    destruct (render_entry_stamps stj u e Hej) as (_ & Hp & _).
    apply (render_loop_keeps_posinset _ (render_entry stj u) e (vi_index u));
      [exact Hp |].
    intros v' Hv' He'. rewrite items_render_entry, Hitems in He'.
    apply list_elem_of_lookup in Hv' as [i Hi].
    rewrite lookup_drop in Hi.
    apply (Hlater (S j + i) v'); [lia | exact Hi | exact He']. }
  split.
  { intros st Hst. rewrite <- Hst in He.
    destruct (render_entry_stamps st v e He) as (Hs & Hp & _).
    subst N. rewrite <- Hst. auto. }
  split; [| split; [exact (Hlast k v Hk He) | split; [| split]]].
  - subst w'. unfold render. rewrite Hv, Hsh.
    destruct (scheduleMeasurement_tree (render_tree inst w)) as (Ha & _ & _).
    unfold getAttribute. rewrite Ha.
    destruct (render_tree_loop inst w sh Hsh) as (Hattr & _ & _).
    rewrite Hattr. clear Ha Hattr.
    rewrite <- (take_drop_middle _ _ _ Hk), fold_left_app. simpl.
    set (stk := fold_left render_entry (take k (getVirtualItems w inst)) _).
    assert (Hitems : items (fst stk) = items w)
      by (subst stk; rewrite items_render_loop; reflexivity).
    assert (Hek : item_at (items (fst stk)) (vi_index v) = Some e)
      by (rewrite Hitems; exact He).
    destruct (render_entry_stamps stk v e Hek) as (Hs & _ & Hf).
    rewrite Hitems in Hs.
    destruct (render_loop_keeps_setsize (drop (S k) (getVirtualItems w inst))
                (render_entry stk v) e) as [Hs' _].
    { rewrite items_render_entry, Hitems. exact Hs. }
    { exact Hf. }
    rewrite items_render_entry, Hitems in Hs'. exact Hs'.
  - subst w'. unfold render. rewrite Hv, Hsh.
    destruct (scheduleMeasurement_tree (render_tree inst w)) as (_ & Hs & _).
    rewrite Hs.
    destruct (render_tree_loop inst w sh Hsh) as (_ & _ & Hshadow).
    rewrite Hshadow. clear Hs Hshadow.
    eexists. split; [reflexivity |]. simpl.
    rewrite <- (take_drop_middle _ _ _ Hk), fold_left_app. simpl.
    set (stk := fold_left render_entry (take k (getVirtualItems w inst)) _).
    assert (Hitems : items (fst stk) = items w)
      by (subst stk; rewrite items_render_loop; reflexivity).
    assert (Hek : item_at (items (fst stk)) (vi_index v) = Some e)
      by (rewrite Hitems; exact He).
    destruct (render_entry_stamps stk v e Hek) as (Hs & _ & Hf).
    rewrite Hitems in Hs.
    destruct (render_loop_keeps_setsize (drop (S k) (getVirtualItems w inst))
                (render_entry stk v) e) as [_ Hf'].
    { rewrite items_render_entry, Hitems. exact Hs. }
    { exact Hf. }
    exact Hf'.
  - intros Hnd. apply (Hlast k v Hk He).
    intros k' v' _ _ He'.
    unfold item_at in He, He'.
    destruct (vi_index v' <? 0)%Z eqn:Hn'; [discriminate |].
    destruct (vi_index v <? 0)%Z eqn:Hn; [discriminate |].
    apply Z.ltb_ge in Hn, Hn'.
    pose proof (NoDup_lookup _ _ _ _ Hnd He He') as Heq. lia.
  - intros k' v' _ Hk' He' Hlater. exact (Hlast k' v' Hk' He' Hlater).
Qed.

Lemma setOptions_reports inst o w j :
  getTotalSize (setOptions inst o w) j = getTotalSize w j /\
  getVirtualItems (setOptions inst o w) j = getVirtualItems w j.
Proof.
  unfold getTotalSize, getVirtualItems, setOptions. simpl.
  rewrite list_lookup_alter.
  case_decide; subst; destruct (virtualizerInstances w !! j); simpl; auto.
Qed.

Lemma render_shadow (w : World) (inst : nat) (sh : Shadow) :
  virtualizer w = Some inst -> shadow w = Some sh ->
  exists children,
    shadow (world_of (render w)) =
    Some (set_items_transform (translation inst w)
            (set_items_children children (sized inst w sh))).
Proof.
  intros Hv Hsh. unfold render. rewrite Hv, Hsh.
  destruct (scheduleMeasurement_tree (render_tree inst w)) as (_ & Hs & _).
  destruct (render_tree_loop inst w sh Hsh) as (_ & _ & Hshadow).
  rewrite Hs, Hshadow. eexists. reflexivity.
Qed.

(** C8.  A render pass sets the sizer's extent along the active axis to the
    total extent the engine reports and fills the other axis, and translates
    the items container along the active axis by the start of the first
    entry of the visible window, by 0 when the window is empty, the other
    two components being 0.  Switching the orientation attribute from
    vertical to horizontal on a mounted element does so along the new axis
    in the render pass the change triggers. *)
Theorem render_lays_out (w : World) (inst : nat) (sh : Shadow) :
  virtualizer w = Some inst -> shadow w = Some sh ->
  let total := NumberToString (getTotalSize w inst) in
  let first :=
    NumberToString
      match getVirtualItems w inst with
      | [] => Finite 0
      | entry :: _ => vi_start entry
      end in
  (exists sh', shadow (world_of (render w)) = Some sh' /\
     match orientation (config w) with
     | vertical =>
         sizer_height sh' = total +:+ "px" /\ sizer_width sh' = "100%" /\
         items_transform sh' = "translate3d(0, " +:+ first +:+ "px, 0)"
     | horizontal =>
         sizer_width sh' = total +:+ "px" /\ sizer_height sh' = "100%" /\
         items_transform sh' = "translate3d(" +:+ first +:+ "px, 0, 0)"
     end) /\
  (forall oldValue, orientation (config w) = vertical ->
     oldValue <> Some "horizontal" ->
     exists sh',
       shadow (world_of (attributeChangedCallback "orientation" oldValue
                           (Some "horizontal") w)) = Some sh' /\
       sizer_width sh' = total +:+ "px" /\ sizer_height sh' = "100%" /\
       items_transform sh' = "translate3d(" +:+ first +:+ "px, 0, 0)").
Proof.
  intros Hv Hsh total first. split.
  - destruct (render_shadow w inst sh Hv Hsh) as [children ->].
    eexists. split; [reflexivity |].
    unfold sized, translation, firstStart, px. subst total first.
    destruct (orientation (config w)); repeat case_bool_decide;
      try congruence; simpl; auto.
  - intros oldValue Hvert Hold.
    unfold attributeChangedCallback.
    destruct (decide (oldValue = Some "horizontal")) as [Heq | _];
      [congruence |].
    simpl. unfold updateVirtualizerOptions. simpl. rewrite Hv.
    match goal with |- context [render ?x] => set (w4 := x) end.
    destruct (render_shadow w4 inst sh) as [children ->];
      [exact Hv | exact Hsh |].
    eexists. split; [reflexivity |].
    unfold sized, translation, firstStart, px. subst total first.
    destruct (setOptions_reports inst
                (createOptions
                   (_willUpdate inst
                      (update_config (set_orientation horizontal) w)))
                (_willUpdate inst
                   (update_config (set_orientation horizontal) w)) inst)
      as [Ht Hi].
    change (getTotalSize w4 inst = getTotalSize w inst) in Ht.
    change (getVirtualItems w4 inst = getVirtualItems w inst) in Hi.
    rewrite Ht, Hi. subst w4. simpl. auto.
Qed.
(** An entry whose index has no registry item changes nothing. *)
Lemma render_entry_without_item st v :
  item_at (items (fst st)) (vi_index v) = None -> render_entry st v = st.
Proof. intros Hnone. unfold render_entry. rewrite Hnone. reflexivity. Qed.

Lemma render_loop_fragment (l window : list VirtualItem) st
    (registry : list Node) :
  items (fst st) = registry ->
  (forall v, v ∈ l -> v ∈ window) ->
  (forall e, e ∈ snd st ->
     exists v, v ∈ window /\ item_at registry (vi_index v) = Some e) ->
  forall e, e ∈ snd (fold_left render_entry l st) ->
    exists v, v ∈ window /\ item_at registry (vi_index v) = Some e.
Proof.
  revert st.
  induction l as [| v l IH]; intros st Hreg Hsub Hst; simpl; [exact Hst |].
  apply IH.
  - rewrite items_render_entry. exact Hreg.
  - intros v' Hv'. apply Hsub, elem_of_cons. auto.
  - intros e. unfold render_entry.
    destruct (item_at (items (fst st)) (vi_index v)) as [item |] eqn:Hitem;
      [| apply Hst].
    simpl. rewrite elem_of_app, elem_of_without, list_elem_of_singleton.
    intros [[_ He] | ->]; [apply Hst, He |].
    exists v. split; [apply Hsub, elem_of_cons; auto | congruence].
Qed.

(** The children of the items container after a render pass are registry
    items of window entries, and each carries the registry length. *)
Lemma rendered_children_are_stamped (w : World) (inst : nat) (sh sh' : Shadow)
    (e : Node) :
  virtualizer w = Some inst -> shadow w = Some sh ->
  shadow (world_of (render w)) = Some sh' -> e ∈ items_children sh' ->
  (exists v, v ∈ getVirtualItems w inst /\
             item_at (items w) (vi_index v) = Some e) /\
  getAttribute (world_of (render w)) e "aria-setsize"
  = Some (pretty (length (items w))).
Proof.
  intros Hv Hsh Hsh' He.
  assert (Hentry : exists v, v ∈ getVirtualItems w inst /\
                     item_at (items w) (vi_index v) = Some e).
  { unfold render in Hsh'. rewrite Hv, Hsh in Hsh'.
    destruct (scheduleMeasurement_tree (render_tree inst w)) as (_ & Hs & _).
    rewrite Hs in Hsh'.
    destruct (render_tree_loop inst w sh Hsh) as (_ & _ & Hshadow).
    rewrite Hshadow in Hsh'. injection Hsh' as <-. simpl in He.
    revert e He. apply render_loop_fragment; auto.
    simpl. intros e He. apply elem_of_nil in He. contradiction. }
  split; [exact Hentry |].
  destruct Hentry as (v & Hin & Hitem).
  apply list_elem_of_lookup in Hin as [k Hk].
  unfold render. rewrite Hv, Hsh.
  destruct (scheduleMeasurement_tree (render_tree inst w)) as (Ha & _ & _).
  unfold getAttribute. rewrite Ha.
  destruct (render_tree_loop inst w sh Hsh) as (Hattr & _ & _).
  rewrite Hattr.
  rewrite <- (take_drop_middle _ _ _ Hk), fold_left_app. simpl.
  set (stk := fold_left render_entry (take k (getVirtualItems w inst)) _).
  assert (Hitems : items (fst stk) = items w)
    by (subst stk; rewrite items_render_loop; reflexivity).
  assert (Hek : item_at (items (fst stk)) (vi_index v) = Some e)
    by (rewrite Hitems; exact Hitem).
  destruct (render_entry_stamps stk v e Hek) as (Hs & _ & Hf).
  destruct (render_loop_keeps_setsize (drop (S k) (getVirtualItems w inst))
              (render_entry stk v) e) as [Hs' _];
    [rewrite items_render_entry; exact Hs | exact Hf |].
  rewrite items_render_entry, Hitems in Hs'. exact Hs'.
Qed.
(** With a registry that holds no element twice, every entry of the window
    that has a registry item leaves that item with its own position. *)
Lemma render_stamps_distinct_items (w : World) (inst k : nat) (sh : Shadow)
    (v : VirtualItem) (e : Node) :
  NoDup (items w) ->
  virtualizer w = Some inst -> shadow w = Some sh ->
  getVirtualItems w inst !! k = Some v ->
  item_at (items w) (vi_index v) = Some e ->
  getAttribute (world_of (render w)) e "aria-posinset"
  = Some (pretty (vi_index v + 1)%Z).
Proof.
  intros Hnd Hv Hsh Hk He.
  unfold render. rewrite Hv, Hsh.
  destruct (scheduleMeasurement_tree (render_tree inst w)) as (Ha & _ & _).
  unfold getAttribute. rewrite Ha.
  destruct (render_tree_loop inst w sh Hsh) as (Hattr & _ & _).
  rewrite Hattr. clear Ha Hattr.
  rewrite <- (take_drop_middle _ _ _ Hk), fold_left_app. simpl.
  set (stk := fold_left render_entry (take k (getVirtualItems w inst)) _).
  assert (Hitems : items (fst stk) = items w)
    by (subst stk; rewrite items_render_loop; reflexivity).
  assert (Hek : item_at (items (fst stk)) (vi_index v) = Some e)
    by (rewrite Hitems; exact He).
  destruct (render_entry_stamps stk v e Hek) as (_ & Hp & _).
  apply (render_loop_keeps_posinset _ (render_entry stk v) e (vi_index v));
    [exact Hp |].
  intros v' _ He'. rewrite items_render_entry, Hitems in He'.
  unfold item_at in He, He'.
  destruct (vi_index v' <? 0)%Z eqn:Hn'; [discriminate |].
  destruct (vi_index v <? 0)%Z eqn:Hn; [discriminate |].
  apply Z.ltb_ge in Hn, Hn'.
  pose proof (NoDup_lookup _ _ _ _ Hnd He He') as Heq. lia.
Qed.
(** *** First activation *)

Lemma captured_render l w : captured l w -> captured l (world_of (render w)).
Proof.
  unfold captured. intros [Hi Hc].
  pose proof (kept_render w) as Hk. unfold kept in Hk.
  split; [congruence |].
  unfold render.
  destruct (virtualizer w) as [inst |]; [| exact Hc].
  destruct (shadow w) as [sh |] eqn:Hsh; [| exact Hc].
  destruct (scheduleMeasurement_tree (render_tree inst w)) as (_ & _ & ->).
  destruct (render_tree_loop inst w sh Hsh) as (_ & -> & _).
  apply (fold_left_invariant (fun st => childNodes (fst st) = []));
    [exact Hc |].
  intros st v Hst. unfold render_entry.
  destruct (item_at (items (fst st)) (vi_index v)); [| exact Hst].
  unfold appendToFragment, detach. simpl. rewrite Hst.
  destruct (shadow (fst st)); reflexivity.
Qed.

Lemma captured_updateVirtualizerOptions l w :
  captured l w -> captured l (world_of (updateVirtualizerOptions w)).
Proof.
  intros Hw. unfold updateVirtualizerOptions.
  destruct (virtualizer w) as [inst |]; [| exact Hw].
  apply captured_render. exact Hw.
Qed.

Lemma captured_attributeChangedCallback l name oldValue newValue w :
  captured l w ->
  captured l (world_of (attributeChangedCallback name oldValue newValue w)).
Proof.
  intros Hw. unfold attributeChangedCallback.
  destruct (decide (oldValue = newValue)); [exact Hw |].
  apply captured_updateVirtualizerOptions.
  repeat case_match; exact Hw.
Qed.

Lemma captured_mountVirtualizer l w :
  captured l w -> captured l (world_of (mountVirtualizer w)).
Proof.
  intros Hw. unfold mountVirtualizer.
  destruct (shadow w); [| exact Hw].
  destruct (virtualizer w); apply captured_render; exact Hw.
Qed.

(** The first activation leaves the element nodes among the children in
    the registry, in document order, and the host without a child. *)
Lemma first_activation_captures w :
  initialized w = false ->
  captured (List.filter isElementNode (childNodes w))
    (world_of (connectedCallback w)).
Proof.
  intros Hinit. unfold connectedCallback. rewrite Hinit.
  unfold initialize. cbv zeta.
  set (w2 := match hostAttributes (set_initialized true w) !! "role" with
             | Some _ => _ | None => _ end).
  assert (Hw2 : childNodes w2 = childNodes w)
    by (subst w2; destruct (_ !! "role"); reflexivity).
  clearbody w2. rewrite <- Hw2.
  destruct (captureChildren_registry w2) as [Hitems Hnone].
  assert (Hcap : captured (List.filter isElementNode (childNodes w2))
                   (setupShadowDom (captureChildren w2)))
    by (split; assumption).
  assert (Happlied : captured (List.filter isElementNode (childNodes w2))
            (world_of (applyInitialAttributes (setupShadowDom (captureChildren w2))))).
  { unfold applyInitialAttributes.
    apply (for_each_preserves (captured _)); [| exact Hcap].
    intros name w' Hw'. destruct (hostAttributes w' !! name);
      [apply captured_attributeChangedCallback |]; exact Hw'. }
  destruct (applyInitialAttributes _) as [w5 | w5]; simpl in *;
    [| exact Happlied].
  apply captured_mountVirtualizer. exact Happlied.
Qed.

(** ** Configuration *)

(** C9.  An attribute-change notification whose old value is identical to
    its new value does nothing at all: the callback returns the world it was
    given, so no option is pushed, nothing is measured, nothing is rendered
    or scheduled and no field changes, whatever the attribute. *)
Theorem attributeChangedCallback_same_value (name : string)
    (value : option string) (w : World) :
  attributeChangedCallback name value value w = Done w.
Proof.
  unfold attributeChangedCallback.
  destruct (decide (value = value)) as [_ | Hne]; [reflexivity | congruence].
Qed.

Lemma floor_of_negative (q : Q) :
  (q < 0)%Q -> Math_max0 (Math_floor (Finite q)) = Finite 0.
Proof.
  intros Hq. simpl.
  destruct (Qle_bool 0 (inject_Z (Qfloor q))) eqn:Hle; [| reflexivity].
  apply Qle_bool_iff in Hle.
  pose proof (Qfloor_le q) as Hfl.
  exfalso. apply (Qlt_irrefl 0).
  eapply Qle_lt_trans; [exact Hle |].
  eapply Qle_lt_trans; [exact Hfl | exact Hq].
Qed.

(** C6.  Setting a numeric attribute to text that is not a finite number
    leaves the attribute's default in force: 48 for estimate-size, 2 for
    overscan, 0 for each padding.  Setting overscan to a finite negative
    number makes it 0, whatever it was before. *)
Theorem invalid_number_falls_back (name : string) (oldValue : option string)
    (text : string) (w : World) :
  oldValue <> Some text ->
  let c := config (world_of
             (attributeChangedCallback name oldValue (Some text) w)) in
  (Number_isFinite (StringToNumber text) = false ->
     (name = "estimate-size" -> estimateSize c = Finite 48) /\
     (name = "overscan" -> overscan c = Finite 2) /\
     (name = "padding-start" -> paddingStart c = Finite 0) /\
     (name = "padding-end" -> paddingEnd c = Finite 0) /\
     (name = "scroll-padding-start" -> scrollPaddingStart c = Finite 0) /\
     (name = "scroll-padding-end" -> scrollPaddingEnd c = Finite 0)) /\
  (forall q : Q,
     name = "overscan" -> StringToNumber text = Finite q -> (q < 0)%Q ->
     overscan c = Finite 0).
Proof.
  intros Hne c. subst c.
  unfold attributeChangedCallback.
  destruct (decide (oldValue = Some text)) as [Heq | _]; [congruence |].
  rewrite config_updateVirtualizerOptions.
  split.
  - intros Hnf.
    repeat split; intros ->; simpl; rewrite Hnf; reflexivity.
  - intros q -> Hparsed Hq. simpl. rewrite Hparsed. simpl.
    apply floor_of_negative in Hq. simpl in Hq. rewrite Hq. reflexivity.
Qed.

(** A recomputation hands the retained instance the option set of the
    current registry and configuration. *)
Lemma updateVirtualizerOptions_pushes w inst v :
  virtualizer w = Some inst -> virtualizerInstances w !! inst = Some v ->
  options <$> virtualizerInstances (world_of (updateVirtualizerOptions w)) !! inst
  = Some (createOptions w).
Proof.
  intros Hv Hinst. unfold updateVirtualizerOptions. rewrite Hv.
  match goal with |- context [render ?x] =>
    pose proof (kept_render x) as Hk end.
  unfold kept in Hk. injection Hk as _ _ _ _ _ _ _ Hinsts.
  rewrite Hinsts. simpl.
  rewrite list_lookup_alter. case_decide; [| congruence].
  rewrite Hinst. reflexivity.
Qed.

Lemma negative_overscan_reaches_engine name oldValue text q w inst v :
  name = "overscan" -> oldValue <> Some text ->
  StringToNumber text = Finite q -> (q < 0)%Q ->
  virtualizer w = Some inst -> virtualizerInstances w !! inst = Some v ->
  opt_overscan <$>
    (options <$>
       virtualizerInstances
         (world_of (attributeChangedCallback name oldValue (Some text) w)) !! inst)
  = Some (Finite 0).
Proof.
  intros -> Hne Hparsed Hq Hv Hinst.
  unfold attributeChangedCallback.
  destruct (decide (oldValue = Some text)); [congruence |].
  simpl. rewrite Hparsed. simpl.
  rewrite (updateVirtualizerOptions_pushes _ inst v); [| exact Hv | exact Hinst].
  simpl. f_equal.
  apply floor_of_negative in Hq. simpl in Hq. exact Hq.
Qed.
(** ** Scheduling *)

Lemma steady_refl w : steady w w.
Proof. unfold steady. auto. Qed.

Lemma steady_trans w1 w2 w3 : steady w1 w2 -> steady w2 w3 -> steady w1 w3.
Proof.
  unfold steady. intros (Hr1 & Hc1 & H1) (Hr2 & Hc2 & H2).
  split; [congruence |]. split; [congruence |].
  intros Hraf Hok. apply H2; [congruence | auto].
Qed.

Lemma steady_sched w w' : sched w' = sched w -> steady w w'.
Proof.
  unfold sched, steady, scheduled_ok. intros Heq.
  injection Heq as Hh Hr. rewrite Hh, Hr. auto.
Qed.

Lemma steady_and_then w o k :
  steady w (world_of o) ->
  (forall w', steady w' (world_of (k w'))) ->
  steady w (world_of (o >>> k)).
Proof.
  intros Ho Hk. destruct o as [w' | w']; simpl in *; [| exact Ho].
  eapply steady_trans; [exact Ho | apply Hk].
Qed.

Lemma steady_for_each {A : Type} (l : list A) (body : A -> World -> Outcome) w :
  (forall x w', steady w' (world_of (body x w'))) ->
  steady w (world_of (for_each l body w)).
Proof.
  intros Hbody. revert w.
  induction l as [| x l IH]; intros w; simpl; [apply steady_refl |].
  apply steady_and_then; [apply Hbody | exact IH].
Qed.

Lemma sched_update_shadow f w : sched (update_shadow f w) = sched w.
Proof. unfold update_shadow. destruct (shadow w); reflexivity. Qed.

Lemma sched_detach n w : sched (detach n w) = sched w.
Proof. unfold detach. simpl. destruct (shadow w); reflexivity. Qed.

Lemma sched_render_entry st v : sched (fst (render_entry st v)) = sched (fst st).
Proof.
  unfold render_entry.
  destruct (item_at (items (fst st)) (vi_index v)); [| reflexivity].
  simpl. rewrite sched_detach. reflexivity.
Qed.

Lemma sched_render_tree inst w : sched (render_tree inst w) = sched w.
Proof.
  unfold render_tree. cbv zeta.
  rewrite !sched_update_shadow.
  etrans;
    [ apply (fold_left_frame (fun st => sched (fst st))), sched_render_entry
    | apply sched_update_shadow ].
Qed.

Lemma filter_other_handle (h : nat) :
  filter (fun h' => h' <> h) [h] = [].
Proof.
  rewrite filter_cons, filter_nil.
  destruct (decide (h <> h)); [congruence | reflexivity].
Qed.

Lemma steady_scheduleMeasurement w :
  steady w (world_of (scheduleMeasurement w)).
Proof.
  unfold scheduleMeasurement.
  destruct (virtualizer w); [| apply steady_refl].
  destruct (shadow w); [| apply steady_refl].
  destruct (has_requestAnimationFrame (host w)) eqn:Hraf.
  - destruct (rafId w) as [h |] eqn:Hid.
    + destruct (has_cancelAnimationFrame (host w)) eqn:Hcaf;
        [| apply steady_refl].
      unfold steady, scheduled_ok. simpl.
      split; [congruence |]. split; [congruence |].
      intros _ [Hm Hf]. split; [exact Hm |].
      rewrite Hf, Hid. simpl. rewrite filter_other_handle. reflexivity.
    + unfold steady, scheduled_ok. simpl.
      split; [congruence |]. split; [congruence |].
      intros _ [Hm Hf]. split; [exact Hm |].
      rewrite Hf, Hid. reflexivity.
  - unfold steady. simpl.
    split; [congruence |]. split; [congruence |]. congruence.
Qed.

Lemma steady_render w : steady w (world_of (render w)).
Proof.
  unfold render.
  destruct (virtualizer w) as [inst |]; [| apply steady_refl].
  destruct (shadow w); [| apply steady_refl].
  eapply steady_trans; [| apply steady_scheduleMeasurement].
  apply steady_sched, sched_render_tree.
Qed.

Lemma steady_updateVirtualizerOptions w :
  steady w (world_of (updateVirtualizerOptions w)).
Proof.
  unfold updateVirtualizerOptions.
  destruct (virtualizer w) as [inst |]; [| apply steady_refl].
  eapply steady_trans; [| apply steady_render].
  apply steady_sched. reflexivity.
Qed.

Lemma steady_attributeChangedCallback name oldValue newValue w :
  steady w (world_of (attributeChangedCallback name oldValue newValue w)).
Proof.
  unfold attributeChangedCallback.
  destruct (decide (oldValue = newValue)); [apply steady_refl |].
  eapply steady_trans; [| apply steady_updateVirtualizerOptions].
  apply steady_sched.
  repeat case_match; reflexivity.
Qed.

Lemma sched_capture_node st n : sched (fst (capture_node st n)) = sched (fst st).
Proof. unfold capture_node. repeat case_match; reflexivity. Qed.

Lemma sched_captureChildren w : sched (captureChildren w) = sched w.
Proof.
  unfold captureChildren. cbv zeta.
  change (sched (set_items ?x ?y)) with (sched y).
  apply (fold_left_frame (fun st => sched (fst st))), sched_capture_node.
Qed.

Lemma sched_visit_added st n :
  sched (rc_world (visit_added st n)) = sched (rc_world st).
Proof. unfold visit_added. repeat case_match; reflexivity. Qed.

Lemma sched_visit_removed st n :
  sched (rc_world (visit_removed st n)) = sched (rc_world st).
Proof. unfold visit_removed. repeat case_match; reflexivity. Qed.

Lemma sched_visit_mutation st m :
  sched (rc_world (visit_mutation st m)) = sched (rc_world st).
Proof.
  unfold visit_mutation.
  etrans;
    [ apply (fold_left_frame (fun st => sched (rc_world st))), sched_visit_removed
    | apply (fold_left_frame (fun st => sched (rc_world st))), sched_visit_added ].
Qed.

Lemma sched_adopt w e : sched (adopt w e) = sched w.
Proof. unfold adopt. repeat case_match; reflexivity. Qed.

Lemma steady_handleLightDomMutations mutations w :
  steady w (world_of (handleLightDomMutations mutations w)).
Proof.
  unfold handleLightDomMutations. cbv zeta.
  set (st := fold_left visit_mutation mutations (mkReconcile w [] false)).
  assert (Hst : sched (rc_world st) = sched w).
  { subst st.
    apply (fold_left_frame (fun st => sched (rc_world st))), sched_visit_mutation. }
  set (st' := match rc_additions st with [] => st | _ => _ end).
  assert (Hst' : sched (rc_world st') = sched w).
  { subst st'. destruct (rc_additions st) as [| e l]; [exact Hst |].
    cbn [rc_world]. rewrite <- Hst.
    apply (fold_left_frame sched adopt (e :: l)), sched_adopt. }
  destruct (rc_changed st').
  - eapply steady_trans; [| apply steady_updateVirtualizerOptions].
    apply steady_sched, Hst'.
  - apply steady_sched, Hst'.
Qed.

Lemma steady_applyInitialAttributes w :
  steady w (world_of (applyInitialAttributes w)).
Proof.
  unfold applyInitialAttributes.
  eapply steady_trans; [| apply steady_for_each].
  - apply steady_sched. reflexivity.
  - intros name w'. destruct (hostAttributes w' !! name);
      [apply steady_attributeChangedCallback | apply steady_refl].
Qed.

Lemma steady_mountVirtualizer w : steady w (world_of (mountVirtualizer w)).
Proof.
  unfold mountVirtualizer.
  destruct (shadow w); [| apply steady_refl].
  destruct (virtualizer w);
    (eapply steady_trans; [| apply steady_render]);
    apply steady_sched; reflexivity.
Qed.

Lemma steady_initialize w : steady w (world_of (initialize w)).
Proof.
  unfold initialize. cbv zeta.
  apply steady_and_then.
  - eapply steady_trans; [| apply steady_applyInitialAttributes].
    apply steady_sched. unfold setupShadowDom.
    change (sched (set_shadow ?x ?y)) with (sched y).
    rewrite sched_captureChildren.
    destruct (hostAttributes _ !! "role"); reflexivity.
  - intros w'. eapply steady_trans; [| apply steady_mountVirtualizer].
    apply steady_sched. reflexivity.
Qed.

Lemma steady_connectedCallback w : steady w (world_of (connectedCallback w)).
Proof.
  unfold connectedCallback. destruct (initialized w).
  - eapply steady_trans; [| apply steady_mountVirtualizer].
    apply steady_sched. reflexivity.
  - apply steady_initialize.
Qed.

Lemma steady_teardownVirtualizer w : steady w (teardownVirtualizer w).
Proof.
  unfold teardownVirtualizer. cbv zeta.
  set (w1 := match rafId w with Some _ => _ | None => w end).
  assert (H1 : steady w w1).
  { subst w1. destruct (rafId w) as [h |] eqn:Hid; [| apply steady_refl].
    destruct (has_cancelAnimationFrame (host w)) eqn:Hcaf; [| apply steady_refl].
    unfold steady, scheduled_ok. simpl.
    split; [congruence |]. split; [congruence |].
    intros _ [Hm Hf]. split; [exact Hm |].
    rewrite Hf, Hid. simpl. apply filter_other_handle. }
  eapply steady_trans; [exact H1 |].
  apply steady_sched. repeat case_match; reflexivity.
Qed.

Lemma steady_disconnectedCallback w : steady w (disconnectedCallback w).
Proof.
  unfold disconnectedCallback.
  eapply steady_trans; [| apply steady_teardownVirtualizer].
  apply steady_sched. unfold stopObservingLightDom.
  destruct (mutationObserver w); reflexivity.
Qed.

Lemma measure_sched w :
  host (measure w) = host w /\ rafId (measure w) = None.
Proof.
  unfold measure. cbv zeta.
  destruct (virtualizer (set_rafId None w)) as [inst |]; [| auto].
  destruct (shadow (set_rafId None w)) as [sh |]; [| auto].
  apply (fold_left_invariant
           (fun w' => host w' = host w /\ rafId w' = None)); [auto |].
  intros w' child [Hh Hr]. destruct (instanceofHTMLElement child); auto.
Qed.

Lemma steady_runFrame h w : steady w (runFrame h w).
Proof.
  unfold runFrame.
  destruct (bool_decide (h ∈ frames (host w))) eqn:Hin; [| apply steady_refl].
  apply bool_decide_eq_true in Hin.
  match goal with |- steady _ (measure ?x) =>
    destruct (measure_sched x) as [Hh Hr] end.
  unfold steady, scheduled_ok. rewrite Hh, Hr. simpl.
  split; [congruence |]. split; [congruence |].
  intros _ [Hm Hf]. split; [exact Hm |].
  rewrite Hf in Hin |- *.
  destruct (rafId w) as [h' |]; simpl in *.
  - apply list_elem_of_singleton in Hin as ->. apply filter_other_handle.
  - reflexivity.
Qed.

Lemma steady_runMicrotask w : steady w (runMicrotask w).
Proof.
  unfold runMicrotask.
  destruct (microtasks (host w)) as [| n] eqn:Hm; [apply steady_refl |].
  match goal with |- steady _ (measure ?x) =>
    destruct (measure_sched x) as [Hh Hr] end.
  unfold steady, scheduled_ok. rewrite Hh, Hr. simpl.
  split; [congruence |]. split; [congruence |].
  intros _ [Hm' _]. congruence.
Qed.

Lemma steady_setVirtualState inst window total w :
  steady w (world_of (setVirtualState inst window total w)).
Proof.
  unfold setVirtualState.
  destruct (virtualizerInstances w !! inst); [| apply steady_refl].
  unfold onChange. simpl.
  destruct (decide (virtualizer w = Some inst)); [| apply steady_sched; reflexivity].
  eapply steady_trans; [| apply steady_render].
  apply steady_sched. reflexivity.
Qed.

Lemma steady_step w i : steady w (world_of (step w i)).
Proof.
  destruct i; simpl.
  - apply steady_connectedCallback.
  - apply steady_disconnectedCallback.
  - apply steady_attributeChangedCallback.
  - apply steady_handleLightDomMutations.
  - apply steady_setVirtualState.
  - apply steady_runFrame.
  - apply steady_runMicrotask.
  - apply steady_sched. rewrite <- (sched_detach node w). reflexivity.
  - apply steady_sched. reflexivity.
  - apply steady_sched. reflexivity.
Qed.

Lemma Reachable_run (w : World) (inputs : list Input) :
  Reachable w -> Reachable (run w inputs).
Proof.
  revert w. induction inputs as [| i inputs IH]; intros w Hw; simpl.
  - exact Hw.
  - apply IH, Reachable_step, Hw.
Qed.

Lemma reachable_scheduled_ok w :
  Reachable w -> has_requestAnimationFrame (host w) = true -> scheduled_ok w.
Proof.
  induction 1 as [raf caf hostAttrs children attrs | w i Hw IH].
  - intros _. unfold scheduled_ok. simpl. auto.
  - destruct (steady_step w i) as (Hr & _ & Hok).
    intros Hraf. rewrite Hr in Hraf. auto.
Qed.

Lemma pending_scheduled_ok w : scheduled_ok w -> pending w <= 1.
Proof.
  unfold scheduled_ok, pending. intros [-> ->].
  destruct (rafId w); simpl; lia.
Qed.

Lemma calls_render_tree inst w : calls (render_tree inst w) = calls w.
Proof.
  unfold render_tree. cbv zeta.
  assert (Hu : forall f x, calls (update_shadow f x) = calls x)
    by (intros f x; unfold update_shadow; destruct (shadow x); reflexivity).
  rewrite !Hu.
  etrans; [apply (fold_left_frame (fun st => calls (fst st))) | apply Hu].
  intros st v. unfold render_entry.
  destruct (item_at (items (fst st)) (vi_index v)); [| reflexivity].
  unfold appendToFragment, detach. simpl.
  destruct (shadow (fst st)); reflexivity.
Qed.

(** Without [requestAnimationFrame] a render pass queues one more
    microtask and withdraws none. *)
Lemma render_fallback_queues w inst sh :
  has_requestAnimationFrame (host w) = false ->
  virtualizer w = Some inst -> shadow w = Some sh ->
  pending (world_of (render w)) = S (pending w) /\
  calls (world_of (render w)) = calls w ++ [CallQueueMicrotask].
Proof.
  intros Hraf Hv Hsh. unfold render. rewrite Hv, Hsh.
  pose proof (kept_render_tree inst w) as Hk.
  pose proof (sched_render_tree inst w) as Hs.
  destruct (render_tree_loop inst w sh Hsh) as (_ & _ & Hshadow).
  unfold kept in Hk. injection Hk as Hvirt _ _ _ _ _ _ _.
  unfold sched in Hs. injection Hs as Hhost _.
  assert (Hcalls : calls (render_tree inst w) = calls w).
  { unfold render_tree. cbv zeta.
    assert (Hu : forall f x, calls (update_shadow f x) = calls x)
      by (intros f x; unfold update_shadow; destruct (shadow x); reflexivity).
    rewrite !Hu.
    etrans; [apply (fold_left_frame (fun st => calls (fst st))) | apply Hu].
    intros st v. unfold render_entry.
    destruct (item_at (items (fst st)) (vi_index v)); [| reflexivity].
    unfold appendToFragment, detach. simpl.
    destruct (shadow (fst st)); reflexivity. }
  unfold scheduleMeasurement, pending.
  rewrite Hvirt, Hv, Hshadow, Hhost, Hraf. simpl.
  rewrite Hhost, Hcalls. split; [lia | reflexivity].
Qed.

(** C4.  Where the host has [requestAnimationFrame], at most one
    measurement callback is pending in every world the element can reach,
    and after a render pass from there: the queued frames are exactly the
    retained handle and no microtask is queued.  Scheduling while a frame
    is retained cancels that frame and then requests the new one where the
    host has [cancelAnimationFrame] too; where it has not, the call throws
    before anything is cancelled or requested, and the retained frame stays
    the one that is pending.  Where the host has no
    [requestAnimationFrame], a render pass queues one more microtask and
    withdraws none. *)
Theorem measurement_scheduling (w : World) :
  Reachable w ->
  (has_requestAnimationFrame (host w) = true ->
   pending w <= 1 /\
   pending (world_of (render w)) <= 1 /\
   frames (host w) = option_list (rafId w) /\
   (forall h inst sh,
      rafId w = Some h -> has_cancelAnimationFrame (host w) = true ->
      virtualizer w = Some inst -> shadow w = Some sh ->
      exists w', scheduleMeasurement w = Done w' /\
        calls w' = calls w ++ [CallCancelAnimationFrame h;
                               CallRequestAnimationFrame (next_handle (host w))] /\
        frames (host w') = [next_handle (host w)] /\
        rafId w' = Some (next_handle (host w))) /\
   (forall h inst sh,
      rafId w = Some h -> has_cancelAnimationFrame (host w) = false ->
      virtualizer w = Some inst -> shadow w = Some sh ->
      scheduleMeasurement w = Thrown w /\
      frames (host w) = [h] /\
      pending (world_of (render w)) = 1 /\
      rafId (world_of (render w)) = Some h /\
      calls (world_of (render w)) = calls w)) /\
  (has_requestAnimationFrame (host w) = false ->
   forall inst sh, virtualizer w = Some inst -> shadow w = Some sh ->
     pending (world_of (render w)) = S (pending w) /\
     calls (world_of (render w)) = calls w ++ [CallQueueMicrotask]).
Proof.
  intros Hreach. split.
  - intros Hraf.
    pose proof (reachable_scheduled_ok w Hreach Hraf) as Hok.
    split; [apply pending_scheduled_ok, Hok |].
    split.
    { apply pending_scheduled_ok.
      destruct (steady_render w) as (_ & _ & Hkeep). auto. }
    split; [apply Hok |].
    split.
    + intros h inst sh Hid Hcaf Hv Hsh.
      unfold scheduleMeasurement. rewrite Hv, Hsh, Hraf, Hid, Hcaf.
      eexists. split; [reflexivity |]. simpl.
      destruct Hok as [_ Hf]. rewrite Hf, Hid. simpl.
      rewrite filter_other_handle, <- app_assoc. auto.
    + intros h inst sh Hid Hcaf Hv Hsh.
      assert (Hthrown : forall x sh', sched x = sched w ->
                virtualizer x = Some inst -> shadow x = Some sh' ->
                scheduleMeasurement x = Thrown x).
      { intros x sh' Hx Hvx Hsx. unfold sched in Hx. injection Hx as Hh Hr.
        unfold scheduleMeasurement. rewrite Hvx, Hsx, Hh, Hr, Hraf, Hid, Hcaf.
        reflexivity. }
      split; [apply (Hthrown w sh); [reflexivity | exact Hv | exact Hsh] |].
      destruct Hok as [Hm Hf].
      split; [rewrite Hf, Hid; reflexivity |].
      destruct (render_tree_loop inst w sh Hsh) as (_ & _ & Hshadow).
      assert (Hkv : virtualizer (render_tree inst w) = Some inst).
      { pose proof (kept_render_tree inst w) as Hk. unfold kept in Hk.
        injection Hk as Hkv _ _ _ _ _ _ _. congruence. }
      unfold render. rewrite Hv, Hsh.
      rewrite (Hthrown (render_tree inst w) _ (sched_render_tree inst w)
                 Hkv Hshadow).
      cbn [world_of].
      pose proof (sched_render_tree inst w) as Hs. unfold sched in Hs.
      injection Hs as Hh Hr.
      unfold pending. rewrite Hh, Hr, Hf, Hm, Hid, calls_render_tree. auto.
  - intros Hraf inst sh Hv Hsh.
    apply (render_fallback_queues w inst sh); assumption.
Qed.

(** *** Teardown *)

Lemma teardownVirtualizer_idempotent w :
  teardownVirtualizer (teardownVirtualizer w) = teardownVirtualizer w.
Proof.
  destruct w as [v c its sh ini mo cfg [h |] ha cn att vi [raf [|] fr nh mi] cl];
    destruct c, v; reflexivity.
Qed.

Lemma disconnectedCallback_idempotent w :
  disconnectedCallback (disconnectedCallback w) = disconnectedCallback w.
Proof.
  destruct w as [v c its sh ini [mo |] cfg [h |] ha cn att vi [raf [|] fr nh mi] cl];
    destruct c, v; reflexivity.
Qed.

Lemma disconnectedCallback_forgets w :
  virtualizer (disconnectedCallback w) = None /\
  virtualizerCleanup (disconnectedCallback w) = None.
Proof.
  destruct w as [v c its sh ini [mo |] cfg [h |] ha cn att vi [raf [|] fr nh mi] cl];
    destruct c, v; split; reflexivity.
Qed.

Lemma disconnectedCallback_pending w :
  scheduled_ok w -> has_cancelAnimationFrame (host w) = true ->
  pending (disconnectedCallback w) = 0 /\
  rafId (disconnectedCallback w) = None.
Proof.
  unfold scheduled_ok, pending.
  destruct w as [v c its sh ini [mo |] cfg [h |] ha cn att vi [raf caf fr nh mi] cl];
    simpl; intros [-> ->] ->; destruct c, v; simpl;
    rewrite ?filter_other_handle; auto.
Qed.

Lemma teardownVirtualizer_calls w :
  List.filter isCleanup (calls (teardownVirtualizer w)) =
  List.filter isCleanup (calls w) ++
  match virtualizerCleanup w with
  | Some inst => [CallCleanup inst]
  | None => []
  end.
Proof.
  destruct w as [v c its sh ini mo cfg [h |] ha cn att vi [raf [|] fr nh mi] cl];
    destruct c, v; simpl;
    rewrite ?List.filter_app; simpl; rewrite ?app_nil_r; reflexivity.
Qed.

Lemma measure_loop_calls inst (l : list Node) (w : World) :
  calls (fold_left
           (fun w' child =>
              if instanceofHTMLElement child
              then measureElement inst child w' else w') l w)
  = calls w ++ map (CallMeasureElement inst)
                 (List.filter instanceofHTMLElement l).
Proof.
  revert w. induction l as [| child l IH]; intros w; simpl.
  - rewrite app_nil_r. reflexivity.
  - rewrite IH. destruct (instanceofHTMLElement child); simpl;
      [rewrite <- app_assoc |]; reflexivity.
Qed.

Lemma runMicrotask_after_disconnect w :
  calls (runMicrotask (disconnectedCallback w)) = calls (disconnectedCallback w).
Proof.
  unfold runMicrotask.
  destruct (microtasks (host (disconnectedCallback w))); [reflexivity |].
  unfold measure. cbv zeta.
  change (virtualizer (set_rafId None (set_host ?h ?x))) with (virtualizer x).
  destruct (disconnectedCallback_forgets w) as [-> _]. reflexivity.
Qed.

(** C7.  Deactivation invokes the retained teardown handle exactly once and
    forgets handle and instance; a second deactivation right after changes
    nothing, so it invokes nothing and cannot throw.  Where the host has
    [requestAnimationFrame] and [cancelAnimationFrame], no measurement
    callback is pending afterwards.  A measurement that the fallback queued
    as a microtask stays queued.  When it runs, whatever happened in
    between, it measures nothing if the element retains no instance then,
    as right after the deactivation; if the element has been activated
    again, it measures the children of the items container with the
    instance retained then. *)
Theorem teardown_once_then_noop (w : World) :
  Reachable w ->
  let w1 := disconnectedCallback w in
  (has_requestAnimationFrame (host w) = true ->
   has_cancelAnimationFrame (host w) = true ->
   pending w1 = 0 /\ rafId w1 = None) /\
  List.filter isCleanup (calls w1) =
    List.filter isCleanup (calls w) ++
    match virtualizerCleanup w with
    | Some inst => [CallCleanup inst]
    | None => []
    end /\
  virtualizer w1 = None /\ virtualizerCleanup w1 = None /\
  disconnectedCallback w1 = w1 /\
  microtasks (host w1) = microtasks (host w) /\
  calls (runMicrotask w1) = calls w1 /\
  (forall inputs,
     let w2 := run w1 inputs in
     (virtualizer w2 = None -> calls (runMicrotask w2) = calls w2) /\
     (forall inst sh n,
        virtualizer w2 = Some inst -> shadow w2 = Some sh ->
        microtasks (host w2) = S n ->
        calls (runMicrotask w2)
        = calls w2 ++ map (CallMeasureElement inst)
                        (List.filter instanceofHTMLElement (items_children sh)))).
Proof.
  intros Hreach w1. subst w1.
  split; [| split; [| split; [| split; [| split; [| split; [| split]]]]]].
  - intros Hraf Hcaf.
    apply disconnectedCallback_pending;
      [apply reachable_scheduled_ok; assumption | exact Hcaf].
  - unfold disconnectedCallback.
    rewrite teardownVirtualizer_calls.
    unfold stopObservingLightDom. destruct (mutationObserver w); reflexivity.
  - apply disconnectedCallback_forgets.
  - apply disconnectedCallback_forgets.
  - apply disconnectedCallback_idempotent.
  - destruct w as [v c its sh ini [mo |] cfg [h |] ha cn att vi [raf [|] fr nh mi] cl];
      destruct c, v; reflexivity.
  - apply runMicrotask_after_disconnect.
  - intros inputs. cbv zeta.
    generalize (run (disconnectedCallback w) inputs). intros w2. split.
    + intros Hnone. unfold runMicrotask.
      destruct (microtasks (host w2)); [reflexivity |].
      unfold measure. cbv zeta.
      change (virtualizer (set_rafId None (set_host ?h ?x)))
        with (virtualizer x).
      rewrite Hnone. reflexivity.
    + intros inst sh n Hv Hsh Hmicro. unfold runMicrotask. rewrite Hmicro.
      unfold measure. cbv zeta.
      change (virtualizer (set_rafId None (set_host ?h ?x)))
        with (virtualizer x).
      change (shadow (set_rafId None (set_host ?h ?x))) with (shadow x).
      rewrite Hv, Hsh.
      etrans; [apply measure_loop_calls | reflexivity].
Qed.

(** ** Reconciliation *)

Lemma additions_visit_added l st :
  rc_additions (fold_left visit_added l st)
  = rc_additions st ++ List.filter isElementNode l.
Proof.
  revert st. induction l as [| n l IH]; intros st; simpl.
  - rewrite app_nil_r. reflexivity.
  - rewrite IH. unfold visit_added.
    destruct (isElementNode n); simpl.
    + rewrite <- app_assoc. reflexivity.
    + destruct (parentIsHost (rc_world st) n); reflexivity.
Qed.

Lemma additions_visit_removed l st :
  rc_additions (fold_left visit_removed l st) = rc_additions st.
Proof.
  apply (fold_left_frame rc_additions). intros st' n.
  unfold visit_removed. repeat case_match; reflexivity.
Qed.

Lemma additions_visit_mutations batch st :
  rc_additions (fold_left visit_mutation batch st)
  = rc_additions st ++ List.filter isElementNode (flat_map addedNodes batch).
Proof.
  revert st. induction batch as [| m batch IH]; intros st; simpl.
  - rewrite app_nil_r. reflexivity.
  - rewrite IH. unfold visit_mutation.
    rewrite additions_visit_removed, additions_visit_added.
    rewrite List.filter_app, <- app_assoc. reflexivity.
Qed.

Lemma items_adopt l w : items (fold_left adopt l w) = items w ++ l.
Proof.
  revert w. induction l as [| e l IH]; intros w; simpl.
  - rewrite app_nil_r. reflexivity.
  - rewrite IH. unfold adopt. cbv zeta. simpl.
    rewrite <- app_assoc. simpl.
    repeat case_match; reflexivity.
Qed.

(** After a batch the registry ends with the elements the batch added, in
    the order the records list them. *)
Lemma handleLightDomMutations_appends batch w :
  exists before,
    items (world_of (handleLightDomMutations batch w))
    = before ++ List.filter isElementNode (flat_map addedNodes batch).
Proof.
  unfold handleLightDomMutations. cbv zeta.
  set (st := fold_left visit_mutation batch (mkReconcile w [] false)).
  assert (Hadd : rc_additions st
                 = List.filter isElementNode (flat_map addedNodes batch))
    by (subst st; rewrite additions_visit_mutations; reflexivity).
  rewrite <- Hadd.
  exists (items (rc_world st)).
  destruct (rc_additions st) as [| e l] eqn:Hl.
  - rewrite app_nil_r.
    destruct (rc_changed st); [apply items_updateVirtualizerOptions | reflexivity].
  - cbn [rc_changed rc_world]. rewrite items_updateVirtualizerOptions.
    apply (items_adopt (e :: l)).
Qed.

(** C2.  An element among the added nodes of a batch is in the registry
    after the batch, also when the same batch lists it among the removed
    nodes: additions are applied after every record has been visited, so a
    removal never meets an element the same batch added. *)
Theorem added_element_stays_registered (batch : list MutationRecord)
    (w : World) (e : Node) (added removed : MutationRecord) :
  isElementNode e = true ->
  added ∈ batch -> e ∈ addedNodes added ->
  removed ∈ batch -> e ∈ removedNodes removed ->
  e ∈ items (world_of (handleLightDomMutations batch w)).
Proof.
  intros He Ha Hea _ _.
  destruct (handleLightDomMutations_appends batch w) as [before ->].
  apply elem_of_app. right.
  apply list_elem_of_In, filter_In. split; [| exact He].
  apply in_flat_map. exists added.
  split; apply list_elem_of_In; assumption.
Qed.

(** ** Instances *)

Lemma mounted_ok_core w w' : core w' = core w -> mounted_ok w -> mounted_ok w'.
Proof.
  unfold core, mounted_ok. intros Heq Hok inst Hv.
  injection Heq as Hvirt Hinit Hlen Hsh.
  rewrite Hinit, Hlen, Hsh. apply Hok. congruence.
Qed.

Lemma core_update_shadow f w : core (update_shadow f w) = core w.
Proof.
  unfold update_shadow, core, has_shadow.
  destruct (shadow w) eqn:Hsh; simpl; rewrite ?Hsh; reflexivity.
Qed.

Lemma core_detach n w : core (detach n w) = core w.
Proof.
  unfold detach, core, has_shadow. simpl.
  destruct (shadow w) eqn:Hsh; simpl; rewrite ?Hsh; reflexivity.
Qed.

Lemma core_render_entry st v : core (fst (render_entry st v)) = core (fst st).
Proof.
  unfold render_entry.
  destruct (item_at (items (fst st)) (vi_index v)); [| reflexivity].
  simpl. rewrite core_detach. reflexivity.
Qed.

Lemma core_render_tree inst w : core (render_tree inst w) = core w.
Proof.
  unfold render_tree. cbv zeta.
  rewrite !core_update_shadow.
  etrans;
    [ apply (fold_left_frame (fun st => core (fst st))), core_render_entry
    | apply core_update_shadow ].
Qed.

Lemma core_scheduleMeasurement w :
  core (world_of (scheduleMeasurement w)) = core w.
Proof.
  unfold scheduleMeasurement.
  destruct (virtualizer w); [| reflexivity].
  destruct (shadow w); [| reflexivity].
  destruct (has_requestAnimationFrame (host w)); [| reflexivity].
  destruct (rafId w); [| reflexivity].
  destruct (has_cancelAnimationFrame (host w)); reflexivity.
Qed.

Lemma core_render w : core (world_of (render w)) = core w.
Proof.
  unfold render.
  destruct (virtualizer w) as [inst |]; [| reflexivity].
  destruct (shadow w); [| reflexivity].
  rewrite core_scheduleMeasurement. apply core_render_tree.
Qed.

Lemma core_setOptions inst o w : core (setOptions inst o w) = core w.
Proof. unfold core, setOptions, has_shadow. simpl. rewrite length_alter. reflexivity. Qed.

Lemma core_updateVirtualizerOptions w :
  core (world_of (updateVirtualizerOptions w)) = core w.
Proof.
  unfold updateVirtualizerOptions.
  destruct (virtualizer w) as [inst |]; [| reflexivity].
  rewrite core_render.
  change (core (engine_measure inst ?x)) with (core x).
  rewrite core_setOptions. reflexivity.
Qed.

Lemma core_attributeChangedCallback name oldValue newValue w :
  core (world_of (attributeChangedCallback name oldValue newValue w)) = core w.
Proof.
  unfold attributeChangedCallback.
  destruct (decide (oldValue = newValue)); [reflexivity |].
  rewrite core_updateVirtualizerOptions.
  repeat case_match; reflexivity.
Qed.

Lemma core_handleLightDomMutations batch w :
  core (world_of (handleLightDomMutations batch w)) = core w.
Proof.
  unfold handleLightDomMutations. cbv zeta.
  set (st := fold_left visit_mutation batch (mkReconcile w [] false)).
  assert (Hst : core (rc_world st) = core w).
  { subst st.
    apply (fold_left_frame (fun st => core (rc_world st))).
    intros st' m. unfold visit_mutation.
    etrans; [apply (fold_left_frame (fun st => core (rc_world st))) |
             apply (fold_left_frame (fun st => core (rc_world st)))].
    - intros s n. unfold visit_removed. repeat case_match; reflexivity.
    - intros s n. unfold visit_added. repeat case_match; reflexivity. }
  set (st' := match rc_additions st with [] => st | _ => _ end).
  assert (Hst' : core (rc_world st') = core w).
  { subst st'. destruct (rc_additions st) as [| e l]; [exact Hst |].
    cbn [rc_world]. rewrite <- Hst.
    apply (fold_left_frame core adopt (e :: l)).
    intros w' x. unfold adopt. repeat case_match; reflexivity. }
  destruct (rc_changed st'); [rewrite core_updateVirtualizerOptions |]; exact Hst'.
Qed.

Lemma core_captureChildren w : core (captureChildren w) = core w.
Proof.
  unfold captureChildren. cbv zeta.
  change (core (set_items ?x ?y)) with (core y).
  apply (fold_left_frame (fun st => core (fst st))).
  intros st n. unfold capture_node. repeat case_match; reflexivity.
Qed.

Lemma core_measure w : core (measure w) = core w.
Proof.
  unfold measure. cbv zeta.
  destruct (virtualizer (set_rafId None w)) as [inst |]; [| reflexivity].
  destruct (shadow (set_rafId None w)) as [sh |]; [| reflexivity].
  etrans; [apply (fold_left_frame core) | reflexivity].
  intros w' child. destruct (instanceofHTMLElement child); reflexivity.
Qed.

Lemma core_setVirtualState inst window total w :
  core (world_of (setVirtualState inst window total w)) = core w.
Proof.
  unfold setVirtualState.
  destruct (virtualizerInstances w !! inst); [| reflexivity].
  unfold onChange. simpl.
  match goal with |- core (world_of (if _ then render ?x else _)) = _ =>
    assert (Hx : core x = core w)
      by (unfold core, has_shadow; simpl; rewrite length_alter; reflexivity)
  end.
  destruct (decide (virtualizer w = Some inst)); [rewrite core_render |]; exact Hx.
Qed.

Lemma mounted_ok_mountVirtualizer w :
  initialized w = true -> mounted_ok w ->
  mounted_ok (world_of (mountVirtualizer w)).
Proof.
  intros Hinit Hok. unfold mountVirtualizer.
  destruct (shadow w) as [sh |] eqn:Hsh; [| exact Hok].
  destruct (virtualizer w) as [inst |] eqn:Hv.
  - eapply mounted_ok_core; [| exact Hok].
    rewrite core_render.
    change (core (engine_measure inst ?x)) with (core x).
    rewrite core_setOptions. reflexivity.
  - eapply mounted_ok_core; [apply core_render |].
    unfold mounted_ok, has_shadow. simpl. rewrite Hsh.
    intros inst [= <-]. rewrite length_app. simpl. split; [lia | auto].
Qed.

Lemma core_applyInitialAttributes w :
  core (world_of (applyInitialAttributes w)) = core w.
Proof.
  unfold applyInitialAttributes.
  match goal with |- core (world_of (for_each _ ?body ?x)) = _ =>
    change (core w) with (core x); generalize x; intros y;
    set (b := body) end.
  assert (Hb : forall name w', core (world_of (b name w')) = core w').
  { intros name w'. subst b. simpl.
    destruct (hostAttributes w' !! name);
      [apply core_attributeChangedCallback | reflexivity]. }
  clearbody b. revert y.
  induction NUMBER_ATTRIBUTES as [| name l IH]; intros y; simpl; [reflexivity |].
  pose proof (Hb name y) as Hy.
  destruct (b name y) as [y' | y']; simpl in *; [| exact Hy].
  rewrite IH. exact Hy.
Qed.

Lemma mounted_ok_step w i : mounted_ok w -> mounted_ok (world_of (step w i)).
Proof.
  intros Hok. destruct i; simpl.
  - unfold connectedCallback.
    destruct (initialized w) eqn:Hinit.
    + apply mounted_ok_mountVirtualizer; [exact Hinit |].
      eapply mounted_ok_core; [| exact Hok]. reflexivity.
    + unfold initialize. cbv zeta.
      assert (Hnone : virtualizer w = None).
      { destruct (virtualizer w) as [inst |] eqn:Hv; [| reflexivity].
        destruct (Hok inst Hv) as (_ & _ & Hi). congruence. }
      set (w2 := match hostAttributes (set_initialized true w) !! "role" with
                 | Some _ => _ | None => _ end).
      assert (Hw2 : virtualizer w2 = None /\ initialized w2 = true)
        by (subst w2; destruct (_ !! "role"); auto).
      clearbody w2. destruct Hw2 as [Hv2 Hi2].
      pose proof (core_captureChildren w2) as Hc.
      pose proof (core_applyInitialAttributes (setupShadowDom (captureChildren w2)))
        as Hcore.
      unfold core in Hc, Hcore.
      injection Hc as Hcv Hci _ _. injection Hcore as Hav Hai _ _.
      change (virtualizer (setupShadowDom ?x)) with (virtualizer x) in Hav.
      change (initialized (setupShadowDom ?x)) with (initialized x) in Hai.
      destruct (applyInitialAttributes _) as [w5 | w5]; simpl in *.
      * apply mounted_ok_mountVirtualizer; [simpl; congruence |].
        intros inst Hinst. simpl in Hinst. congruence.
      * intros inst Hinst. congruence.
  - intros inst Hv.
    pose proof (disconnectedCallback_forgets w) as [Hnone _]. congruence.
  - eapply mounted_ok_core; [apply core_attributeChangedCallback | exact Hok].
  - eapply mounted_ok_core; [apply core_handleLightDomMutations | exact Hok].
  - eapply mounted_ok_core; [apply core_setVirtualState | exact Hok].
  - unfold runFrame. destruct (bool_decide _); [| exact Hok].
    eapply mounted_ok_core; [apply core_measure |].
    eapply mounted_ok_core; [| exact Hok]. reflexivity.
  - unfold runMicrotask. destruct (microtasks (host w)); [exact Hok |].
    eapply mounted_ok_core; [apply core_measure |].
    eapply mounted_ok_core; [| exact Hok]. reflexivity.
  - eapply mounted_ok_core; [| exact Hok].
    change (core (set_childNodes ?x ?y)) with (core y). apply core_detach.
  - eapply mounted_ok_core; [| exact Hok]. reflexivity.
  - eapply mounted_ok_core; [| exact Hok]. reflexivity.
Qed.

Lemma reachable_mounted_ok w : Reachable w -> mounted_ok w.
Proof.
  induction 1 as [raf caf hostAttrs children attrs | w i Hw IH].
  - intros inst Hv. discriminate Hv.
  - apply mounted_ok_step, IH.
Qed.

(** In a world the element can reach, a notification from the retained
    instance runs a whole render pass. *)
Lemma onChange_current_renders w inst :
  Reachable w -> virtualizer w = Some inst ->
  onChange inst w = scheduleMeasurement (render_tree inst w).
Proof.
  intros Hreach Hv.
  destruct (reachable_mounted_ok w Hreach inst Hv) as (_ & Hsh & _).
  unfold onChange, render. rewrite Hv.
  destruct (decide (Some inst = Some inst)); [| congruence].
  unfold has_shadow in Hsh. destruct (shadow w); [reflexivity | discriminate].
Qed.

(** After deactivation no instance is current: every notification is
    dropped. *)
Lemma onChange_after_disconnect w inst :
  onChange inst (disconnectedCallback w) = Done (disconnectedCallback w).
Proof.
  unfold onChange.
  destruct (disconnectedCallback_forgets w) as [-> _].
  destruct (decide (None = Some inst)); [discriminate | reflexivity].
Qed.

Lemma mountVirtualizer_fresh w :
  virtualizer w = None -> has_shadow w = true ->
  virtualizer (world_of (mountVirtualizer w))
  = Some (length (virtualizerInstances w)).
Proof.
  intros Hv Hsh. unfold mountVirtualizer, has_shadow in *.
  destruct (shadow w); [| discriminate]. rewrite Hv. cbv zeta.
  match goal with |- virtualizer (world_of (render ?x)) = _ =>
    pose proof (core_render x) as Hcore end.
  unfold core in Hcore. injection Hcore as Hvirt _ _ _. exact Hvirt.
Qed.

(** After deactivation and a new activation the retained instance is a new
    one, so a notification from the instance retained before is dropped. *)
Lemma onChange_stale_after_reconnect w old :
  Reachable w -> virtualizer w = Some old ->
  let w' := world_of (connectedCallback (disconnectedCallback w)) in
  virtualizer w' = Some (length (virtualizerInstances w)) /\
  onChange old w' = Done w'.
Proof.
  intros Hreach Hv w'.
  destruct (reachable_mounted_ok w Hreach old Hv) as (Hlt & Hsh & Hinit).
  assert (Hnew : virtualizer w' = Some (length (virtualizerInstances w))).
  { subst w'. unfold connectedCallback.
    replace (initialized (disconnectedCallback w)) with true
      by (rewrite <- Hinit; unfold disconnectedCallback, teardownVirtualizer,
            stopObservingLightDom; repeat case_match; reflexivity).
    rewrite mountVirtualizer_fresh.
    - f_equal. unfold disconnectedCallback, teardownVirtualizer,
        stopObservingLightDom. repeat case_match; reflexivity.
    - change (virtualizer (startObservingLightDom ?x)) with (virtualizer x).
      apply disconnectedCallback_forgets.
    - rewrite <- Hsh. unfold has_shadow, disconnectedCallback,
        teardownVirtualizer, stopObservingLightDom.
      repeat case_match; simpl in *; congruence. }
  split; [exact Hnew |].
  unfold onChange. rewrite Hnew.
  destruct (decide (Some (length (virtualizerInstances w)) = Some old)) as [Heq | _];
    [| reflexivity].
  injection Heq as Heq. lia.
Qed.

(** ** The change notification *)

(** C10.  A change notification from an instance other than the one the
    element retains returns the world unchanged (no render pass; render tree
    and fields as they were), and a notification from the retained instance
    is exactly a call of [#render]. *)
Theorem onChange_only_current_instance (instance : nat) (w : World) :
  virtualizer w <> Some instance ->
  onChange instance w = Done w /\
  (forall current, virtualizer w = Some current ->
     onChange current w = render w).
Proof.
  intros Hstale. unfold onChange. split.
  - destruct (decide (virtualizer w = Some instance)); congruence.
  - intros current Hcur.
    destruct (decide (virtualizer w = Some current)); congruence.
Qed.

(** ** Keys *)

(** C3.  For a logical index that has a registry item the key is the
    item's [id] property, a string: the value of the [id] attribute when
    the item has one, and the empty string, not the index, when it has
    none.  The index is the key only where the registry has no item. *)
Theorem getItemKey_is_id_property (w : World) (index : Z) (item : Node) :
  item_at (items w) index = Some item ->
  getItemKey w index = KeyString (element_id w item) /\
  (forall id, getAttribute w item "id" = Some id ->
     getItemKey w index = KeyString id) /\
  (getAttribute w item "id" = None -> getItemKey w index = KeyString "").
Proof.
  intros Hitem. unfold getItemKey, element_id. rewrite Hitem.
  split; [reflexivity |].
  split; [intros id -> | intros ->]; reflexivity.
Qed.

Lemma getItemKey_without_item (w : World) (index : Z) :
  item_at (items w) index = None -> getItemKey w index = KeyNumber index.
Proof. intros Hnone. unfold getItemKey. rewrite Hnone. reflexivity. Qed.

End Properties.

(** * Further properties *)

Section Further.

Context `{Conversions}.

(** ** The measurement callback *)

Lemma kept_measure w : kept (measure w) = kept w.
Proof.
  unfold measure. cbv zeta.
  destruct (virtualizer (set_rafId None w)) as [inst |]; [| reflexivity].
  destruct (shadow (set_rafId None w)) as [sh |]; [| reflexivity].
  etrans; [apply (fold_left_frame kept) | reflexivity].
  intros w' child. destruct (instanceofHTMLElement child); reflexivity.
Qed.

(** X1.  When the measurement callback runs while an instance is retained,
    it asks that instance to measure the children of the items container
    that are HTML elements, each once and in document order, and the
    element no longer holds a frame handle; nothing else of the element
    changes. *)
Theorem measure_measures_children (w : World) (inst : nat) (sh : Shadow) :
  virtualizer w = Some inst -> shadow w = Some sh ->
  calls (measure w)
  = calls w ++ map (CallMeasureElement inst)
                 (List.filter instanceofHTMLElement (items_children sh)) /\
  rafId (measure w) = None /\
  host (measure w) = host w /\
  kept (measure w) = kept w /\
  shadow (measure w) = shadow w /\
  attributes (measure w) = attributes w /\
  childNodes (measure w) = childNodes w.
Proof.
  intros Hv Hsh.
  split; [| split; [| split; [| split; [apply kept_measure |]]]];
    try (destruct (measure_sched w) as [Hh Hr]; assumption);
    unfold measure; cbv zeta;
    change (virtualizer (set_rafId None w)) with (virtualizer w);
    change (shadow (set_rafId None w)) with (shadow w);
    rewrite Hv, Hsh.
  - etrans; [apply measure_loop_calls | reflexivity].
  - repeat match goal with |- _ /\ _ => split end;
      match goal with |- ?proj (fold_left _ _ _) = _ =>
        etrans; [apply (fold_left_frame proj) | try reflexivity; exact Hsh] end;
      intros w' child; destruct (instanceofHTMLElement child); reflexivity.
Qed.

(** ** What a render pass attaches *)

Lemma without_not_elem (e : Node) (l : list Node) : e ∉ l -> without e l = l.
Proof.
  intros He. unfold without.
  induction l as [| x l IH]; [reflexivity |].
  apply not_elem_of_cons in He as [Hne Hl].
  rewrite filter_cons_True by congruence. rewrite IH by exact Hl. reflexivity.
Qed.

Lemma elem_of_push (frag : list Node) (x e : Node) :
  e ∈ push frag x <-> e ∈ frag \/ e = x.
Proof.
  unfold push. rewrite elem_of_app, elem_of_without, list_elem_of_singleton.
  destruct (decide (e = x)); tauto.
Qed.

Lemma NoDup_push (frag : list Node) (x : Node) :
  NoDup frag -> NoDup (push frag x).
Proof.
  intros Hnd. unfold push. apply NoDup_app. split; [| split].
  - unfold without. apply NoDup_filter, Hnd.
  - intros e He Hx. apply elem_of_without in He as [Hne _].
    apply list_elem_of_singleton in Hx. congruence.
  - apply NoDup_singleton.
Qed.

Lemma push_all_distinct (es acc : list Node) :
  NoDup (acc ++ es) -> fold_left push es acc = acc ++ es.
Proof.
  revert acc. induction es as [| e es IH]; intros acc Hnd; simpl.
  - rewrite app_nil_r. reflexivity.
  - assert (He : e ∉ acc).
    { apply NoDup_app in Hnd as (_ & Hdisj & _). intros Hin.
      apply (Hdisj e Hin). apply elem_of_cons. auto. }
    unfold push at 2. rewrite without_not_elem by exact He.
    rewrite IH; rewrite <- app_assoc; [reflexivity | exact Hnd].
Qed.

Lemma fragment_render_loop (l : list VirtualItem) (st : World * list Node) :
  snd (fold_left render_entry l st)
  = fold_left push (window_items (fst st) l) (snd st).
Proof.
  revert st. induction l as [| v l IH]; intros st; [reflexivity |].
  cbn [fold_left]. rewrite IH. unfold window_items.
  rewrite items_render_entry. cbn [omap list_omap].
  assert (Hsnd : snd (render_entry st v)
                 = match item_at (items (fst st)) (vi_index v) with
                   | Some item => push (snd st) item
                   | None => snd st
                   end).
  { unfold render_entry.
    destruct (item_at (items (fst st)) (vi_index v)); reflexivity. }
  rewrite Hsnd.
  destruct (item_at (items (fst st)) (vi_index v)); reflexivity.
Qed.

Lemma elem_of_push_all (es acc : list Node) (e : Node) :
  e ∈ fold_left push es acc <-> e ∈ acc \/ e ∈ es.
Proof.
  revert acc. induction es as [| x es IH]; intros acc; simpl.
  - rewrite elem_of_nil. tauto.
  - rewrite IH, elem_of_push, elem_of_cons. tauto.
Qed.

Lemma NoDup_push_all (es acc : list Node) :
  NoDup acc -> NoDup (fold_left push es acc).
Proof.
  revert acc. induction es as [| x es IH]; intros acc Hnd; simpl;
    [exact Hnd | apply IH, NoDup_push, Hnd].
Qed.

Lemma fragment_left_the_host (l : list VirtualItem) (st : World * list Node) :
  (forall e, e ∈ snd st -> e ∉ childNodes (fst st)) ->
  forall e, e ∈ snd (fold_left render_entry l st) ->
    e ∉ childNodes (fst (fold_left render_entry l st)).
Proof.
  intros Hst.
  apply (fold_left_invariant
           (fun st => forall e, e ∈ snd st -> e ∉ childNodes (fst st)));
    [exact Hst |].
  clear st Hst. intros st v Hst e. unfold render_entry.
  destruct (item_at (items (fst st)) (vi_index v)) as [item |]; [| apply Hst].
  unfold appendToFragment. cbn [fst snd].
  fold (push (snd st) item). rewrite elem_of_push.
  assert (Hc : forall x y, childNodes (detach item (setAttribute item x y
                 (setAttribute item "aria-setsize" (pretty (length (items (fst st))))
                    (fst st)))) = without item (childNodes (fst st))).
  { intros x y. unfold detach. simpl. destruct (shadow (fst st)); reflexivity. }
  rewrite Hc, elem_of_without.
  intros [He | ->] [Hne Hin]; [exact (Hst e He Hin) | congruence].
Qed.

(** X2.  After a render pass the children of the items container are the
    registry items of the window entries: each such item is a child and
    nothing else is, no child occurs twice, none of them is a child of the
    host any more, and when the window names no registry item twice the
    children are those items in window order. *)
Theorem render_attaches_window_items (w : World) (inst : nat) (sh : Shadow) :
  virtualizer w = Some inst -> shadow w = Some sh ->
  let w' := world_of (render w) in
  let visible := window_items w (getVirtualItems w inst) in
  exists sh', shadow w' = Some sh' /\
    (forall e, e ∈ items_children sh' <-> e ∈ visible) /\
    NoDup (items_children sh') /\
    (forall e, e ∈ items_children sh' -> e ∈ items w /\ e ∉ childNodes w') /\
    (NoDup visible -> items_children sh' = visible).
Proof.
  intros Hv Hsh w' visible. subst w'. unfold render. rewrite Hv, Hsh.
  destruct (scheduleMeasurement_tree (render_tree inst w)) as (_ & Hs & Hc).
  destruct (render_tree_loop inst w sh Hsh) as (_ & Hchild & Hshadow).
  rewrite Hs, Hc, Hchild, Hshadow. clear Hs Hc Hchild Hshadow.
  eexists. split; [reflexivity |]. cbn [items_children set_items_transform
    set_items_children].
  set (st0 := (set_shadow (Some (sized inst w sh)) w, @nil Node)).
  assert (Hfrag : snd (fold_left render_entry (getVirtualItems w inst) st0)
                  = fold_left push visible []).
  { rewrite fragment_render_loop. reflexivity. }
  assert (Hmem : forall e, e ∈ fold_left push visible [] <-> e ∈ visible).
  { intros e. rewrite elem_of_push_all, elem_of_nil. tauto. }
  split; [| split; [| split]].
  - intros e. rewrite Hfrag. apply Hmem.
  - rewrite Hfrag. apply NoDup_push_all, NoDup_nil_2.
  - intros e He. split.
    + rewrite Hfrag in He. apply Hmem in He.
      unfold visible, window_items in He.
      apply list_elem_of_omap in He as (v & _ & Hitem).
      unfold item_at in Hitem.
      destruct (vi_index v <? 0)%Z; [discriminate |].
      eapply list_elem_of_lookup_2, Hitem.
    + revert e He. apply fragment_left_the_host.
      intros e He. apply elem_of_nil in He. contradiction.
  - intros Hnd. rewrite Hfrag. apply (push_all_distinct visible []), Hnd.
Qed.

(** An entry of the loop writes the two position attributes of its own
    item and nothing else. *)
Lemma render_entry_writes_aria st v n name :
  (name <> "aria-setsize" /\ name <> "aria-posinset") \/
  n ∉ items (fst st) ->
  getAttribute (fst (render_entry st v)) n name = getAttribute (fst st) n name.
Proof.
  intros Hother. unfold render_entry.
  destruct (item_at (items (fst st)) (vi_index v)) as [item |] eqn:Hitem;
    [| reflexivity].
  unfold getAttribute, appendToFragment. cbn [fst].
  rewrite attributes_detach. simpl.
  assert (Hin : item ∈ items (fst st)).
  { unfold item_at in Hitem. destruct (vi_index v <? 0)%Z; [discriminate |].
    eapply list_elem_of_lookup_2, Hitem. }
  rewrite !lookup_insert_ne; [reflexivity | |];
    intros [= -> <-]; destruct Hother as [[H1 H2] | Hn]; congruence.
Qed.

Lemma getAttribute_render w n name :
  (name <> "aria-setsize" /\ name <> "aria-posinset") \/ n ∉ items w ->
  getAttribute (world_of (render w)) n name = getAttribute w n name.
Proof.
  intros Hother. unfold render.
  destruct (virtualizer w) as [inst |]; [| auto].
  destruct (shadow w) as [sh |] eqn:Hsh; [| auto].
  destruct (scheduleMeasurement_tree (render_tree inst w)) as (Ha & _ & _).
  destruct (render_tree_loop inst w sh Hsh) as (Hattr & _ & _).
  unfold getAttribute. rewrite Ha, Hattr.
  apply (fold_left_invariant
           (fun st => items (fst st) = items w /\
                      getAttribute (fst st) n name = getAttribute w n name));
    [split; reflexivity |].
  intros st v [Hi Hg]. rewrite items_render_entry. split; [exact Hi |].
  rewrite render_entry_writes_aria; [exact Hg |]. rewrite Hi. exact Hother.
Qed.

Lemma childNodes_render w n :
  n ∈ childNodes (world_of (render w)) -> n ∈ childNodes w.
Proof.
  unfold render.
  destruct (virtualizer w) as [inst |]; [| auto].
  destruct (shadow w) as [sh |] eqn:Hsh; [| auto].
  destruct (scheduleMeasurement_tree (render_tree inst w)) as (_ & _ & Hc).
  destruct (render_tree_loop inst w sh Hsh) as (_ & Hchild & _).
  rewrite Hc, Hchild.
  apply (fold_left_invariant
           (fun st => n ∈ childNodes (fst st) -> n ∈ childNodes w));
    [auto |].
  intros st v Hst. unfold render_entry.
  destruct (item_at (items (fst st)) (vi_index v)) as [item |]; [| exact Hst].
  unfold appendToFragment, detach. cbn [fst]. simpl.
  destruct (shadow (fst st)); simpl; rewrite elem_of_without; tauto.
Qed.

(** X3.  A render pass writes the shadow tree, the two position attributes
    of registry items and the scheduling state, and nothing else: the
    registry, the configuration, the retained instance with its teardown
    handle, the options and reports of every engine instance and the
    attributes of the host are as before, and so is every attribute other
    than aria-setsize and aria-posinset and every attribute of a node that
    is not in the registry.  It adds no child to the host. *)
Theorem render_leaves_alone (w : World) :
  let w' := world_of (render w) in
  kept w' = kept w /\
  (forall n name,
     (name <> "aria-setsize" /\ name <> "aria-posinset") \/ n ∉ items w ->
     getAttribute w' n name = getAttribute w n name) /\
  (forall n, n ∈ childNodes w' -> n ∈ childNodes w).
Proof.
  cbv zeta. split; [apply kept_render |]. split.
  - apply getAttribute_render.
  - apply childNodes_render.
Qed.

(** ** Configuration values *)

Lemma floor_clamped (q : Q) :
  Math_max0 (Math_floor (Finite q)) = Finite (inject_Z (Z.max 0 (Qfloor q))).
Proof.
  simpl. destruct (Qle_bool 0 (inject_Z (Qfloor q))) eqn:Hle.
  - apply Qle_bool_iff in Hle. change 0%Q with (inject_Z 0) in Hle.
    rewrite <- Zle_Qle in Hle. rewrite Z.max_r by exact Hle. reflexivity.
  - assert (Hlt : (Qfloor q < 0)%Z).
    { apply Z.lt_nge. intros Hge. rewrite Zle_Qle in Hge.
      apply Qle_bool_iff in Hge. change (inject_Z 0) with 0%Q in Hge.
      congruence. }
    rewrite Z.max_l by lia. reflexivity.
Qed.

(** X4.  A numeric attribute set to text that is a finite number: the
    estimate takes the number as it is, also when it is 0 or negative;
    overscan takes its floor, and 0 when that is negative; a padding takes
    the number, and 0 when it is negative.  No other configuration field
    changes. *)
Theorem finite_number_is_taken (name : string) (oldValue : option string)
    (text : string) (q : Q) (w : World) :
  oldValue <> Some text -> StringToNumber text = Finite q ->
  let c := config (world_of
             (attributeChangedCallback name oldValue (Some text) w)) in
  let clamped := if Qle_bool 0 q then Finite q else Finite 0 in
  (name = "estimate-size" -> c = set_estimateSize (Finite q) (config w)) /\
  (name = "overscan" ->
     c = set_overscan (Finite (inject_Z (Z.max 0 (Qfloor q)))) (config w)) /\
  (name = "padding-start" -> c = set_paddingStart clamped (config w)) /\
  (name = "padding-end" -> c = set_paddingEnd clamped (config w)) /\
  (name = "scroll-padding-start" ->
     c = set_scrollPaddingStart clamped (config w)) /\
  (name = "scroll-padding-end" ->
     c = set_scrollPaddingEnd clamped (config w)).
Proof.
  intros Hne Hparsed c clamped. subst c clamped.
  unfold attributeChangedCallback.
  destruct (decide (oldValue = Some text)) as [Heq | _]; [congruence |].
  rewrite config_updateVirtualizerOptions.
  repeat split; intros ->; simpl; rewrite Hparsed; simpl; try reflexivity.
  pose proof (floor_clamped q) as Hf. simpl in Hf. rewrite Hf. reflexivity.
Qed.

(** X5.  Removing an observed attribute puts its default back: 48 for
    estimate-size, 2 for overscan, 0 for each padding, vertical for
    orientation; and orientation is horizontal only for the exact text
    "horizontal". *)
Theorem removed_attribute_defaults (name : string) (old : string)
    (w : World) :
  let c := config (world_of
             (attributeChangedCallback name (Some old) None w)) in
  (name = "estimate-size" -> c = set_estimateSize (Finite 48) (config w)) /\
  (name = "overscan" -> c = set_overscan (Finite 2) (config w)) /\
  (name = "padding-start" -> c = set_paddingStart (Finite 0) (config w)) /\
  (name = "padding-end" -> c = set_paddingEnd (Finite 0) (config w)) /\
  (name = "scroll-padding-start" ->
     c = set_scrollPaddingStart (Finite 0) (config w)) /\
  (name = "scroll-padding-end" ->
     c = set_scrollPaddingEnd (Finite 0) (config w)) /\
  (name = "orientation" -> c = set_orientation vertical (config w)) /\
  (forall text, text <> "horizontal" -> text <> old ->
     config (world_of
       (attributeChangedCallback "orientation" (Some old) (Some text) w))
     = set_orientation vertical (config w)).
Proof.
  cbv zeta. unfold attributeChangedCallback.
  destruct (decide (Some old = None)) as [Heq | _]; [discriminate |].
  rewrite config_updateVirtualizerOptions.
  repeat split; try (intros ->; reflexivity).
  intros text Hh Ho.
  destruct (decide (Some old = Some text)) as [Heq | _]; [congruence |].
  rewrite config_updateVirtualizerOptions. simpl.
  destruct (decide (Some text = Some "horizontal")); [congruence | reflexivity].
Qed.

(** ** The configuration the element can reach *)

Lemma nonnegative_max0 (q : Q) : nonnegative (Math_max0 (Finite q)).
Proof.
  unfold nonnegative. simpl.
  destruct (Qle_bool 0 q) eqn:Hle.
  - exists q. split; [reflexivity | apply Qle_bool_iff, Hle].
  - exists 0%Q. split; [reflexivity | apply Qle_refl].
Qed.

Lemma config_ok_attributeChangedCallback name oldValue newValue w :
  config_ok (config w) ->
  config_ok (config (world_of
               (attributeChangedCallback name oldValue newValue w))).
Proof.
  intros Hok. unfold attributeChangedCallback.
  destruct (decide (oldValue = newValue)); [exact Hok |].
  rewrite config_updateVirtualizerOptions.
  destruct (String.eqb name "orientation"); [exact Hok |].
  destruct (has NUMBER_ATTRIBUTES name); [| exact Hok].
  set (parsed := match newValue with Some text => StringToNumber text | None => NaN end).
  assert (Hnext : exists q, (if Number_isFinite parsed then parsed
                             else fallbackForAttribute name) = Finite q).
  { destruct parsed as [| | | q]; simpl; try (eexists; reflexivity);
      unfold fallbackForAttribute; repeat case_match; eexists; reflexivity. }
  destruct Hnext as [q ->].
  destruct Hok as (He & Ho & Hps & Hpe & Hss & Hse).
  unfold config_ok.
  repeat (destruct (String.eqb name _); [simpl; repeat split;
    try assumption;
    try apply nonnegative_max0;
    try (eexists; reflexivity);
    try (pose proof (floor_clamped q) as Hf; simpl in Hf; rewrite Hf;
         exists (Z.max 0 (Qfloor q)); split; [lia | reflexivity]) |]).
  repeat split; assumption.
Qed.

Lemma config_captureChildren w : config (captureChildren w) = config w.
Proof.
  unfold captureChildren. cbv zeta.
  change (config (set_items ?x ?y)) with (config y).
  apply (fold_left_frame (fun st => config (fst st))).
  intros st n. unfold capture_node. repeat case_match; reflexivity.
Qed.

Lemma config_mountVirtualizer w :
  config (world_of (mountVirtualizer w)) = config w.
Proof.
  unfold mountVirtualizer.
  destruct (shadow w); [| reflexivity].
  destruct (virtualizer w);
    match goal with |- config (world_of (render ?x)) = _ =>
      pose proof (kept_render x) as Hk end;
    unfold kept in Hk; injection Hk as _ _ _ _ _ Hc _ _; exact Hc.
Qed.

Lemma config_handleLightDomMutations batch w :
  config (world_of (handleLightDomMutations batch w)) = config w.
Proof.
  unfold handleLightDomMutations. cbv zeta.
  set (st := fold_left visit_mutation batch (mkReconcile w [] false)).
  assert (Hst : config (rc_world st) = config w).
  { subst st.
    apply (fold_left_frame (fun st => config (rc_world st))).
    intros st' m. unfold visit_mutation.
    etrans; [apply (fold_left_frame (fun st => config (rc_world st))) |
             apply (fold_left_frame (fun st => config (rc_world st)))].
    - intros s n. unfold visit_removed. repeat case_match; reflexivity.
    - intros s n. unfold visit_added. repeat case_match; reflexivity. }
  set (st' := match rc_additions st with [] => st | _ => _ end).
  assert (Hst' : config (rc_world st') = config w).
  { subst st'. destruct (rc_additions st) as [| e l]; [exact Hst |].
    cbn [rc_world]. rewrite <- Hst.
    apply (fold_left_frame config adopt (e :: l)).
    intros w' x. unfold adopt. repeat case_match; reflexivity. }
  destruct (rc_changed st'); [rewrite config_updateVirtualizerOptions |];
    exact Hst'.
Qed.

Lemma config_measure w : config (measure w) = config w.
Proof.
  unfold measure. cbv zeta.
  destruct (virtualizer (set_rafId None w)) as [inst |]; [| reflexivity].
  destruct (shadow (set_rafId None w)) as [sh |]; [| reflexivity].
  etrans; [apply (fold_left_frame config) | reflexivity].
  intros w' child. destruct (instanceofHTMLElement child); reflexivity.
Qed.

Lemma config_disconnectedCallback w :
  config (disconnectedCallback w) = config w.
Proof.
  unfold disconnectedCallback, teardownVirtualizer, stopObservingLightDom.
  repeat case_match; reflexivity.
Qed.

Lemma config_ok_step w i :
  config_ok (config w) -> config_ok (config (world_of (step w i))).
Proof.
  intros Hok. destruct i; simpl.
  - unfold connectedCallback. destruct (initialized w).
    + rewrite config_mountVirtualizer. exact Hok.
    + unfold initialize. cbv zeta.
      match goal with |- config_ok (config (world_of (applyInitialAttributes ?x >>> _))) =>
        assert (Hx : config_ok (config x))
          by (unfold setupShadowDom;
              change (config (set_shadow ?a ?b)) with (config b);
              rewrite config_captureChildren;
              destruct (hostAttributes _ !! "role"); exact Hok);
        assert (Ha : config_ok (config (world_of (applyInitialAttributes x))))
      end.
      { unfold applyInitialAttributes.
        apply (for_each_preserves (fun w' => config_ok (config w'))).
        - intros name w' Hw'. destruct (hostAttributes w' !! name);
            [apply config_ok_attributeChangedCallback |]; exact Hw'.
        - exact Hx. }
      destruct (applyInitialAttributes _) as [w5 | w5]; simpl in *;
        [rewrite config_mountVirtualizer |]; exact Ha.
  - rewrite config_disconnectedCallback. exact Hok.
  - apply config_ok_attributeChangedCallback, Hok.
  - rewrite config_handleLightDomMutations. exact Hok.
  - unfold setVirtualState.
    destruct (virtualizerInstances w !! inst); [| exact Hok].
    unfold onChange. simpl.
    destruct (decide (virtualizer w = Some inst)); [| exact Hok].
    match goal with |- config_ok (config (world_of (render ?x))) =>
      pose proof (kept_render x) as Hk end.
    unfold kept in Hk. injection Hk as _ _ _ _ _ Hc _ _. rewrite Hc. exact Hok.
  - unfold runFrame. destruct (bool_decide _); [| exact Hok].
    rewrite config_measure. exact Hok.
  - unfold runMicrotask. destruct (microtasks (host w)); [exact Hok |].
    rewrite config_measure. exact Hok.
  - change (config (set_childNodes ?x ?y)) with (config y).
    replace (config (detach node w)) with (config w); [exact Hok |].
    unfold detach. simpl. destruct (shadow w); reflexivity.
  - exact Hok.
  - exact Hok.
Qed.

Lemma reachable_config_ok w : Reachable w -> config_ok (config w).
Proof.
  induction 1 as [raf caf hostAttrs children attrs | w i Hw IH].
  - simpl. unfold config_ok, nonnegative, DEFAULT_ESTIMATE, DEFAULT_OVERSCAN.
    simpl. repeat split; try (eexists; reflexivity);
      try (exists 0%Q; split; [reflexivity | apply Qle_refl]).
    exists 2%Z. split; [lia | reflexivity].
  - apply config_ok_step, IH.
Qed.

(** X6.  Whatever the page does, the configuration stays usable: the
    estimate is a finite number, overscan is a whole number that is not
    negative, and no padding is negative; so are the values in the option
    set built from it. *)
Theorem configuration_stays_usable (w : World) :
  Reachable w ->
  config_ok (config w) /\
  (exists z : Z, (0 <= z)%Z /\
     opt_overscan (createOptions w) = Finite (inject_Z z)) /\
  nonnegative (opt_paddingStart (createOptions w)) /\
  nonnegative (opt_paddingEnd (createOptions w)) /\
  nonnegative (opt_scrollPaddingStart (createOptions w)) /\
  nonnegative (opt_scrollPaddingEnd (createOptions w)).
Proof.
  intros Hreach. pose proof (reachable_config_ok w Hreach) as Hok.
  split; [exact Hok |]. destruct Hok as (_ & Ho & Hps & Hpe & Hss & Hse).
  simpl. auto.
Qed.

(** X7.  The size estimate of an index is the item's own
    data-estimate-size when the item has one that is not empty and is a
    finite number, and the configured estimate in every other case: no
    item at the index, no such attribute, an empty one, or text that is not
    a finite number.  In a world the element can reach the estimate is
    always a finite number. *)
Theorem getEstimatedSize_is_finite (w : World) (index : Z) :
  Reachable w ->
  (exists q : Q, getEstimatedSize w index = Finite q) /\
  (forall item attr q,
     item_at (items w) index = Some item ->
     getAttribute w item "data-estimate-size" = Some attr ->
     attr <> "" -> StringToNumber attr = Finite q ->
     getEstimatedSize w index = Finite q) /\
  ((forall item attr q,
      item_at (items w) index = Some item ->
      getAttribute w item "data-estimate-size" = Some attr ->
      attr <> "" -> StringToNumber attr <> Finite q) ->
   getEstimatedSize w index = estimateSize (config w)).
Proof.
  intros Hreach.
  destruct (reachable_config_ok w Hreach) as ([q0 Hq0] & _).
  unfold getEstimatedSize. split; [| split].
  - destruct (item_at (items w) index) as [item |]; [| eauto].
    destruct (getAttribute w item "data-estimate-size") as [attr |]; [| eauto].
    destruct (String.eqb attr ""); [eauto |].
    destruct (StringToNumber attr) as [| | | q] eqn:Hp; simpl; eauto.
  - intros item attr q -> -> Hne Hp.
    destruct (String.eqb_spec attr ""); [congruence |].
    rewrite Hp. reflexivity.
  - intros Hnone.
    destruct (item_at (items w) index) as [item |]; [| reflexivity].
    destruct (getAttribute w item "data-estimate-size") as [attr |] eqn:Hattr;
      [| reflexivity].
    destruct (String.eqb_spec attr ""); [reflexivity |].
    destruct (StringToNumber attr) as [| | | q] eqn:Hp; simpl; try reflexivity.
    exfalso. apply (Hnone item attr q); auto.
Qed.

(** ** Batches of mutation records *)

Lemma fold_left_reaches {S A : Type} (Inv P : S -> Prop) (f : S -> A -> S)
    (l : list A) (s : S) (x : A) :
  x ∈ l -> Inv s ->
  (forall s' y, Inv s' -> Inv (f s' y)) ->
  (forall s', Inv s' -> P (f s' x)) ->
  (forall s' y, Inv s' -> P s' -> P (f s' y)) ->
  P (fold_left f l s).
Proof.
  intros Hx Hs Hinv Hdoes Hkeeps. revert s Hs.
  induction l as [| y l IH]; intros s Hs; [apply elem_of_nil in Hx; contradiction |].
  simpl. apply elem_of_cons in Hx as [<- | Hx].
  - assert (Hgen : forall l' s', Inv s' -> P s' -> P (fold_left f l' s')).
    { clear -Hinv Hkeeps. induction l' as [| z l' IH']; intros s' Hi Hp; simpl;
        [exact Hp | apply IH'; auto]. }
    apply Hgen; auto.
  - apply IH; auto.
Qed.

Lemma fold_left_invariant_in {S A : Type} (P : S -> Prop) (f : S -> A -> S)
    (l : list A) (s : S) :
  (forall s' x, x ∈ l -> P s' -> P (f s' x)) -> P s -> P (fold_left f l s).
Proof.
  revert s. induction l as [| y l IH]; intros s Hf Hs; simpl; [exact Hs |].
  apply IH.
  - intros s' x Hx. apply Hf, elem_of_cons. auto.
  - apply Hf; [apply elem_of_cons; auto | exact Hs].
Qed.

Lemma indexOf_Some (l : list Node) (x : Node) (i : nat) :
  indexOf l x = Some i -> l !! i = Some x.
Proof.
  revert i. induction l as [| y l IH]; intros i; simpl; [discriminate |].
  destruct (decide (y = x)) as [-> | Hne].
  - intros [= <-]. reflexivity.
  - destruct (indexOf l x) as [j |]; simpl; [| discriminate].
    intros [= <-]. apply IH. reflexivity.
Qed.

Lemma indexOf_None (l : list Node) (x : Node) :
  indexOf l x = None <-> x ∉ l.
Proof.
  induction l as [| y l IH]; simpl.
  - split; [intros _; apply not_elem_of_nil | reflexivity].
  - rewrite not_elem_of_cons. destruct (decide (y = x)) as [-> | Hne].
    + split; [discriminate | intros [Hc _]; congruence].
    + destruct (indexOf l x) as [j |]; simpl.
      * split; [discriminate |]. intros [_ Hn]. apply IH in Hn. discriminate.
      * split; [| reflexivity]. intros _. split; [congruence | apply IH; reflexivity].
Qed.

Lemma NoDup_delete_lookup (l : list Node) (i : nat) (x : Node) :
  NoDup l -> l !! i = Some x -> x ∉ delete i l.
Proof.
  intros Hnd Hi Hin.
  apply list_elem_of_lookup in Hin as [j Hj].
  destruct (decide (j < i)) as [Hlt | Hge].
  - rewrite list_lookup_delete_lt in Hj by exact Hlt.
    pose proof (NoDup_lookup _ _ _ _ Hnd Hi Hj). lia.
  - rewrite list_lookup_delete_ge in Hj by lia.
    pose proof (NoDup_lookup _ _ _ _ Hnd Hi Hj). lia.
Qed.

(** The three visitors on the children of the host and on the registry. *)
Lemma childNodes_visit_added st n :
  childNodes (rc_world (visit_added st n))
  = if isElementNode n then childNodes (rc_world st)
    else without n (childNodes (rc_world st)).
Proof.
  unfold visit_added. destruct (isElementNode n); [reflexivity |].
  unfold parentIsHost. case_bool_decide as Hin; [reflexivity |].
  rewrite without_not_elem by exact Hin. reflexivity.
Qed.

Lemma items_visit_added st n :
  items (rc_world (visit_added st n)) = items (rc_world st).
Proof. unfold visit_added. repeat case_match; reflexivity. Qed.

Lemma childNodes_visit_removed st n :
  childNodes (rc_world (visit_removed st n)) = childNodes (rc_world st).
Proof. unfold visit_removed. repeat case_match; reflexivity. Qed.

Lemma childNodes_adopt w e :
  childNodes (adopt w e) = without e (childNodes w).
Proof.
  unfold adopt. cbv zeta.
  change (childNodes (set_items ?x ?y)) with (childNodes y).
  assert (Hp : forall w1, childNodes w1 = childNodes w ->
            childNodes (if parentIsHost w1 e then removeChild e w1 else w1)
            = without e (childNodes w)).
  { intros w1 Hw1. unfold parentIsHost. rewrite Hw1.
    case_bool_decide as Hin; simpl; [rewrite Hw1; reflexivity |].
    rewrite Hw1, without_not_elem by exact Hin. reflexivity. }
  apply Hp. destruct (hasAttribute w e "role"); reflexivity.
Qed.

Lemma childNodes_updateVirtualizerOptions w n :
  n ∈ childNodes (world_of (updateVirtualizerOptions w)) -> n ∈ childNodes w.
Proof.
  unfold updateVirtualizerOptions.
  destruct (virtualizer w) as [inst |]; [| auto].
  intros Hn. apply childNodes_render in Hn. exact Hn.
Qed.

(** X8.  After a batch no node the batch reports as added is a child of
    the host: a node that is not an element is put out again, an element
    is moved to the registry. *)
Theorem added_nodes_leave_the_host (batch : list MutationRecord) (w : World)
    (mutation : MutationRecord) (n : Node) :
  mutation ∈ batch -> n ∈ addedNodes mutation ->
  n ∉ childNodes (world_of (handleLightDomMutations batch w)).
Proof.
  intros Hm Hn. change (absent n (world_of (handleLightDomMutations batch w))).
  unfold handleLightDomMutations. cbv zeta.
  set (st := fold_left visit_mutation batch (mkReconcile w [] false)).
  assert (Hadded : forall l s, absent n (rc_world s) ->
            absent n (rc_world (fold_left visit_added l s))).
  { intros l s Hs.
    apply (fold_left_invariant (fun s => absent n (rc_world s))); [exact Hs |].
    intros s' y Hs'. unfold absent in *. rewrite childNodes_visit_added.
    destruct (isElementNode y); [exact Hs' |]. rewrite elem_of_without. tauto. }
  assert (Hremoved : forall l s, absent n (rc_world s) ->
            absent n (rc_world (fold_left visit_removed l s))).
  { intros l s Hs.
    apply (fold_left_invariant (fun s => absent n (rc_world s))); [exact Hs |].
    intros s' y Hs'. unfold absent in *. rewrite childNodes_visit_removed.
    exact Hs'. }
  assert (Hadopt : forall l w', absent n w' -> absent n (fold_left adopt l w')).
  { intros l w' Hw'. apply (fold_left_invariant (absent n)); [exact Hw' |].
    intros w1 y Hw1. unfold absent in *.
    rewrite childNodes_adopt, elem_of_without. tauto. }
  assert (Hst : isElementNode n = false -> absent n (rc_world st)).
  { intros Hel. subst st.
    apply (fold_left_reaches (fun _ => True) (fun s => absent n (rc_world s))
             visit_mutation batch _ mutation); auto.
    - intros s _. unfold visit_mutation. apply Hremoved.
      apply (fold_left_reaches (fun _ => True) (fun s => absent n (rc_world s))
               visit_added (addedNodes mutation) _ n); auto.
      + intros s' _. unfold absent. rewrite childNodes_visit_added, Hel.
        rewrite elem_of_without. tauto.
      + intros s' y _ Hs'. apply (Hadded [y] s' Hs').
    - intros s y _ Hs. unfold visit_mutation. apply Hremoved, Hadded, Hs. }
  assert (Hadds : rc_additions st
                  = List.filter isElementNode (flat_map addedNodes batch))
    by (subst st; rewrite additions_visit_mutations; reflexivity).
  assert (Hfinal : absent n (rc_world
            (match rc_additions st with
             | [] => st
             | _ :: _ =>
                 mkReconcile (fold_left adopt (rc_additions st) (rc_world st))
                   (rc_additions st) true
             end))).
  { destruct (isElementNode n) eqn:Hel.
    - assert (Hin : n ∈ rc_additions st).
      { rewrite Hadds. apply list_elem_of_In, filter_In. split; [| exact Hel].
        apply in_flat_map. exists mutation.
        split; apply list_elem_of_In; assumption. }
      destruct (rc_additions st) as [| e l] eqn:Hl;
        [apply elem_of_nil in Hin; contradiction |].
      cbn [rc_world].
      apply (fold_left_reaches (fun _ => True) (absent n) adopt (e :: l) _ n);
        auto.
      + intros w' _. unfold absent. rewrite childNodes_adopt, elem_of_without.
        tauto.
      + intros w' y _ Hw'. apply (Hadopt [y] w' Hw').
    - destruct (rc_additions st) as [| e l]; [apply Hst; reflexivity |].
      cbn [rc_world]. apply Hadopt, Hst. reflexivity. }
  match goal with |- absent n (world_of (if ?c then _ else _)) =>
    destruct c end; [| exact Hfinal].
  intros Hin. apply childNodes_updateVirtualizerOptions in Hin.
  exact (Hfinal Hin).
Qed.

Lemma items_visit_removed st n :
  items (rc_world (visit_removed st n))
  = if isElementNode n then
      match indexOf (items (rc_world st)) n with
      | Some index => delete index (items (rc_world st))
      | None => items (rc_world st)
      end
    else items (rc_world st).
Proof. unfold visit_removed, splice1. repeat case_match; reflexivity. Qed.

Lemma NoDup_visit_removed st n :
  NoDup (items (rc_world st)) -> NoDup (items (rc_world (visit_removed st n))).
Proof.
  intros Hnd. rewrite items_visit_removed.
  destruct (isElementNode n); [| exact Hnd].
  destruct (indexOf (items (rc_world st)) n); [| exact Hnd].
  eapply sublist_NoDup; [exact Hnd | apply sublist_delete].
Qed.

Lemma unregistered_visit_removed st n e :
  unregistered e (rc_world st) -> unregistered e (rc_world (visit_removed st n)).
Proof.
  unfold unregistered. intros He. rewrite items_visit_removed.
  destruct (isElementNode n); [| exact He].
  destruct (indexOf (items (rc_world st)) n); [| exact He].
  intros Hin. apply list_elem_of_delete_inv in Hin. exact (He Hin).
Qed.

(** X9.  While the registry holds no element twice, an element that a
    batch reports as removed and does not report as added is not in the
    registry after the batch. *)
Theorem removed_element_leaves_registry (batch : list MutationRecord)
    (w : World) (mutation : MutationRecord) (e : Node) :
  NoDup (items w) -> isElementNode e = true ->
  mutation ∈ batch -> e ∈ removedNodes mutation ->
  (forall m, m ∈ batch -> e ∉ addedNodes m) ->
  e ∉ items (world_of (handleLightDomMutations batch w)).
Proof.
  intros Hnd Hel Hm He Hnot.
  change (unregistered e (world_of (handleLightDomMutations batch w))).
  unfold handleLightDomMutations. cbv zeta.
  set (st := fold_left visit_mutation batch (mkReconcile w [] false)).
  set (Inv := fun s : Reconcile => NoDup (items (rc_world s))).
  assert (Hinv_added : forall l s, Inv s -> Inv (fold_left visit_added l s)).
  { intros l s Hs. apply (fold_left_invariant Inv); [exact Hs |].
    intros s' y Hs'. unfold Inv in *. rewrite items_visit_added. exact Hs'. }
  assert (Hinv_removed : forall l s, Inv s -> Inv (fold_left visit_removed l s)).
  { intros l s Hs. apply (fold_left_invariant Inv); [exact Hs |].
    intros s' y Hs'. apply NoDup_visit_removed, Hs'. }
  assert (Hkeep_added : forall l s, unregistered e (rc_world s) ->
            unregistered e (rc_world (fold_left visit_added l s))).
  { intros l s Hs.
    apply (fold_left_invariant (fun s => unregistered e (rc_world s)));
      [exact Hs |].
    intros s' y Hs'. unfold unregistered in *. rewrite items_visit_added.
    exact Hs'. }
  assert (Hkeep_removed : forall l s, unregistered e (rc_world s) ->
            unregistered e (rc_world (fold_left visit_removed l s))).
  { intros l s Hs.
    apply (fold_left_invariant (fun s => unregistered e (rc_world s)));
      [exact Hs |].
    intros s' y. apply unregistered_visit_removed. }
  assert (Hst : unregistered e (rc_world st)).
  { subst st.
    apply (fold_left_reaches Inv (fun s => unregistered e (rc_world s))
             visit_mutation batch _ mutation); auto.
    - intros s y Hs. unfold visit_mutation. apply Hinv_removed, Hinv_added, Hs.
    - intros s Hs. unfold visit_mutation.
      apply (fold_left_reaches Inv (fun s => unregistered e (rc_world s))
               visit_removed (removedNodes mutation) _ e); auto.
      + intros s' y Hs'. apply NoDup_visit_removed, Hs'.
      + intros s' Hs'. unfold unregistered. rewrite items_visit_removed, Hel.
        destruct (indexOf (items (rc_world s')) e) as [i |] eqn:Hi.
        * apply NoDup_delete_lookup; [exact Hs' | apply indexOf_Some, Hi].
        * apply indexOf_None, Hi.
      + intros s' y _. apply unregistered_visit_removed.
    - intros s y _ Hs. unfold visit_mutation.
      apply Hkeep_removed, Hkeep_added, Hs. }
  assert (Hadds : e ∉ rc_additions st).
  { subst st. rewrite additions_visit_mutations. simpl.
    rewrite list_elem_of_In, filter_In, in_flat_map.
    intros [(m & Hmb & Hme) _].
    apply (Hnot m); apply list_elem_of_In; assumption. }
  assert (Hfinal : unregistered e (rc_world
            (match rc_additions st with
             | [] => st
             | _ :: _ =>
                 mkReconcile (fold_left adopt (rc_additions st) (rc_world st))
                   (rc_additions st) true
             end))).
  { destruct (rc_additions st) as [| x l] eqn:Hl; [exact Hst |].
    cbn [rc_world]. unfold unregistered.
    rewrite (items_adopt (x :: l)), elem_of_app. intros [Hin | Hin];
      [exact (Hst Hin) | exact (Hadds Hin)]. }
  match goal with |- unregistered e (world_of (if ?c then _ else _)) =>
    destruct c end; [| exact Hfinal].
  unfold unregistered. rewrite items_updateVirtualizerOptions. exact Hfinal.
Qed.

Lemma set_childNodes_same (w : World) : set_childNodes (childNodes w) w = w.
Proof. destruct w; reflexivity. Qed.

Lemma quiet_added (l : list Node) (w : World) :
  (forall n, n ∈ l -> isElementNode n = false) ->
  exists rest,
    fold_left visit_added l (mkReconcile w [] false)
    = mkReconcile (set_childNodes rest w) [] false /\
    (forall c, c ∈ rest <-> c ∈ childNodes w /\ c ∉ l).
Proof.
  revert w. induction l as [| n l IH]; intros w Hl.
  - exists (childNodes w). simpl. rewrite set_childNodes_same.
    split; [reflexivity |]. intros c. rewrite elem_of_nil. tauto.
  - assert (Hn : isElementNode n = false) by (apply Hl, elem_of_cons; auto).
    assert (Hstep : visit_added (mkReconcile w [] false) n
              = mkReconcile (set_childNodes (without n (childNodes w)) w) [] false).
    { unfold visit_added. rewrite Hn. cbn [rc_world rc_additions rc_changed].
      unfold parentIsHost. case_bool_decide as Hin; [reflexivity |].
      rewrite without_not_elem by exact Hin.
      rewrite set_childNodes_same. reflexivity. }
    destruct (IH (set_childNodes (without n (childNodes w)) w)) as (rest & Hfold & Hmem).
    { intros m Hm. apply Hl, elem_of_cons. auto. }
    exists rest. cbn [fold_left]. rewrite Hstep, Hfold.
    split; [reflexivity |].
    intros c. rewrite Hmem. cbn [childNodes set_childNodes].
    rewrite elem_of_without, not_elem_of_cons. tauto.
Qed.

Lemma quiet_removed (l : list Node) (st : Reconcile) :
  (forall n, n ∈ l -> isElementNode n = true -> n ∉ items (rc_world st)) ->
  fold_left visit_removed l st = st.
Proof.
  induction l as [| n l IH]; intros Hl; [reflexivity |].
  assert (Hstep : visit_removed st n = st).
  { unfold visit_removed. destruct (isElementNode n) eqn:Hn; [| reflexivity].
    assert (Hnone : indexOf (items (rc_world st)) n = None).
    { apply indexOf_None, Hl; [apply elem_of_cons; auto | exact Hn]. }
    rewrite Hnone. reflexivity. }
  cbn [fold_left]. rewrite Hstep. apply IH.
  intros m Hm. apply Hl, elem_of_cons. auto.
Qed.

Lemma quiet_batch (batch : list MutationRecord) (w : World) :
  (forall m n, m ∈ batch -> n ∈ addedNodes m -> isElementNode n = false) ->
  (forall m n, m ∈ batch -> n ∈ removedNodes m -> isElementNode n = true ->
     n ∉ items w) ->
  exists rest,
    fold_left visit_mutation batch (mkReconcile w [] false)
    = mkReconcile (set_childNodes rest w) [] false /\
    (forall c, c ∈ rest <->
       c ∈ childNodes w /\ forall m, m ∈ batch -> c ∉ addedNodes m).
Proof.
  revert w. induction batch as [| m batch IH]; intros w Hadd Hrem.
  - exists (childNodes w). simpl. rewrite set_childNodes_same.
    split; [reflexivity |]. intros c. split; [| tauto].
    intros Hc. split; [exact Hc |]. intros m Hm.
    apply elem_of_nil in Hm. contradiction.
  - destruct (quiet_added (addedNodes m) w) as (rest1 & Hfold1 & Hmem1).
    { intros n Hn. apply (Hadd m n); [apply elem_of_cons; auto | exact Hn]. }
    assert (Hstep : visit_mutation (mkReconcile w [] false) m
                    = mkReconcile (set_childNodes rest1 w) [] false).
    { unfold visit_mutation. rewrite Hfold1. apply quiet_removed.
      intros n Hn Hel. apply (Hrem m n); [apply elem_of_cons; auto | | ]; assumption. }
    destruct (IH (set_childNodes rest1 w)) as (rest & Hfold & Hmem).
    { intros m' n Hm'. apply Hadd, elem_of_cons. auto. }
    { intros m' n Hm'. apply (Hrem m' n), elem_of_cons. auto. }
    exists rest. cbn [fold_left]. rewrite Hstep, Hfold.
    split; [reflexivity |].
    intros c. rewrite Hmem. cbn [childNodes set_childNodes]. rewrite Hmem1.
    split.
    + intros [[Hc Hm0] Hrest]. split; [exact Hc |].
      intros m' Hm'. apply elem_of_cons in Hm' as [-> | Hm']; auto.
    + intros [Hc Hall]. split; [split; [exact Hc |] |].
      * apply Hall, elem_of_cons. auto.
      * intros m' Hm'. apply Hall, elem_of_cons. auto.
Qed.

(** X10.  A batch that adds no element and removes no registered element
    (text or comment nodes put into the list, nodes taken out that the
    registry does not hold) returns without telling the engine and without
    rendering: the world is as before except that the added nodes are no
    longer children of the host. *)
Theorem quiet_batch_only_cleans (batch : list MutationRecord) (w : World) :
  (forall m n, m ∈ batch -> n ∈ addedNodes m -> isElementNode n = false) ->
  (forall m n, m ∈ batch -> n ∈ removedNodes m -> isElementNode n = true ->
     n ∉ items w) ->
  exists rest,
    handleLightDomMutations batch w = Done (set_childNodes rest w) /\
    (forall c, c ∈ rest <->
       c ∈ childNodes w /\ forall m, m ∈ batch -> c ∉ addedNodes m).
Proof.
  intros Hadd Hrem.
  destruct (quiet_batch batch w Hadd Hrem) as (rest & Hfold & Hmem).
  exists rest. split; [| exact Hmem].
  unfold handleLightDomMutations. cbv zeta. rewrite Hfold. reflexivity.
Qed.

Lemma attributes_visit_mutations batch st :
  attributes (rc_world (fold_left visit_mutation batch st))
  = attributes (rc_world st).
Proof.
  apply (fold_left_frame (fun st => attributes (rc_world st))).
  intros st' m. unfold visit_mutation.
  etrans; [apply (fold_left_frame (fun st => attributes (rc_world st))) |
           apply (fold_left_frame (fun st => attributes (rc_world st)))].
  - intros s n. unfold visit_removed. repeat case_match; reflexivity.
  - intros s n. unfold visit_added. repeat case_match; reflexivity.
Qed.

Lemma adopt_role (l : list Node) (w : World) (e : Node) :
  getAttribute (fold_left adopt l w) e "role" =
  match getAttribute w e "role" with
  | Some r => Some r
  | None => if bool_decide (e ∈ l) then Some "listitem" else None
  end.
Proof.
  revert w. induction l as [| x l IH]; intros w.
  - simpl. destruct (getAttribute w e "role"); reflexivity.
  - cbn [fold_left]. rewrite IH.
    assert (Hstep : getAttribute (adopt w x) e "role"
              = match getAttribute w e "role" with
                | Some r => Some r
                | None => if decide (x = e) then Some "listitem" else None
                end).
    { rewrite <- role_after_marking. unfold adopt. cbv zeta.
      unfold getAttribute, parentIsHost, removeChild.
      repeat case_match; reflexivity. }
    rewrite Hstep. destruct (getAttribute w e "role"); [reflexivity |].
    destruct (decide (x = e)) as [-> | Hne].
    + rewrite bool_decide_eq_true_2 by (apply elem_of_cons; auto). reflexivity.
    + apply (f_equal (fun b : bool => if b then Some "listitem" else None)).
      apply bool_decide_ext. rewrite elem_of_cons.
      split; [auto | intros [-> | ?]; [congruence | assumption]].
Qed.

Lemma getAttribute_updateVirtualizerOptions w n name :
  (name <> "aria-setsize" /\ name <> "aria-posinset") \/ n ∉ items w ->
  getAttribute (world_of (updateVirtualizerOptions w)) n name
  = getAttribute w n name.
Proof.
  intros Hother. unfold updateVirtualizerOptions.
  destruct (virtualizer w) as [inst |]; [| reflexivity].
  rewrite getAttribute_render; [reflexivity | exact Hother].
Qed.

(** X11.  An element that a batch adds has a role afterwards: the role it
    had, or listitem when it had none. *)
Theorem added_element_gets_role (batch : list MutationRecord) (w : World)
    (mutation : MutationRecord) (e : Node) :
  isElementNode e = true -> mutation ∈ batch -> e ∈ addedNodes mutation ->
  getAttribute (world_of (handleLightDomMutations batch w)) e "role"
  = Some (default "listitem" (getAttribute w e "role")).
Proof.
  intros Hel Hm He. unfold handleLightDomMutations. cbv zeta.
  set (st := fold_left visit_mutation batch (mkReconcile w [] false)).
  assert (Hattr : forall name, getAttribute (rc_world st) e name
                               = getAttribute w e name).
  { intros name. unfold getAttribute. subst st.
    rewrite attributes_visit_mutations. reflexivity. }
  assert (Hin : e ∈ rc_additions st).
  { subst st. rewrite additions_visit_mutations. simpl.
    apply list_elem_of_In, filter_In. split; [| exact Hel].
    apply in_flat_map. exists mutation.
    split; apply list_elem_of_In; assumption. }
  destruct (rc_additions st) as [| x l] eqn:Hl;
    [apply elem_of_nil in Hin; contradiction |].
  cbn [rc_changed rc_world].
  rewrite getAttribute_updateVirtualizerOptions
    by (left; split; discriminate).
  rewrite (adopt_role (x :: l)), Hattr.
  destruct (getAttribute w e "role"); [reflexivity |].
  rewrite bool_decide_eq_true_2 by exact Hin. reflexivity.
Qed.

(** A render pass calls nothing but the scheduling primitives. *)
Lemma calls_render w :
  exists extra, calls (world_of (render w)) = calls w ++ extra /\
                forallb isScheduling extra = true.
Proof.
  unfold render.
  destruct (virtualizer w) as [inst |] eqn:Hv;
    [| exists []; rewrite app_nil_r; auto].
  destruct (shadow w) as [sh |] eqn:Hsh;
    [| exists []; rewrite app_nil_r; auto].
  rewrite <- (calls_render_tree inst w).
  generalize (render_tree inst w). intros x.
  unfold scheduleMeasurement.
  destruct (virtualizer x); [| exists []; rewrite app_nil_r; auto].
  destruct (shadow x); [| exists []; rewrite app_nil_r; auto].
  destruct (has_requestAnimationFrame (host x)).
  - destruct (rafId x) as [h |].
    + destruct (has_cancelAnimationFrame (host x)).
      * eexists. simpl. rewrite <- app_assoc. split; reflexivity.
      * exists []. rewrite app_nil_r. auto.
    + eexists. simpl. split; reflexivity.
  - eexists. simpl. split; reflexivity.
Qed.

Lemma filter_isSetOptions_scheduling (extra : list Call) :
  forallb isScheduling extra = true -> List.filter isSetOptions extra = [].
Proof.
  induction extra as [| c extra IH]; [reflexivity |]. simpl.
  intros Hall. apply andb_prop in Hall as [Hc Hrest].
  destruct c; try discriminate Hc; simpl; apply IH, Hrest.
Qed.

Lemma calls_visit_mutations batch st :
  calls (rc_world (fold_left visit_mutation batch st)) = calls (rc_world st).
Proof.
  apply (fold_left_frame (fun st => calls (rc_world st))).
  intros st' m. unfold visit_mutation.
  etrans; [apply (fold_left_frame (fun st => calls (rc_world st))) |
           apply (fold_left_frame (fun st => calls (rc_world st)))].
  - intros s n. unfold visit_removed. repeat case_match; reflexivity.
  - intros s n. unfold visit_added. repeat case_match; reflexivity.
Qed.

Lemma pushes_updateVirtualizerOptions w inst :
  virtualizer w = Some inst ->
  List.filter isSetOptions (calls (world_of (updateVirtualizerOptions w)))
  = List.filter isSetOptions (calls w)
    ++ [CallSetOptions inst
          (createOptions (world_of (updateVirtualizerOptions w)))].
Proof.
  intros Hv.
  assert (Hopts : createOptions (world_of (updateVirtualizerOptions w))
                  = createOptions w).
  { unfold createOptions.
    rewrite items_updateVirtualizerOptions, config_updateVirtualizerOptions.
    reflexivity. }
  rewrite Hopts. unfold updateVirtualizerOptions. rewrite Hv.
  match goal with |- context [render ?x] =>
    destruct (calls_render x) as (extra & -> & Hextra) end.
  simpl. rewrite !List.filter_app. simpl.
  rewrite (filter_isSetOptions_scheduling extra Hextra), !app_nil_r.
  reflexivity.
Qed.

(** X12.  A batch tells the engine at most once, after all its records
    have been applied, and what it tells is the option set of the registry
    as the batch leaves it.  When the batch adds elements and removes no
    registered one, the registry is the old one followed by the added
    elements in the order of the records, and the count told to the engine
    is the old length plus their number. *)
Theorem batch_is_pushed_once (batch : list MutationRecord) (w : World)
    (inst : nat) :
  virtualizer w = Some inst ->
  let w' := world_of (handleLightDomMutations batch w) in
  let added := List.filter isElementNode (flat_map addedNodes batch) in
  (exists pushes,
     List.filter isSetOptions (calls w')
     = List.filter isSetOptions (calls w) ++ pushes /\
     (pushes = [] \/ pushes = [CallSetOptions inst (createOptions w')]) /\
     (added <> [] -> pushes = [CallSetOptions inst (createOptions w')])) /\
  ((forall m n, m ∈ batch -> n ∈ removedNodes m -> isElementNode n = true ->
      n ∉ items w) ->
   items w' = items w ++ added /\
   opt_count (createOptions w') = length (items w) + length added).
Proof.
  intros Hv w' added. subst w'. unfold handleLightDomMutations. cbv zeta.
  set (st := fold_left visit_mutation batch (mkReconcile w [] false)).
  assert (Hadds : rc_additions st = added)
    by (subst st added; rewrite additions_visit_mutations; reflexivity).
  assert (Hcalls : calls (rc_world st) = calls w)
    by (subst st; apply calls_visit_mutations).
  assert (Hvirt : virtualizer (rc_world st) = Some inst).
  { rewrite <- Hv. subst st.
    apply (fold_left_frame (fun st => virtualizer (rc_world st))).
    intros st' m. unfold visit_mutation.
    etrans; [apply (fold_left_frame (fun st => virtualizer (rc_world st))) |
             apply (fold_left_frame (fun st => virtualizer (rc_world st)))].
    - intros s n. unfold visit_removed. repeat case_match; reflexivity.
    - intros s n. unfold visit_added. repeat case_match; reflexivity. }
  set (st' := match rc_additions st with [] => st | _ => _ end).
  assert (Hst' : calls (rc_world st') = calls w /\
                 virtualizer (rc_world st') = Some inst /\
                 items (rc_world st') = items (rc_world st) ++ added /\
                 (added <> [] -> rc_changed st' = true)).
  { subst st'. rewrite <- Hadds.
    destruct (rc_additions st) as [| e l]; cbn [rc_world rc_changed].
    - rewrite app_nil_r.
      split; [exact Hcalls |]. split; [exact Hvirt |].
      split; [reflexivity | congruence].
    - rewrite (items_adopt (e :: l)).
      split; [| split; [| split; [reflexivity | reflexivity]]].
      + rewrite <- Hcalls. apply (fold_left_frame calls adopt (e :: l)).
        intros x y. unfold adopt. repeat case_match; reflexivity.
      + rewrite <- Hvirt. apply (fold_left_frame virtualizer adopt (e :: l)).
        intros x y. unfold adopt. repeat case_match; reflexivity. }
  destruct Hst' as (Hc' & Hv' & Hi' & Hch').
  split.
  - destruct (rc_changed st') eqn:Hchanged.
    + eexists. rewrite (pushes_updateVirtualizerOptions _ inst Hv'), Hc'.
      split; [reflexivity | auto].
    + exists []. cbn [world_of]. rewrite Hc', app_nil_r.
      split; [reflexivity |]. split; [auto |].
      intros Hne. apply Hch' in Hne. congruence.
  - intros Hrem.
    assert (Hitems : items (rc_world st) = items w).
    { subst st.
      apply (fold_left_invariant_in
               (fun s => items (rc_world s) = items w)); [| reflexivity].
      intros s m Hm Hs. unfold visit_mutation.
      assert (Hadded : items (rc_world (fold_left visit_added (addedNodes m) s))
                       = items w).
      { etrans; [| exact Hs].
        apply (fold_left_frame (fun s => items (rc_world s))),
          items_visit_added. }
      rewrite quiet_removed; [exact Hadded |].
      intros n Hn Hel. rewrite Hadded. apply (Hrem m n); assumption. }
    assert (Hfinal : items (world_of
              (if rc_changed st' then updateVirtualizerOptions (rc_world st')
               else Done (rc_world st'))) = items w ++ added).
    { destruct (rc_changed st'); cbn [world_of];
        rewrite ?items_updateVirtualizerOptions, Hi', Hitems; reflexivity. }
    split; [exact Hfinal |].
    unfold createOptions. cbn [opt_count]. rewrite Hfinal, length_app.
    reflexivity.
Qed.

(** ** The options the engine holds *)

Lemma pushed_kept w w' : kept w' = kept w -> pushed w -> pushed w'.
Proof.
  unfold kept, pushed, createOptions. intros Hk Hp inst.
  injection Hk as Hv _ Hi _ _ Hc _ Hinst.
  rewrite Hv, Hi, Hc, Hinst. apply Hp.
Qed.

Lemma pushed_updateVirtualizerOptions w :
  mounted_ok w -> pushed (world_of (updateVirtualizerOptions w)).
Proof.
  intros Hok inst Hv.
  assert (Hcore := core_updateVirtualizerOptions w).
  unfold core in Hcore. injection Hcore as Hvirt _ _ _.
  rewrite Hvirt in Hv.
  destruct (Hok inst Hv) as (Hlt & _).
  apply lookup_lt_is_Some in Hlt as [v Hlook].
  rewrite (updateVirtualizerOptions_pushes w inst v Hv Hlook).
  unfold createOptions.
  rewrite items_updateVirtualizerOptions, config_updateVirtualizerOptions.
  reflexivity.
Qed.

Lemma pushed_mountVirtualizer w :
  mounted_ok w -> pushed (world_of (mountVirtualizer w)).
Proof.
  intros Hok.
  destruct (shadow w) as [sh |] eqn:Hsh.
  - destruct (virtualizer w) as [inst |] eqn:Hv.
    + replace (mountVirtualizer w) with (updateVirtualizerOptions w)
        by (unfold mountVirtualizer, updateVirtualizerOptions;
            rewrite Hsh, Hv; reflexivity).
      apply pushed_updateVirtualizerOptions, Hok.
    + unfold mountVirtualizer. rewrite Hsh, Hv. cbv zeta.
      match goal with |- pushed (world_of (render ?x)) =>
        apply (pushed_kept x); [apply kept_render |] end.
      intros inst [= <-]. simpl.
      rewrite lookup_app_r by lia. rewrite Nat.sub_diag. reflexivity.
  - unfold mountVirtualizer. rewrite Hsh. simpl.
    intros inst Hv. destruct (Hok inst Hv) as (_ & Hs & _).
    unfold has_shadow in Hs. rewrite Hsh in Hs. discriminate.
Qed.

Lemma engine_view_visit_mutations batch st :
  engine_view (rc_world (fold_left visit_mutation batch st))
  = engine_view (rc_world st).
Proof.
  apply (fold_left_frame (fun st => engine_view (rc_world st))).
  intros st' m. unfold visit_mutation.
  etrans; [apply (fold_left_frame (fun st => engine_view (rc_world st))) |
           apply (fold_left_frame (fun st => engine_view (rc_world st)))].
  - intros s n. unfold visit_removed. repeat case_match; reflexivity.
  - intros s n. unfold visit_added. repeat case_match; reflexivity.
Qed.

Lemma engine_view_adopt l w :
  engine_view (fold_left adopt l w) = engine_view w.
Proof.
  apply (fold_left_frame engine_view).
  intros x y. unfold adopt. repeat case_match; reflexivity.
Qed.

Lemma unchanged_batch_items batch w :
  let st := fold_left visit_mutation batch (mkReconcile w [] false) in
  rc_changed st = false -> items (rc_world st) = items w.
Proof.
  cbv zeta.
  apply (fold_left_invariant
           (fun s => rc_changed s = false -> items (rc_world s) = items w));
    [reflexivity |].
  intros s m Hs. unfold visit_mutation.
  apply (fold_left_invariant
           (fun s => rc_changed s = false -> items (rc_world s) = items w)).
  - apply (fold_left_invariant
             (fun s => rc_changed s = false -> items (rc_world s) = items w));
      [exact Hs |].
    intros s' n Hs'. unfold visit_added. repeat case_match; exact Hs'.
  - intros s' n Hs'. unfold visit_removed.
    repeat case_match; try exact Hs'. discriminate.
Qed.

Lemma mounted_ok_engine_view w w' :
  engine_view w' = engine_view w -> mounted_ok w -> mounted_ok w'.
Proof.
  unfold engine_view, mounted_ok. intros Heq Hok inst Hv.
  injection Heq as Hvirt _ Hinst Hinit Hsh.
  rewrite Hinst, Hinit, Hsh. apply Hok. congruence.
Qed.

Lemma pushed_handleLightDomMutations batch w :
  mounted_ok w -> pushed w ->
  pushed (world_of (handleLightDomMutations batch w)).
Proof.
  intros Hok Hp. unfold handleLightDomMutations. cbv zeta.
  pose proof (unchanged_batch_items batch w) as Hitems. cbv zeta in Hitems.
  pose proof (engine_view_visit_mutations batch (mkReconcile w [] false)) as Hview.
  set (st := fold_left visit_mutation batch (mkReconcile w [] false)) in *.
  cbn [rc_world] in Hview.
  destruct (rc_additions st) as [| e l].
  - destruct (rc_changed st) eqn:Hch.
    + apply pushed_updateVirtualizerOptions.
      apply (mounted_ok_engine_view w); assumption.
    + cbn [world_of]. specialize (Hitems eq_refl).
      unfold engine_view in Hview. injection Hview as Hv Hc Hinst _ _.
      intros inst. unfold createOptions.
      rewrite Hv, Hc, Hinst, Hitems. apply Hp.
  - cbn [rc_changed rc_world].
    apply pushed_updateVirtualizerOptions.
    apply (mounted_ok_engine_view w); [| exact Hok].
    rewrite engine_view_adopt. exact Hview.
Qed.

Lemma pushed_step w i :
  mounted_ok w -> pushed w -> pushed (world_of (step w i)).
Proof.
  intros Hok Hp. destruct i; simpl.
  - unfold connectedCallback. destruct (initialized w) eqn:Hinit.
    + apply pushed_mountVirtualizer.
      apply (mounted_ok_engine_view w); [reflexivity | exact Hok].
    + pose proof (mounted_ok_step w Connected Hok) as Hok'. simpl in Hok'.
      unfold connectedCallback in Hok'. rewrite Hinit in Hok'.
      unfold initialize in *. cbv zeta in *.
      assert (Hnone : virtualizer w = None).
      { destruct (virtualizer w) as [inst |] eqn:Hv; [| reflexivity].
        destruct (Hok inst Hv) as (_ & _ & Hi). congruence. }
      set (w2 := match hostAttributes (set_initialized true w) !! "role" with
                 | Some _ => _ | None => _ end) in *.
      assert (Hv2 : virtualizer w2 = None)
        by (subst w2; destruct (_ !! "role"); exact Hnone).
      clearbody w2.
      pose proof (core_captureChildren w2) as Hc.
      pose proof (core_applyInitialAttributes (setupShadowDom (captureChildren w2)))
        as Hcore.
      unfold core in Hc, Hcore.
      injection Hc as Hcv _ _ _. injection Hcore as Hav _ _ _.
      change (virtualizer (setupShadowDom ?x)) with (virtualizer x) in Hav.
      destruct (applyInitialAttributes _) as [w5 | w5]; simpl in *.
      * apply pushed_mountVirtualizer.
        intros inst Hinst. simpl in Hinst. congruence.
      * intros inst Hinst. congruence.
  - intros inst Hv.
    pose proof (disconnectedCallback_forgets w) as [Hnone _]. congruence.
  - unfold attributeChangedCallback.
    destruct (decide (oldValue = newValue)); [exact Hp |].
    apply pushed_updateVirtualizerOptions.
    apply (mounted_ok_core w); [| exact Hok].
    repeat case_match; reflexivity.
  - apply pushed_handleLightDomMutations; assumption.
  - unfold setVirtualState.
    destruct (virtualizerInstances w !! inst) as [v |] eqn:Hlook; [| exact Hp].
    match goal with |- pushed (world_of (onChange inst ?x)) =>
      assert (Hx : pushed x) end.
    { intros i Hv. specialize (Hp i Hv).
      change (createOptions (set_virtualizerInstances _ w))
        with (createOptions w).
      cbn [set_virtualizerInstances virtualizerInstances].
      rewrite list_lookup_alter.
      destruct (decide (inst = i)) as [Hi | Hi]; [| exact Hp].
      rewrite <- Hi in Hp. rewrite Hlook in *. exact Hp. }
    unfold onChange. simpl.
    destruct (decide (virtualizer w = Some inst)); [| exact Hx].
    eapply pushed_kept; [apply kept_render | exact Hx].
  - unfold runFrame. destruct (bool_decide _); [| exact Hp].
    eapply pushed_kept; [apply kept_measure |].
    eapply pushed_kept; [| exact Hp]. reflexivity.
  - unfold runMicrotask. destruct (microtasks (host w)); [exact Hp |].
    eapply pushed_kept; [apply kept_measure |].
    eapply pushed_kept; [| exact Hp]. reflexivity.
  - eapply pushed_kept; [| exact Hp].
    change (kept (set_childNodes ?x ?y)) with (kept y). apply kept_detach.
  - eapply pushed_kept; [| exact Hp]. reflexivity.
  - eapply pushed_kept; [| exact Hp]. reflexivity.
Qed.

Lemma reachable_pushed w : Reachable w -> pushed w.
Proof.
  induction 1 as [raf caf hostAttrs children attrs | w i Hw IH].
  - intros inst Hv. discriminate Hv.
  - apply pushed_step; [apply reachable_mounted_ok, Hw | exact IH].
Qed.

(** X13.  Whatever the page does, the instance the element retains holds
    the option set of the registry and configuration as they are now: its
    count is the registry length, its overscan, paddings and axis are the
    configured ones. *)
Theorem engine_options_are_current (w : World) (inst : nat) :
  Reachable w -> virtualizer w = Some inst ->
  exists v, virtualizerInstances w !! inst = Some v /\
    options v = createOptions w /\
    opt_count (options v) = length (items w) /\
    opt_overscan (options v) = overscan (config w) /\
    opt_horizontal (options v)
    = bool_decide (orientation (config w) = horizontal).
Proof.
  intros Hreach Hv.
  pose proof (reachable_pushed w Hreach inst Hv) as Hp.
  destruct (virtualizerInstances w !! inst) as [v |]; [| discriminate].
  injection Hp as Hp. exists v. rewrite Hp. auto.
Qed.

(** ** Where nothing throws *)

Lemma safe_host_sched w w' : sched w' = sched w -> safe_host w -> safe_host w'.
Proof.
  unfold sched, safe_host. intros Heq. injection Heq as Hh _. rewrite Hh. auto.
Qed.

Lemma safe_host_steady w w' : steady w w' -> safe_host w -> safe_host w'.
Proof.
  unfold safe_host. intros (Hraf & Hcaf & _). rewrite Hraf, Hcaf. auto.
Qed.

Lemma returns_Done o : returns o -> exists w, o = Done w.
Proof. destruct o as [w | w]; [eauto | contradiction]. Qed.

Lemma returns_scheduleMeasurement w :
  safe_host w -> returns (scheduleMeasurement w).
Proof.
  unfold safe_host, scheduleMeasurement. intros Hsafe.
  repeat case_match; simpl; try exact I. destruct Hsafe; congruence.
Qed.

Lemma returns_render w : safe_host w -> returns (render w).
Proof.
  intros Hsafe. unfold render.
  destruct (virtualizer w) as [inst |]; [| exact I].
  destruct (shadow w); [| exact I].
  apply returns_scheduleMeasurement.
  eapply safe_host_sched; [apply sched_render_tree | exact Hsafe].
Qed.

Lemma returns_updateVirtualizerOptions w :
  safe_host w -> returns (updateVirtualizerOptions w).
Proof.
  intros Hsafe. unfold updateVirtualizerOptions.
  destruct (virtualizer w) as [inst |]; [| exact I].
  apply returns_render. exact Hsafe.
Qed.

Lemma returns_attributeChangedCallback name oldValue newValue w :
  safe_host w -> returns (attributeChangedCallback name oldValue newValue w).
Proof.
  intros Hsafe. unfold attributeChangedCallback.
  destruct (decide (oldValue = newValue)); [exact I |].
  apply returns_updateVirtualizerOptions.
  eapply safe_host_sched; [| exact Hsafe].
  repeat case_match; reflexivity.
Qed.

Lemma returns_handleLightDomMutations batch w :
  safe_host w -> returns (handleLightDomMutations batch w).
Proof.
  intros Hsafe. unfold handleLightDomMutations. cbv zeta.
  set (st := fold_left visit_mutation batch (mkReconcile w [] false)).
  assert (Hst : sched (rc_world st) = sched w).
  { subst st.
    etrans; [apply (fold_left_frame (fun st => sched (rc_world st))) |
             reflexivity].
    apply sched_visit_mutation. }
  destruct (rc_additions st) as [| e l].
  - destruct (rc_changed st); [| exact I].
    apply returns_updateVirtualizerOptions.
    eapply safe_host_sched; [exact Hst | exact Hsafe].
  - cbn [rc_changed rc_world]. apply returns_updateVirtualizerOptions.
    eapply safe_host_sched; [| exact Hsafe].
    etrans; [apply (fold_left_frame sched) | exact Hst].
    apply sched_adopt.
Qed.

Lemma returns_for_each {A : Type} (l : list A) (body : A -> World -> Outcome) w :
  (forall x w', safe_host w' ->
     returns (body x w') /\ safe_host (world_of (body x w'))) ->
  safe_host w ->
  returns (for_each l body w) /\ safe_host (world_of (for_each l body w)).
Proof.
  intros Hbody. revert w.
  induction l as [| x l IH]; intros w Hsafe; simpl;
    [split; [exact I | exact Hsafe] |].
  destruct (Hbody x w Hsafe) as [Hret Hsafe'].
  destruct (body x w) as [w' | w']; [| contradiction].
  simpl. apply IH. exact Hsafe'.
Qed.

Lemma returns_applyInitialAttributes w :
  safe_host w ->
  returns (applyInitialAttributes w) /\
  safe_host (world_of (applyInitialAttributes w)).
Proof.
  intros Hsafe. unfold applyInitialAttributes. cbv zeta.
  apply returns_for_each; [| exact Hsafe].
  intros name w' Hsafe'.
  destruct (hostAttributes w' !! name) as [value |];
    [| split; [exact I | exact Hsafe']].
  split; [apply returns_attributeChangedCallback, Hsafe' |].
  eapply safe_host_steady; [apply steady_attributeChangedCallback | exact Hsafe'].
Qed.

Lemma returns_mountVirtualizer w :
  safe_host w -> returns (mountVirtualizer w).
Proof.
  intros Hsafe. unfold mountVirtualizer.
  destruct (shadow w); [| exact I].
  destruct (virtualizer w) as [inst |]; apply returns_render, Hsafe.
Qed.

Lemma returns_connectedCallback w :
  safe_host w -> returns (connectedCallback w).
Proof.
  intros Hsafe. unfold connectedCallback.
  destruct (initialized w); [apply returns_mountVirtualizer, Hsafe |].
  unfold initialize. cbv zeta.
  match goal with |- returns (applyInitialAttributes ?x >>> _) =>
    destruct (returns_applyInitialAttributes x) as [Hret Hsafe'] end.
  { eapply safe_host_sched; [| exact Hsafe].
    etrans; [apply sched_captureChildren |].
    destruct (_ !! "role"); reflexivity. }
  destruct (applyInitialAttributes _) as [w5 | w5]; [| contradiction].
  simpl. apply returns_mountVirtualizer. exact Hsafe'.
Qed.

Lemma returns_step w i : safe_host w -> returns (step w i).
Proof.
  intros Hsafe. destruct i; simpl; try exact I.
  - apply returns_connectedCallback, Hsafe.
  - apply returns_attributeChangedCallback, Hsafe.
  - apply returns_handleLightDomMutations, Hsafe.
  - unfold setVirtualState.
    destruct (virtualizerInstances w !! inst); [| exact I].
    unfold onChange. case_decide; [| exact I].
    apply returns_render, Hsafe.
Qed.

(** X14.  In a page that has [cancelAnimationFrame], or that has no
    [requestAnimationFrame] either, nothing the page does to the element
    throws: every callback returns, and the page stays such a page. *)
Theorem no_step_throws (w : World) (i : Input) :
  safe_host w ->
  (exists w', step w i = Done w') /\ safe_host (world_of (step w i)).
Proof.
  intros Hsafe. split.
  - apply returns_Done, returns_step, Hsafe.
  - eapply safe_host_steady; [apply steady_step | exact Hsafe].
Qed.

(** ** The first activation *)

Lemma besides_dom_captureChildren w :
  besides_dom (captureChildren w) = besides_dom w.
Proof.
  unfold captureChildren. cbv zeta.
  change (besides_dom (set_items ?l ?x)) with (besides_dom x).
  etrans; [apply (fold_left_frame (fun st => besides_dom (fst st))) |
           reflexivity].
  intros st n. unfold capture_node. cbv zeta.
  destruct (isElementNode n); [destruct (hasAttribute (fst st) n "role") |];
    reflexivity.
Qed.

Lemma set_config_same w : set_config (config w) w = w.
Proof. destruct w. reflexivity. Qed.

Lemma attributeChangedCallback_unmounted name oldValue newValue w :
  virtualizer w = None ->
  exists c,
    attributeChangedCallback name oldValue newValue w = Done (set_config c w) /\
    (name <> "orientation" -> orientation c = orientation (config w)).
Proof.
  intros Hv. unfold attributeChangedCallback.
  destruct (decide (oldValue = newValue)).
  { exists (config w). rewrite set_config_same. auto. }
  cbv zeta.
  match goal with |- exists c, updateVirtualizerOptions ?x = _ /\ _ =>
    exists (config x);
    assert (Hx : x = set_config (config x) w /\
                 (name <> "orientation" ->
                  orientation (config x) = orientation (config w))) end.
  { destruct (String.eqb name "orientation") eqn:Hname.
    - apply String.eqb_eq in Hname. split; [reflexivity | congruence].
    - repeat case_match; split; try reflexivity;
        symmetry; apply set_config_same. }
  destruct Hx as [Hx Ho]. split; [| exact Ho].
  rewrite <- Hx. unfold updateVirtualizerOptions.
  replace (virtualizer _) with (virtualizer w); [rewrite Hv; reflexivity |].
  rewrite Hx. reflexivity.
Qed.

Lemma applyInitialAttributes_unmounted w :
  virtualizer w = None ->
  exists c,
    applyInitialAttributes w = Done (set_config c w) /\
    orientation c
    = (if decide (hostAttributes w !! "orientation" = Some "horizontal")
       then horizontal else vertical).
Proof.
  intros Hv. unfold applyInitialAttributes. cbv zeta.
  set (o := if decide (hostAttributes w !! "orientation" = Some "horizontal")
            then horizontal else vertical).
  assert (Hloop : forall l c0,
    (forall name, name ∈ l -> name <> "orientation") ->
    exists c,
      for_each l
        (fun name w' =>
           match hostAttributes w' !! name with
           | Some value => attributeChangedCallback name None (Some value) w'
           | None => Done w'
           end) (set_config c0 w) = Done (set_config c w) /\
      orientation c = orientation c0).
  { induction l as [| name l IH]; intros c0 Hl; simpl; [eauto |].
    assert (Hstep : exists c1,
      match hostAttributes w !! name with
      | Some value =>
          attributeChangedCallback name None (Some value) (set_config c0 w)
      | None => Done (set_config c0 w)
      end = Done (set_config c1 w) /\ orientation c1 = orientation c0).
    { destruct (hostAttributes w !! name) as [value |]; [| eauto].
      destruct (attributeChangedCallback_unmounted name None (Some value)
                  (set_config c0 w) Hv) as (c1 & Hc1 & Ho).
      exists c1. split; [exact Hc1 |].
      apply Ho, Hl, elem_of_cons. auto. }
    destruct Hstep as (c1 & Hc1 & Ho1). rewrite Hc1. simpl.
    destruct (IH c1) as (c & Hc & Ho).
    { intros name' Hn. apply Hl, elem_of_cons. auto. }
    exists c. split; [exact Hc | congruence]. }
  destruct (Hloop NUMBER_ATTRIBUTES (set_orientation o (config w)))
    as (c & Hc & Ho).
  { intros name Hn. unfold NUMBER_ATTRIBUTES in Hn.
    repeat (apply elem_of_cons in Hn as [-> | Hn]; [discriminate |]).
    apply elem_of_nil in Hn. contradiction. }
  exists c. split; [exact Hc | exact Ho].
Qed.

(** X15.  The first activation of an element turns it into a running
    list: the host gets the role list unless it has a role, its other
    attributes stay; the element nodes among its children become the
    registry, in document order, and the host keeps no child; the observer
    is observing; one new instance is created with the option set of that
    registry, mounted, and retained together with its cleanup; nothing is
    rendered yet, the new instance having no window; the orientation is the
    one the host's attribute gives; and the engine sees the construction,
    [_willUpdate] and [_didMount], in this order, and nothing else. *)
Theorem connecting_first_activates (w : World) :
  Reachable w -> initialized w = false ->
  let w' := world_of (connectedCallback w) in
  let inst := length (virtualizerInstances w) in
  initialized w' = true /\
  hostAttributes w' !! "role"
  = Some (default "list" (hostAttributes w !! "role")) /\
  (forall name, name <> "role" ->
     hostAttributes w' !! name = hostAttributes w !! name) /\
  items w' = List.filter isElementNode (childNodes w) /\
  childNodes w' = [] /\
  mutationObserver w' = Some true /\
  virtualizer w' = Some inst /\
  virtualizerCleanup w' = Some inst /\
  virtualizerInstances w'
  = virtualizerInstances w ++ [mkVirtualizer (createOptions w') [] (Finite 0)] /\
  (exists sh, shadow w' = Some sh /\ items_children sh = []) /\
  orientation (config w')
  = (if decide (hostAttributes w !! "orientation" = Some "horizontal")
     then horizontal else vertical) /\
  List.filter isLifecycle (calls w')
  = List.filter isLifecycle (calls w)
    ++ [CallNew inst; CallWillUpdate inst; CallDidMount inst].
Proof.
  intros Hreach Hinit w' inst.
  assert (Hnone : virtualizer w = None).
  { destruct (virtualizer w) as [i |] eqn:Hv; [| reflexivity].
    destruct (reachable_mounted_ok w Hreach i Hv) as (_ & _ & Hi). congruence. }
  subst w'. unfold connectedCallback. rewrite Hinit.
  unfold initialize. cbv zeta.
  set (w2 := match hostAttributes (set_initialized true w) !! "role" with
             | Some _ => _ | None => _ end).
  assert (Hrole : hostAttributes w2 !! "role"
                  = Some (default "list" (hostAttributes w !! "role")) /\
                  forall name, name <> "role" ->
                    hostAttributes w2 !! name = hostAttributes w !! name).
  { subst w2. simpl. destruct (hostAttributes w !! "role") eqn:Hr; simpl.
    - auto.
    - split; [apply lookup_insert_eq |].
      intros name Hname. apply lookup_insert_ne. congruence. }
  assert (Hw2 : (virtualizer w2, virtualizerCleanup w2, childNodes w2,
                 virtualizerInstances w2, calls w2, initialized w2)
                = (None, virtualizerCleanup w, childNodes w,
                   virtualizerInstances w, calls w, true)).
  { clear Hrole. subst w2. simpl. rewrite <- Hnone.
    destruct (hostAttributes w !! "role"); reflexivity. }
  injection Hw2 as Hv2 Hcl2 Hch2 Hi2 Hcalls2 Hinit2.
  destruct Hrole as [Hrole Hother]. clearbody w2.
  destruct (captureChildren_registry w2) as [Hitems Hchildren].
  pose proof (besides_dom_captureChildren w2) as Hb.
  set (wc := captureChildren w2) in *. clearbody wc.
  unfold besides_dom in Hb.
  injection Hb as Hbv Hbc _ Hbi _ _ _ Hbh Hbinst _ Hbcalls.
  destruct (applyInitialAttributes_unmounted (setupShadowDom wc))
    as (c & Happly & Ho).
  { simpl. congruence. }
  rewrite Happly. cbn [and_then].
  unfold mountVirtualizer.
  cbn [startObservingLightDom setupShadowDom shadow set_mutationObserver
       set_config set_shadow virtualizer].
  rewrite Hbv, Hv2. cbv zeta.
  match goal with |- context [world_of (render ?x)] =>
    remember x as wm eqn:Hwm end.
  pose proof (kept_render wm) as Hk. unfold kept in Hk.
  injection Hk as Hkv Hkc Hki Hkinit Hko Hkconf Hkh Hkinst.
  assert (Hinst : inst = length (virtualizerInstances wc))
    by (subst inst; congruence).
  split; [rewrite Hkinit; subst wm; simpl; congruence |].
  split; [rewrite Hkh; subst wm; simpl; congruence |].
  split; [intros name Hname; rewrite Hkh; subst wm; simpl; rewrite Hbh;
          apply Hother, Hname |].
  split; [rewrite Hki; subst wm; simpl; congruence |].
  split.
  { apply elem_of_nil_inv. intros n Hn. apply childNodes_render in Hn.
    subst wm. simpl in Hn. rewrite Hchildren in Hn.
    apply elem_of_nil in Hn. exact Hn. }
  split; [rewrite Hko; subst wm; reflexivity |].
  split; [rewrite Hkv; subst wm; simpl; congruence |].
  split; [rewrite Hkc; subst wm; simpl; congruence |].
  split.
  { rewrite Hkinst. unfold createOptions. rewrite Hki, Hkconf.
    subst wm. simpl. rewrite Hbinst, Hi2. reflexivity. }
  split.
  { assert (Hwv : virtualizer wm = Some (length (virtualizerInstances wc)))
      by (subst wm; reflexivity).
    assert (Hws : shadow wm = Some (mkShadow "" "" "" []))
      by (subst wm; reflexivity).
    unfold render. rewrite Hwv, Hws.
    destruct (scheduleMeasurement_tree
                (render_tree (length (virtualizerInstances wc)) wm))
      as (_ & Hs & _).
    destruct (render_tree_loop (length (virtualizerInstances wc)) wm
                (mkShadow "" "" "" []) Hws) as (_ & _ & Hshadow).
    rewrite Hs, Hshadow. eexists. split; [reflexivity |].
    unfold getVirtualItems. subst wm. simpl.
    rewrite lookup_app_r by lia. rewrite Nat.sub_diag. reflexivity. }
  split.
  { rewrite Hkconf. subst wm. simpl. rewrite Ho. simpl.
    rewrite Hbh, (Hother "orientation") by discriminate. reflexivity. }
  destruct (calls_render wm) as (extra & Hcalls & Hextra).
  rewrite Hcalls, List.filter_app.
  replace (List.filter isLifecycle extra) with (@nil Call).
  - rewrite app_nil_r. subst wm. simpl. unfold record. simpl.
    rewrite !List.filter_app. simpl. rewrite Hbcalls, Hcalls2, Hbinst, Hi2.
    rewrite <- !app_assoc. reflexivity.
  - clear -Hextra. induction extra as [| x extra IH]; [reflexivity |].
    simpl in *. apply andb_prop in Hextra as [Hx Hrest].
    unfold isLifecycle at 1. rewrite Hx. simpl. apply IH, Hrest.
Qed.

(** ** Activation after a deactivation *)

Lemma built_core w w' : core w' = core w -> built w -> built w'.
Proof.
  unfold core, built. intros Heq. injection Heq as _ Hi _ Hs.
  rewrite Hi, Hs. auto.
Qed.

Lemma core_disconnectedCallback w :
  initialized (disconnectedCallback w) = initialized w /\
  shadow (disconnectedCallback w) = shadow w.
Proof.
  destruct w as [v c its sh ini [mo |] cfg [h |] ha cn att vi [raf [|] fr nh mi] cl];
    destruct c, v; split; reflexivity.
Qed.

Lemma built_mountVirtualizer w :
  built w -> built (world_of (mountVirtualizer w)).
Proof.
  unfold mountVirtualizer.
  destruct (shadow w) eqn:Hsh; [| auto].
  destruct (virtualizer w); cbv zeta; intros Hb;
    (eapply built_core; [apply core_render |]);
    unfold built, has_shadow in *; simpl; rewrite Hsh in *; auto.
Qed.

Lemma built_step w i : built w -> built (world_of (step w i)).
Proof.
  intros Hb. destruct i; simpl.
  - unfold connectedCallback. destruct (initialized w) eqn:Hinit.
    + apply built_mountVirtualizer. exact Hb.
    + unfold initialize. cbv zeta.
      match goal with |- built (world_of (applyInitialAttributes ?x >>> _)) =>
        pose proof (core_applyInitialAttributes x) as Hcore end.
      unfold core in Hcore. injection Hcore as _ _ _ Hs.
      destruct (applyInitialAttributes _) as [w5 | w5]; simpl in *.
      * apply built_mountVirtualizer. intros _. exact Hs.
      * intros _. exact Hs.
  - destruct (core_disconnectedCallback w) as [Hi Hs].
    unfold built, has_shadow. rewrite Hi, Hs. exact Hb.
  - eapply built_core; [apply core_attributeChangedCallback | exact Hb].
  - eapply built_core; [apply core_handleLightDomMutations | exact Hb].
  - eapply built_core; [apply core_setVirtualState | exact Hb].
  - unfold runFrame. destruct (bool_decide _); [| exact Hb].
    eapply built_core; [apply core_measure |]. exact Hb.
  - unfold runMicrotask. destruct (microtasks (host w)); [exact Hb |].
    eapply built_core; [apply core_measure |]. exact Hb.
  - eapply built_core; [| exact Hb].
    change (core (set_childNodes ?x ?y)) with (core y). apply core_detach.
  - exact Hb.
  - exact Hb.
Qed.

Lemma reachable_built w : Reachable w -> built w.
Proof.
  induction 1 as [raf caf hostAttrs children attrs | w i Hw IH].
  - intros Hi. discriminate Hi.
  - apply built_step, IH.
Qed.

Lemma render_empty_window w inst sh :
  virtualizer w = Some inst -> shadow w = Some sh ->
  getVirtualItems w inst = [] ->
  childNodes (world_of (render w)) = childNodes w /\
  attributes (world_of (render w)) = attributes w /\
  exists sh', shadow (world_of (render w)) = Some sh' /\ items_children sh' = [].
Proof.
  intros Hv Hsh Hwin. unfold render. rewrite Hv, Hsh.
  destruct (scheduleMeasurement_tree (render_tree inst w)) as (Ha & Hs & Hc).
  destruct (render_tree_loop inst w sh Hsh) as (Hattr & Hchild & Hshadow).
  rewrite Hwin in *. simpl in *.
  rewrite Ha, Hs, Hc, Hattr, Hchild, Hshadow.
  split; [reflexivity |]. split; [reflexivity |].
  eexists. split; reflexivity.
Qed.

Lemma lifecycle_scheduling (extra : list Call) :
  forallb isScheduling extra = true -> List.filter isLifecycle extra = [].
Proof.
  induction extra as [| x extra IH]; [reflexivity |].
  simpl. intros Hextra. apply andb_prop in Hextra as [Hx Hrest].
  unfold isLifecycle at 1. rewrite Hx. simpl. apply IH, Hrest.
Qed.

Lemma mountVirtualizer_creates w sh :
  virtualizer w = None -> shadow w = Some sh ->
  let w' := world_of (mountVirtualizer w) in
  let inst := length (virtualizerInstances w) in
  kept w'
  = (Some inst, Some inst, items w, initialized w, mutationObserver w,
     config w, hostAttributes w,
     virtualizerInstances w ++ [mkVirtualizer (createOptions w) [] (Finite 0)]) /\
  childNodes w' = childNodes w /\
  attributes w' = attributes w /\
  (exists sh', shadow w' = Some sh' /\ items_children sh' = []) /\
  List.filter isLifecycle (calls w')
  = List.filter isLifecycle (calls w)
    ++ [CallNew inst; CallWillUpdate inst; CallDidMount inst].
Proof.
  intros Hv Hsh. cbv zeta. unfold mountVirtualizer. rewrite Hsh, Hv. cbv zeta.
  match goal with |- context [world_of (render ?x)] =>
    remember x as wm eqn:Hwm end.
  assert (Hwv : virtualizer wm = Some (length (virtualizerInstances w)))
    by (subst wm; reflexivity).
  assert (Hws : shadow wm = Some sh) by (subst wm; exact Hsh).
  assert (Hwin : getVirtualItems wm (length (virtualizerInstances w)) = []).
  { unfold getVirtualItems. subst wm. simpl.
    rewrite lookup_app_r by lia. rewrite Nat.sub_diag. reflexivity. }
  destruct (render_empty_window wm _ sh Hwv Hws Hwin) as (Hc & Ha & Hshadow).
  split; [rewrite kept_render; subst wm; reflexivity |].
  split; [rewrite Hc; subst wm; reflexivity |].
  split; [rewrite Ha; subst wm; reflexivity |].
  split; [exact Hshadow |].
  destruct (calls_render wm) as (extra & Hcalls & Hextra).
  rewrite Hcalls, List.filter_app, (lifecycle_scheduling extra Hextra).
  rewrite app_nil_r. subst wm. simpl. unfold record. simpl.
  rewrite !List.filter_app. simpl. rewrite <- !app_assoc. reflexivity.
Qed.

(** X16.  Taking a running element out of the document and putting it
    back starts a new instance and nothing more: the registry, the host's
    children and attributes, the nodes' attributes and the configuration
    are as they were, so children are not captured a second time; the
    observer is observing again; the instance retained is a new one,
    created with the current option set; and the items container is empty
    until that instance reports a window. *)
Theorem reconnect_restarts (w : World) :
  Reachable w -> initialized w = true ->
  let w' := world_of (connectedCallback (disconnectedCallback w)) in
  let inst := length (virtualizerInstances w) in
  items w' = items w /\
  childNodes w' = childNodes w /\
  attributes w' = attributes w /\
  hostAttributes w' = hostAttributes w /\
  config w' = config w /\
  mutationObserver w' = Some true /\
  virtualizer w' = Some inst /\
  virtualizerCleanup w' = Some inst /\
  virtualizerInstances w'
  = virtualizerInstances w ++ [mkVirtualizer (createOptions w) [] (Finite 0)] /\
  (exists sh, shadow w' = Some sh /\ items_children sh = []).
Proof.
  intros Hreach Hinit. cbv zeta.
  pose proof (reachable_built w Hreach Hinit) as Hsh.
  unfold has_shadow in Hsh. destruct (shadow w) as [sh |] eqn:Hshadow;
    [clear Hsh | discriminate].
  destruct (core_disconnectedCallback w) as [Hi Hs].
  destruct (disconnectedCallback_forgets w) as [Hnone _].
  assert (Hd : (items (disconnectedCallback w), childNodes (disconnectedCallback w),
                attributes (disconnectedCallback w),
                hostAttributes (disconnectedCallback w),
                config (disconnectedCallback w),
                virtualizerInstances (disconnectedCallback w))
               = (items w, childNodes w, attributes w, hostAttributes w,
                  config w, virtualizerInstances w)).
  { clear. destruct w as [v c its sh ini [mo |] cfg [h |] ha cn att vi
                            [raf [|] fr nh mi] cl];
      destruct c, v; reflexivity. }
  injection Hd as Hitems Hchildren Hattrs Hhost Hconfig Hinst.
  unfold connectedCallback. rewrite Hi, Hinit.
  set (wd := disconnectedCallback w) in *. clearbody wd.
  destruct (mountVirtualizer_creates (startObservingLightDom wd) sh)
    as (Hk & Hc & Ha & Hshadow' & _); [exact Hnone | rewrite <- Hshadow; exact Hs |].
  unfold kept in Hk. simpl in Hk.
  injection Hk as Hkv Hkc Hki _ Hko Hkconf Hkh Hkinst.
  unfold createOptions in Hkinst. simpl in Hkinst.
  rewrite Hitems, Hconfig, Hinst in Hkinst. rewrite Hinst in Hkv, Hkc.
  repeat split; try assumption; try congruence.
  - rewrite Hc. exact Hchildren.
  - rewrite Ha. exact Hattrs.
Qed.

(** ** The life of the instances *)

Lemma accounted_life w w' : life w' = life w -> accounted w -> accounted w'.
Proof.
  unfold life, accounted. intros Heq. injection Heq as Hv Hc Hl Ht.
  rewrite Hv, Hc, Hl, Ht. auto.
Qed.

Lemma lifeline_scheduling (extra : list Call) :
  forallb isScheduling extra = true -> List.filter isNewOrCleanup extra = [].
Proof.
  induction extra as [| x extra IH]; [reflexivity |].
  simpl. intros Hextra. apply andb_prop in Hextra as [Hx Hrest].
  destruct x; try discriminate Hx; simpl; apply IH, Hrest.
Qed.

Lemma lifeline_lifecycle (l : list Call) :
  List.filter isNewOrCleanup (List.filter isLifecycle l)
  = List.filter isNewOrCleanup l.
Proof.
  induction l as [| x l IH]; [reflexivity |].
  destruct x; simpl; rewrite ?IH; reflexivity.
Qed.

Lemma life_render w : life (world_of (render w)) = life w.
Proof.
  pose proof (kept_render w) as Hk. unfold kept in Hk.
  injection Hk as Hv Hc _ _ _ _ _ Hi.
  destruct (calls_render w) as (extra & Hcalls & Hextra).
  unfold life, lifeline.
  rewrite Hv, Hc, Hi, Hcalls, List.filter_app, (lifeline_scheduling extra Hextra).
  rewrite app_nil_r. reflexivity.
Qed.

Lemma life_updateVirtualizerOptions w :
  life (world_of (updateVirtualizerOptions w)) = life w.
Proof.
  unfold updateVirtualizerOptions.
  destruct (virtualizer w) as [inst |]; [| reflexivity].
  cbv zeta. rewrite life_render.
  unfold life, lifeline. simpl. rewrite length_alter, !List.filter_app. simpl.
  rewrite !app_nil_r. reflexivity.
Qed.

Lemma life_attributeChangedCallback name oldValue newValue w :
  life (world_of (attributeChangedCallback name oldValue newValue w)) = life w.
Proof.
  unfold attributeChangedCallback.
  destruct (decide (oldValue = newValue)); [reflexivity |].
  cbv zeta. rewrite life_updateVirtualizerOptions.
  repeat case_match; reflexivity.
Qed.

Lemma life_handleLightDomMutations batch w :
  life (world_of (handleLightDomMutations batch w)) = life w.
Proof.
  unfold handleLightDomMutations. cbv zeta.
  set (st := fold_left visit_mutation batch (mkReconcile w [] false)).
  assert (Hst : life (rc_world st) = life w).
  { subst st.
    etrans; [apply (fold_left_frame (fun st => life (rc_world st))) |
             reflexivity].
    intros s m. unfold visit_mutation.
    etrans; [apply (fold_left_frame (fun st => life (rc_world st))) |
             apply (fold_left_frame (fun st => life (rc_world st)))].
    - intros s' n. unfold visit_removed. repeat case_match; reflexivity.
    - intros s' n. unfold visit_added. repeat case_match; reflexivity. }
  destruct (rc_additions st) as [| e l].
  - destruct (rc_changed st); [rewrite life_updateVirtualizerOptions |];
      exact Hst.
  - cbn [rc_changed rc_world]. rewrite life_updateVirtualizerOptions.
    etrans; [apply (fold_left_frame life) | exact Hst].
    intros x y. unfold adopt. repeat case_match; reflexivity.
Qed.

Lemma life_measure w : life (measure w) = life w.
Proof.
  unfold measure. cbv zeta.
  destruct (virtualizer (set_rafId None w)) as [inst |]; [| reflexivity].
  destruct (shadow (set_rafId None w)) as [sh |]; [| reflexivity].
  etrans; [apply (fold_left_frame life) | reflexivity].
  intros w' child. destruct (instanceofHTMLElement child); [| reflexivity].
  unfold life, lifeline. simpl. rewrite List.filter_app. simpl.
  rewrite app_nil_r. reflexivity.
Qed.

Lemma life_detach n w : life (detach n w) = life w.
Proof. unfold detach. simpl. destruct (shadow w); reflexivity. Qed.

Lemma life_setVirtualState inst window total w :
  life (world_of (setVirtualState inst window total w)) = life w.
Proof.
  unfold setVirtualState.
  destruct (virtualizerInstances w !! inst); [| reflexivity].
  unfold onChange. simpl.
  match goal with |- life (world_of (if _ then render ?x else _)) = _ =>
    assert (Hx : life x = life w)
      by (unfold life, lifeline; simpl; rewrite length_alter; reflexivity)
  end.
  destruct (decide (virtualizer w = Some inst)); [rewrite life_render |];
    exact Hx.
Qed.

Lemma life_applyInitialAttributes w :
  life (world_of (applyInitialAttributes w)) = life w.
Proof.
  unfold applyInitialAttributes. cbv zeta.
  apply (for_each_preserves (fun w' => life w' = life w)); [| reflexivity].
  intros name w' Hw'.
  destruct (hostAttributes w' !! name);
    [rewrite life_attributeChangedCallback |]; exact Hw'.
Qed.

Lemma life_captureChildren w : life (captureChildren w) = life w.
Proof.
  pose proof (besides_dom_captureChildren w) as Hb.
  set (wc := captureChildren w) in *. clearbody wc.
  unfold besides_dom in Hb.
  injection Hb as Hbv Hbc _ _ _ _ _ _ Hbi _ Hbcalls.
  unfold life, lifeline. rewrite Hbv, Hbc, Hbi, Hbcalls. reflexivity.
Qed.

Lemma lifetimes_S n : lifetimes (S n) = lifetimes n ++ [CallNew n; CallCleanup n].
Proof.
  unfold lifetimes. rewrite seq_S, flat_map_app. simpl. reflexivity.
Qed.

Lemma accounted_mountVirtualizer w :
  accounted w -> accounted (world_of (mountVirtualizer w)).
Proof.
  intros Hacc.
  destruct (shadow w) as [sh |] eqn:Hsh;
    [| unfold mountVirtualizer; rewrite Hsh; exact Hacc].
  destruct (virtualizer w) as [inst |] eqn:Hv.
  - replace (mountVirtualizer w) with (updateVirtualizerOptions w)
      by (unfold mountVirtualizer, updateVirtualizerOptions;
          rewrite Hsh, Hv; reflexivity).
    eapply accounted_life; [apply life_updateVirtualizerOptions | exact Hacc].
  - destruct (mountVirtualizer_creates w sh Hv Hsh) as (Hk & _ & _ & _ & Hcalls).
    unfold kept in Hk. injection Hk as Hkv Hkc _ _ _ _ _ Hki.
    destruct Hacc as [_ Hline]. rewrite Hv in Hline.
    unfold accounted. rewrite Hkv, Hkc, Hki. split; [reflexivity |].
    split; [rewrite length_app; simpl; lia |].
    unfold lifeline in *.
    rewrite <- lifeline_lifecycle, Hcalls, List.filter_app, lifeline_lifecycle.
    rewrite Hline. reflexivity.
Qed.

Lemma accounted_disconnectedCallback w :
  accounted w -> accounted (disconnectedCallback w).
Proof.
  unfold accounted, lifeline.
  destruct w as [v c its sh ini [mo |] cfg [h |] ha cn att vi [raf [|] fr nh mi] cl];
    simpl; intros [-> Hline]; destruct v as [inst |]; simpl;
    (split; [reflexivity |]);
    rewrite ?List.filter_app; simpl; rewrite ?app_nil_r; try exact Hline;
    destruct Hline as [<- ->]; rewrite lifetimes_S, <- app_assoc; reflexivity.
Qed.

Lemma accounted_step w i : accounted w -> accounted (world_of (step w i)).
Proof.
  intros Hacc. destruct i; simpl.
  - unfold connectedCallback. destruct (initialized w).
    + apply accounted_mountVirtualizer. exact Hacc.
    + unfold initialize. cbv zeta.
      match goal with |- accounted (world_of (applyInitialAttributes ?x >>> _)) =>
        pose proof (life_applyInitialAttributes x) as Hlife;
        assert (Hx : accounted x) end.
      { eapply accounted_life; [| exact Hacc].
        change (life (setupShadowDom ?x)) with (life x).
        rewrite life_captureChildren.
        destruct (_ !! "role"); reflexivity. }
      destruct (applyInitialAttributes _) as [w5 | w5]; simpl in *.
      * apply accounted_mountVirtualizer.
        eapply accounted_life; [| exact Hx]. exact Hlife.
      * eapply accounted_life; [| exact Hx]. exact Hlife.
  - apply accounted_disconnectedCallback, Hacc.
  - eapply accounted_life; [apply life_attributeChangedCallback | exact Hacc].
  - eapply accounted_life; [apply life_handleLightDomMutations | exact Hacc].
  - eapply accounted_life; [apply life_setVirtualState | exact Hacc].
  - unfold runFrame. destruct (bool_decide _); [| exact Hacc].
    eapply accounted_life; [apply life_measure |]. exact Hacc.
  - unfold runMicrotask. destruct (microtasks (host w)); [exact Hacc |].
    eapply accounted_life; [apply life_measure |]. exact Hacc.
  - eapply accounted_life; [| exact Hacc].
    change (life (set_childNodes ?x ?y)) with (life y). apply life_detach.
  - exact Hacc.
  - exact Hacc.
Qed.

(** X17.  Over the whole life of an element the engine sees its instances
    one after the other: each is constructed only after the one before it
    was cleaned up, each is cleaned up once, and the only instance not yet
    cleaned up is the one the element retains, which is the last one
    constructed; the element holds a cleanup exactly when it retains an
    instance. *)
Theorem instances_live_one_at_a_time (w : World) :
  Reachable w ->
  virtualizerCleanup w = virtualizer w /\
  match virtualizer w with
  | Some inst =>
      S inst = length (virtualizerInstances w) /\
      lifeline w = lifetimes inst ++ [CallNew inst]
  | None => lifeline w = lifetimes (length (virtualizerInstances w))
  end.
Proof.
  intros Hreach. change (accounted w).
  induction Hreach as [raf caf hostAttrs children attrs | w i Hw IH].
  - split; reflexivity.
  - apply accounted_step, IH.
Qed.

(** ** What the element writes *)

Lemma respects_same w w' :
  attributes w' = attributes w -> hostAttributes w' = hostAttributes w ->
  respects w w'.
Proof.
  unfold respects, getAttribute. intros -> ->.
  split; [auto |]. split; [auto |]. split; [auto |]. split; auto.
Qed.

Lemma respects_refl w : respects w w.
Proof. apply respects_same; reflexivity. Qed.

Lemma respects_trans w1 w2 w3 :
  respects w1 w2 -> respects w2 w3 -> respects w1 w3.
Proof.
  intros (Ha & Hb & Hc & Hd & He) (Ha' & Hb' & Hc' & Hd' & He').
  split; [auto |]. split; [auto |].
  split; [intros n name H1 H2 H3; rewrite Hc', Hc by assumption; reflexivity |].
  split; [auto |].
  intros name Hname. rewrite He', He by assumption. reflexivity.
Qed.

Lemma respects_setAttribute_aria item name value w :
  name = "aria-setsize" \/ name = "aria-posinset" ->
  respects w (setAttribute item name value w).
Proof.
  intros Hname. unfold respects, setAttribute, getAttribute. simpl.
  split; [| split; [| split; [| split; auto]]].
  - intros n name' Hsome.
    destruct (decide ((item, name) = (n, name'))) as [Heq | Hne].
    + rewrite Heq, lookup_insert_eq. eauto.
    + rewrite lookup_insert_ne by exact Hne. exact Hsome.
  - intros n name' v H1 H2 Hv.
    rewrite lookup_insert_ne; [exact Hv |].
    intros [= _ <-]. destruct Hname; contradiction.
  - intros n name' _ H1 H2.
    apply lookup_insert_ne.
    intros [= _ <-]. destruct Hname; contradiction.
Qed.

Lemma respects_setAttribute_role n w :
  hasAttribute w n "role" = false ->
  respects w (setAttribute n "role" "listitem" w).
Proof.
  unfold hasAttribute. intros Hnone. apply bool_decide_eq_false in Hnone.
  unfold respects, setAttribute, getAttribute in *. simpl.
  split; [| split; [| split; [| split; auto]]].
  - intros m name Hsome.
    destruct (decide ((n, "role") = (m, name))) as [Heq | Hne].
    + rewrite Heq, lookup_insert_eq. eauto.
    + rewrite lookup_insert_ne by exact Hne. exact Hsome.
  - intros m name v _ _ Hv.
    destruct (decide ((n, "role") = (m, name))) as [Heq | Hne].
    + exfalso. apply Hnone. rewrite Heq. eauto.
    + rewrite lookup_insert_ne by exact Hne. exact Hv.
  - intros m name Hname _ _.
    apply lookup_insert_ne. intros [= _ <-]. contradiction.
Qed.

Lemma respects_fold {S A : Type} (proj : S -> World) (f : S -> A -> S)
    (l : list A) (s : S) (w : World) :
  (forall s' a, respects (proj s') (proj (f s' a))) ->
  respects w (proj s) -> respects w (proj (fold_left f l s)).
Proof.
  intros Hf Hs.
  apply (fold_left_invariant (fun s' => respects w (proj s'))); [exact Hs |].
  intros s' a Hs'. eapply respects_trans; [exact Hs' | apply Hf].
Qed.

Lemma respects_update_shadow f w : respects w (update_shadow f w).
Proof.
  apply respects_same; unfold update_shadow; destruct (shadow w); reflexivity.
Qed.

Lemma respects_detach n w : respects w (detach n w).
Proof.
  apply respects_same; unfold detach; simpl; destruct (shadow w); reflexivity.
Qed.

Lemma respects_render_entry st v : respects (fst st) (fst (render_entry st v)).
Proof.
  unfold render_entry. cbv zeta.
  destruct (item_at (items (fst st)) (vi_index v)) as [item |];
    [| apply respects_refl].
  unfold appendToFragment. cbn [fst].
  eapply respects_trans; [| apply respects_detach].
  eapply respects_trans; apply respects_setAttribute_aria; auto.
Qed.

Lemma respects_render_tree inst w : respects w (render_tree inst w).
Proof.
  unfold render_tree. cbv zeta.
  eapply respects_trans; [| apply respects_update_shadow].
  eapply respects_trans; [| apply respects_update_shadow].
  apply (respects_fold fst); [apply respects_render_entry |].
  apply respects_update_shadow.
Qed.

Lemma respects_scheduleMeasurement w :
  respects w (world_of (scheduleMeasurement w)).
Proof.
  apply respects_same.
  - apply scheduleMeasurement_tree.
  - pose proof (kept_scheduleMeasurement w) as Hk. unfold kept in Hk.
    injection Hk as _ _ _ _ _ _ Hh _. exact Hh.
Qed.

Lemma respects_render w : respects w (world_of (render w)).
Proof.
  unfold render.
  destruct (virtualizer w) as [inst |]; [| apply respects_refl].
  destruct (shadow w); [| apply respects_refl].
  eapply respects_trans;
    [apply respects_render_tree | apply respects_scheduleMeasurement].
Qed.

Lemma respects_updateVirtualizerOptions w :
  respects w (world_of (updateVirtualizerOptions w)).
Proof.
  unfold updateVirtualizerOptions.
  destruct (virtualizer w) as [inst |]; [| apply respects_refl].
  cbv zeta. eapply respects_trans; [| apply respects_render].
  apply respects_same; reflexivity.
Qed.

Lemma respects_attributeChangedCallback name oldValue newValue w :
  respects w (world_of (attributeChangedCallback name oldValue newValue w)).
Proof.
  unfold attributeChangedCallback.
  destruct (decide (oldValue = newValue)); [apply respects_refl |].
  cbv zeta. eapply respects_trans; [| apply respects_updateVirtualizerOptions].
  apply respects_same; repeat case_match; reflexivity.
Qed.

Lemma respects_adopt w e : respects w (adopt w e).
Proof.
  unfold adopt. cbv zeta.
  match goal with |- respects w (set_items _ ?x) =>
    apply (respects_trans w x); [| apply respects_same; reflexivity] end.
  match goal with |- respects w (if _ then removeChild e ?x else _) =>
    apply (respects_trans w x);
      [| destruct (parentIsHost x e); apply respects_same; reflexivity] end.
  destruct (hasAttribute w e "role") eqn:Hrole;
    [apply respects_refl | apply respects_setAttribute_role, Hrole].
Qed.

Lemma respects_handleLightDomMutations batch w :
  respects w (world_of (handleLightDomMutations batch w)).
Proof.
  unfold handleLightDomMutations. cbv zeta.
  set (st := fold_left visit_mutation batch (mkReconcile w [] false)).
  assert (Hst : respects w (rc_world st)).
  { subst st. apply (respects_fold rc_world); [| apply respects_refl].
    intros s m. unfold visit_mutation.
    apply (respects_fold rc_world).
    - intros s' n. apply respects_same;
        unfold visit_removed; repeat case_match; reflexivity.
    - apply (respects_fold rc_world); [| apply respects_refl].
      intros s' n. apply respects_same;
        unfold visit_added; repeat case_match; reflexivity. }
  destruct (rc_additions st) as [| e l].
  - destruct (rc_changed st); [| exact Hst].
    eapply respects_trans;
      [exact Hst | apply respects_updateVirtualizerOptions].
  - cbn [rc_changed rc_world].
    eapply respects_trans; [| apply respects_updateVirtualizerOptions].
    apply (respects_fold (fun x => x)); [apply respects_adopt | exact Hst].
Qed.

Lemma respects_captureChildren w : respects w (captureChildren w).
Proof.
  unfold captureChildren. cbv zeta.
  match goal with |- respects w (set_items _ ?x) =>
    apply (respects_trans w x); [| apply respects_same; reflexivity] end.
  apply (respects_fold fst); [| apply respects_refl].
  intros st n. unfold capture_node. cbv zeta.
  destruct (isElementNode n); [| apply respects_same; reflexivity].
  cbn [fst].
  match goal with |- respects _ (removeChild n ?x) =>
    apply (respects_trans _ x); [| apply respects_same; reflexivity] end.
  destruct (hasAttribute (fst st) n "role") eqn:Hrole;
    [apply respects_refl | apply respects_setAttribute_role, Hrole].
Qed.

Lemma respects_mountVirtualizer w :
  respects w (world_of (mountVirtualizer w)).
Proof.
  unfold mountVirtualizer.
  destruct (shadow w); [| apply respects_refl].
  destruct (virtualizer w); cbv zeta;
    (eapply respects_trans; [| apply respects_render]);
    apply respects_same; reflexivity.
Qed.

Lemma respects_applyInitialAttributes w :
  respects w (world_of (applyInitialAttributes w)).
Proof.
  unfold applyInitialAttributes. cbv zeta.
  apply (for_each_preserves (respects w)).
  - intros name w' Hw'. destruct (hostAttributes w' !! name); [| exact Hw'].
    eapply respects_trans;
      [exact Hw' | apply respects_attributeChangedCallback].
  - apply respects_same; reflexivity.
Qed.

Lemma respects_initialize w : respects w (world_of (initialize w)).
Proof.
  unfold initialize. cbv zeta.
  set (w2 := match hostAttributes (set_initialized true w) !! "role" with
             | Some _ => _ | None => _ end).
  assert (Hw2 : respects w w2).
  { subst w2. simpl. destruct (hostAttributes w !! "role") eqn:Hrole;
      [apply respects_same; reflexivity |].
    unfold respects, getAttribute. simpl.
    split; [auto |]. split; [auto |]. split; [auto |]. split.
    - intros name v Hv. rewrite lookup_insert_ne; [exact Hv | congruence].
    - intros name Hname. apply lookup_insert_ne. congruence. }
  clearbody w2.
  assert (Hw4 : respects w (setupShadowDom (captureChildren w2))).
  { eapply respects_trans; [exact Hw2 |].
    eapply respects_trans; [apply respects_captureChildren |].
    apply respects_same; reflexivity. }
  pose proof (respects_applyInitialAttributes
                (setupShadowDom (captureChildren w2))) as Hw5.
  destruct (applyInitialAttributes _) as [w5 | w5]; simpl in *.
  - eapply respects_trans; [exact Hw4 |].
    eapply respects_trans; [exact Hw5 |].
    eapply respects_trans; [| apply respects_mountVirtualizer].
    apply respects_same; reflexivity.
  - eapply respects_trans; [exact Hw4 | exact Hw5].
Qed.

Lemma respects_measure w : respects w (measure w).
Proof.
  apply respects_same.
  - unfold measure. cbv zeta.
    destruct (virtualizer (set_rafId None w)) as [inst |]; [| reflexivity].
    destruct (shadow (set_rafId None w)) as [sh |]; [| reflexivity].
    etrans; [apply (fold_left_frame attributes) | reflexivity].
    intros w' child. destruct (instanceofHTMLElement child); reflexivity.
  - pose proof (kept_measure w) as Hk. unfold kept in Hk.
    injection Hk as _ _ _ _ _ _ Hh _. exact Hh.
Qed.

Lemma respects_disconnectedCallback w : respects w (disconnectedCallback w).
Proof.
  apply respects_same;
    destruct w as [v c its sh ini [mo |] cfg [h |] ha cn att vi
                     [raf [|] fr nh mi] cl];
    destruct c, v; reflexivity.
Qed.

(** X18.  Whatever callback of the element runs, it removes no attribute
    of any node, changes the value of none other than aria-setsize and
    aria-posinset, so a role an author gave is never overwritten, and adds
    none other than these two and role; of the host's own attributes it
    changes none and adds only role. *)
Theorem element_respects_attributes (w : World) (i : Input) :
  page_writes i = false ->
  let w' := world_of (step w i) in
  (forall n name, is_Some (getAttribute w n name) ->
     is_Some (getAttribute w' n name)) /\
  (forall n name v, name <> "aria-setsize" -> name <> "aria-posinset" ->
     getAttribute w n name = Some v -> getAttribute w' n name = Some v) /\
  (forall n name, name <> "role" -> name <> "aria-setsize" ->
     name <> "aria-posinset" ->
     getAttribute w' n name = getAttribute w n name) /\
  (forall name v, hostAttributes w !! name = Some v ->
     hostAttributes w' !! name = Some v) /\
  (forall name, name <> "role" ->
     hostAttributes w' !! name = hostAttributes w !! name).
Proof.
  intros Hpage. cbv zeta. change (respects w (world_of (step w i))).
  destruct i; simpl in *; try discriminate Hpage.
  - unfold connectedCallback. destruct (initialized w).
    + eapply respects_trans; [| apply respects_mountVirtualizer].
      apply respects_same; reflexivity.
    + apply respects_initialize.
  - apply respects_disconnectedCallback.
  - apply respects_attributeChangedCallback.
  - apply respects_handleLightDomMutations.
  - unfold setVirtualState.
    destruct (virtualizerInstances w !! inst); [| apply respects_refl].
    unfold onChange. simpl.
    destruct (decide (virtualizer w = Some inst)).
    + eapply respects_trans; [| apply respects_render].
      apply respects_same; reflexivity.
    + apply respects_same; reflexivity.
  - unfold runFrame. destruct (bool_decide _); [| apply respects_refl].
    eapply respects_trans; [| apply respects_measure].
    apply respects_same; reflexivity.
  - unfold runMicrotask. destruct (microtasks (host w)); [apply respects_refl |].
    eapply respects_trans; [| apply respects_measure].
    apply respects_same; reflexivity.
  - eapply respects_trans; [apply respects_detach |].
    apply respects_same; reflexivity.
  - apply respects_same; reflexivity.
Qed.

(** ** Rendering twice *)

Lemma attributes_render_entry st v k :
  attributes (fst (render_entry st v)) !! k
  = stamped (items (fst st)) k (attributes (fst st) !! k) v.
Proof.
  unfold render_entry, stamped. cbv zeta.
  destruct (item_at (items (fst st)) (vi_index v)) as [item |]; [| reflexivity].
  unfold appendToFragment. cbn [fst]. rewrite attributes_detach.
  unfold setAttribute. simpl.
  destruct (decide (k = (item, "aria-posinset"))) as [-> | Hp].
  - apply lookup_insert_eq.
  - rewrite lookup_insert_ne by congruence.
    destruct (decide (k = (item, "aria-setsize"))) as [-> | Hs].
    + apply lookup_insert_eq.
    + apply lookup_insert_ne. congruence.
Qed.

Lemma attributes_render_loop l st k :
  attributes (fst (fold_left render_entry l st)) !! k
  = fold_left (stamped (items (fst st)) k) l (attributes (fst st) !! k).
Proof.
  revert st. induction l as [| v l IH]; intros st; [reflexivity |].
  cbn [fold_left]. rewrite IH, items_render_entry, attributes_render_entry.
  reflexivity.
Qed.

Lemma stamped_loop_settles registry k (l : list VirtualItem) :
  (forall x, fold_left (stamped registry k) l x = x) \/
  (exists c, forall x, fold_left (stamped registry k) l x = c).
Proof.
  induction l as [| v l IH]; [left; reflexivity |].
  cbn [fold_left]. destruct IH as [Hid | [c Hc]]; [| right; exists c; auto].
  assert (Hv : (forall x, stamped registry k x v = x) \/
               (exists c, forall x, stamped registry k x v = c)).
  { unfold stamped.
    destruct (item_at registry (vi_index v)) as [item |]; [| left; reflexivity].
    destruct (decide (k = (item, "aria-posinset")));
      [right; eexists; reflexivity |].
    destruct (decide (k = (item, "aria-setsize")));
      [right; eexists; reflexivity | left; reflexivity]. }
  destruct Hv as [Hx | [c Hx]].
  - left. intros x. rewrite Hid. apply Hx.
  - right. exists c. intros x. rewrite Hid. apply Hx.
Qed.

Lemma stamped_loop_idempotent registry k (l : list VirtualItem) x :
  fold_left (stamped registry k) l (fold_left (stamped registry k) l x)
  = fold_left (stamped registry k) l x.
Proof.
  destruct (stamped_loop_settles registry k l) as [Hid | [c Hc]].
  - rewrite !Hid. reflexivity.
  - rewrite !Hc. reflexivity.
Qed.

Lemma childNodes_render_loop l st :
  childNodes (fst (fold_left render_entry l st))
  = remove_all (window_items (fst st) l) (childNodes (fst st)).
Proof.
  revert st. induction l as [| v l IH]; intros st; [reflexivity |].
  cbn [fold_left]. rewrite IH. unfold window_items.
  rewrite items_render_entry. cbn [omap list_omap].
  assert (Hc : childNodes (fst (render_entry st v))
               = match item_at (items (fst st)) (vi_index v) with
                 | Some item => without item (childNodes (fst st))
                 | None => childNodes (fst st)
                 end).
  { unfold render_entry. cbv zeta.
    destruct (item_at (items (fst st)) (vi_index v)) as [item |];
      [| reflexivity].
    unfold appendToFragment, detach. cbn [fst]. simpl.
    destruct (shadow (fst st)); reflexivity. }
  rewrite Hc.
  destruct (item_at (items (fst st)) (vi_index v)); reflexivity.
Qed.

Lemma elem_of_remove_all es c x : x ∈ remove_all es c -> x ∈ c /\ x ∉ es.
Proof.
  revert c. induction es as [| e es IH]; intros c; simpl.
  - intros Hx. split; [exact Hx | apply not_elem_of_nil].
  - intros Hx. apply IH in Hx as [Hx Hes]. apply elem_of_without in Hx.
    split; [tauto |]. rewrite elem_of_cons. intros [-> | Hin]; tauto.
Qed.

Lemma remove_all_absent es c :
  (forall e, e ∈ es -> e ∉ c) -> remove_all es c = c.
Proof.
  revert c. induction es as [| e es IH]; intros c Hes; simpl; [reflexivity |].
  rewrite without_not_elem by (apply Hes, elem_of_cons; auto).
  apply IH. intros e' He'. apply Hes, elem_of_cons. auto.
Qed.

Lemma remove_all_idempotent es c :
  remove_all es (remove_all es c) = remove_all es c.
Proof.
  apply remove_all_absent. intros e He Hin.
  apply elem_of_remove_all in Hin as [_ Hout]. contradiction.
Qed.

(** X19.  A render pass repeated with nothing changed in between changes
    nothing: the shadow tree, the attributes of all nodes and the host's
    children after the second pass are those after the first. *)
Theorem render_is_idempotent (w : World) :
  let w1 := world_of (render w) in
  let w2 := world_of (render w1) in
  shadow w2 = shadow w1 /\
  attributes w2 = attributes w1 /\
  childNodes w2 = childNodes w1 /\
  kept w2 = kept w.
Proof.
  cbv zeta. split; [| split; [| split]]; [| | | rewrite !kept_render; reflexivity].
  all: pose proof (kept_render w) as Hk; unfold kept in Hk;
    injection Hk as Hv _ Hitems _ _ Hconf _ Hinst.
  all: destruct (virtualizer w) as [inst |] eqn:Hvirt;
    [| unfold render at 1; rewrite Hv; reflexivity].
  all: destruct (shadow w) as [sh |] eqn:Hsh;
    [| assert (Hsame : world_of (render w) = w)
         by (unfold render; rewrite Hvirt, Hsh; reflexivity);
       rewrite !Hsame; reflexivity].
  all: assert (Hfirst : world_of (render w)
                        = world_of (scheduleMeasurement (render_tree inst w)))
    by (unfold render; rewrite Hvirt, Hsh; reflexivity).
  all: destruct (scheduleMeasurement_tree (render_tree inst w)) as (Ha & Hs & Hc).
  all: destruct (render_tree_loop inst w sh Hsh) as (Hattr & Hchild & Hshadow).
  all: rewrite <- Hfirst in Ha, Hs, Hc.
  all: rewrite Hshadow in Hs; rewrite Hattr in Ha; rewrite Hchild in Hc.
  all: set (w1 := world_of (render w)) in *; clearbody w1.
  all: assert (Hwin : getVirtualItems w1 inst = getVirtualItems w inst)
    by (unfold getVirtualItems; rewrite Hinst; reflexivity).
  all: assert (Hsized : forall s, sized inst w1 s = sized inst w s)
    by (intros s; unfold sized, getTotalSize; rewrite Hconf, Hinst; reflexivity).
  all: assert (Htrans : translation inst w1 = translation inst w)
    by (unfold translation, firstStart; rewrite Hconf, Hwin; reflexivity).
  all: unfold render; rewrite Hv, Hs.
  all: destruct (scheduleMeasurement_tree (render_tree inst w1))
    as (Ha2 & Hs2 & Hc2).
  all: destruct (render_tree_loop inst w1 _ Hs) as (Hattr2 & Hchild2 & Hshadow2).
  - rewrite Hs2, Hshadow2, Hwin, Htrans, !Hsized.
    rewrite !fragment_render_loop. cbn [fst snd].
    unfold window_items. cbn [items set_shadow]. rewrite Hitems.
    unfold sized. destruct (bool_decide _); reflexivity.
  - rewrite Ha2, Hattr2, Ha. apply map_eq. intros k.
    rewrite Hwin, !attributes_render_loop. cbn [fst items attributes set_shadow].
    rewrite Ha, attributes_render_loop. cbn [fst items attributes set_shadow].
    rewrite Hitems. apply stamped_loop_idempotent.
  - rewrite Hc2, Hchild2, Hc, Hwin, !childNodes_render_loop.
    cbn [fst childNodes set_shadow]. rewrite Hc, childNodes_render_loop.
    cbn [fst childNodes set_shadow].
    unfold window_items. cbn [items set_shadow]. rewrite Hitems.
    apply remove_all_idempotent.
Qed.

(** ** What the first activation captures *)

Lemma contained_same w w' :
  shadow w' = shadow w -> items w' = items w -> contained w -> contained w'.
Proof. unfold contained. intros -> ->. auto. Qed.

Lemma contained_render w : contained w -> contained (world_of (render w)).
Proof.
  intros Hc sh' e Hsh' He.
  pose proof (kept_render w) as Hk. unfold kept in Hk.
  injection Hk as _ _ Hitems _ _ _ _ _. rewrite Hitems.
  destruct (virtualizer w) as [inst |] eqn:Hv;
    [| unfold render in Hsh'; rewrite Hv in Hsh'; exact (Hc sh' e Hsh' He)].
  destruct (shadow w) as [sh |] eqn:Hsh;
    [| unfold render in Hsh'; rewrite Hv, Hsh in Hsh'; simpl in Hsh';
       congruence].
  destruct (rendered_children_are_stamped w inst sh sh' e Hv Hsh Hsh' He)
    as [(v & _ & Hitem) _].
  unfold item_at in Hitem. destruct (vi_index v <? 0)%Z; [discriminate |].
  apply list_elem_of_lookup. eauto.
Qed.

Lemma contained_updateVirtualizerOptions w :
  contained w -> contained (world_of (updateVirtualizerOptions w)).
Proof.
  intros Hc. unfold updateVirtualizerOptions.
  destruct (virtualizer w) as [inst |]; [| exact Hc].
  apply contained_render. eapply contained_same; [| | exact Hc]; reflexivity.
Qed.

Lemma contained_attributeChangedCallback name oldValue newValue w :
  contained w ->
  contained (world_of (attributeChangedCallback name oldValue newValue w)).
Proof.
  intros Hc. unfold attributeChangedCallback.
  destruct (decide (oldValue = newValue)); [exact Hc |].
  apply contained_updateVirtualizerOptions.
  eapply contained_same; [| | exact Hc]; repeat case_match; reflexivity.
Qed.

Lemma contained_applyInitialAttributes w :
  contained w -> contained (world_of (applyInitialAttributes w)).
Proof.
  intros Hc. unfold applyInitialAttributes. cbv zeta.
  apply (for_each_preserves contained).
  - intros name w' Hw'. destruct (hostAttributes w' !! name);
      [apply contained_attributeChangedCallback |]; exact Hw'.
  - eapply contained_same; [| | exact Hc]; reflexivity.
Qed.

Lemma contained_mountVirtualizer w :
  contained w -> contained (world_of (mountVirtualizer w)).
Proof.
  intros Hc. unfold mountVirtualizer.
  destruct (shadow w) eqn:Hsh; [| exact Hc].
  destruct (virtualizer w); cbv zeta; apply contained_render;
    (eapply contained_same; [| | exact Hc]; reflexivity).
Qed.

(** C5.  The first activation, whatever the children of the host: the
    registry becomes the element nodes among the children, in document
    order; the host keeps no child; a node that is not an element is
    neither in the registry, nor a child of the host, nor a child of the
    items container; and each captured element has its own role if it had
    one and the role listitem otherwise. *)
Theorem connectedCallback_captures_children (w : World) :
  initialized w = false ->
  let w' := world_of (connectedCallback w) in
  items w' = List.filter isElementNode (childNodes w) /\
  childNodes w' = [] /\
  (forall n, n ∈ childNodes w -> isElementNode n = false ->
     (n ∉ items w') /\ (n ∉ childNodes w') /\
     (forall sh', shadow w' = Some sh' -> n ∉ items_children sh')) /\
  (forall e, e ∈ childNodes w -> isElementNode e = true ->
     getAttribute w' e "role" =
     Some (default "listitem" (getAttribute w e "role"))).
Proof.
  intros Hinit. cbv zeta.
  destruct (first_activation_captures w Hinit) as [Hitems Hnone].
  split; [exact Hitems |]. split; [exact Hnone |]. split.
  - intros n _ Hn.
    assert (Hout : n ∉ items (world_of (connectedCallback w))).
    { rewrite Hitems, list_elem_of_In, filter_In. intros [_ Hel]. congruence. }
    split; [exact Hout |]. split; [rewrite Hnone; apply not_elem_of_nil |].
    intros sh' Hsh' Hin. apply Hout.
    assert (Hcontained : contained (world_of (connectedCallback w)));
      [| exact (Hcontained sh' n Hsh' Hin)].
    unfold connectedCallback. rewrite Hinit. unfold initialize. cbv zeta.
    match goal with
    | |- contained (world_of (applyInitialAttributes ?x >>> _)) =>
        pose proof (contained_applyInitialAttributes x) as Happlied
    end.
    destruct (applyInitialAttributes _) as [w5 | w5];
      cbn [and_then world_of] in *.
    + apply contained_mountVirtualizer.
      eapply contained_same; [| | apply Happlied]; try reflexivity.
      intros sh e [= <-] He. apply elem_of_nil in He. contradiction.
    + apply Happlied.
      intros sh e [= <-] He. apply elem_of_nil in He. contradiction.
  - intros e He Hel.
    unfold connectedCallback. rewrite Hinit. unfold initialize. cbv zeta.
    set (w2 := match hostAttributes (set_initialized true w) !! "role" with
               | Some _ => _ | None => _ end).
    assert (Hw2 : childNodes w2 = childNodes w /\ attributes w2 = attributes w)
      by (subst w2; destruct (_ !! "role"); split; reflexivity).
    destruct Hw2 as [Hc2 Ha2]. clearbody w2.
    destruct (captureChildren_spec w2) as (_ & _ & _ & Hrole).
    specialize (Hrole e). rewrite Hc2 in Hrole. specialize (Hrole He Hel).
    replace (getAttribute w2 e "role") with (getAttribute w e "role") in Hrole
      by (unfold getAttribute; rewrite Ha2; reflexivity).
    set (w4 := setupShadowDom (captureChildren w2)).
    assert (H4 : getAttribute w4 e "role"
                 = Some (default "listitem" (getAttribute w e "role")))
      by exact Hrole.
    clearbody w4.
    pose proof (respects_applyInitialAttributes w4) as H5.
    destruct (applyInitialAttributes w4) as [w5 | w5]; cbn [and_then world_of] in *.
    + pose proof (respects_mountVirtualizer (startObservingLightDom w5)) as H6.
      destruct H5 as (_ & H5 & _). destruct H6 as (_ & H6 & _).
      apply H6; [discriminate | discriminate |].
      change (getAttribute (startObservingLightDom w5) e "role")
        with (getAttribute w5 e "role").
      apply H5; [discriminate | discriminate | exact H4].
    + destruct H5 as (_ & H5 & _).
      apply H5; [discriminate | discriminate | exact H4].
Qed.

End Further.

(** * The properties on the example pages *)

#[local] Existing Instance decimal.

Lemma Reachable_rendered : Reachable rendered.
Proof. apply Reachable_run, Reachable_run, Reachable_new. Qed.

Lemma Reachable_fallback_mounted : Reachable fallback_mounted.
Proof. apply Reachable_run, Reachable_new. Qed.

Lemma Reachable_fallback_reconfigured : Reachable fallback_reconfigured.
Proof. apply Reachable_run, Reachable_fallback_mounted. Qed.

(** The second row of the example list after a render pass. *)
Lemma render_stamps_aria_witness :
  virtualizer rendered = Some 0 /\
  getVirtualItems rendered 0 !! 1 = Some (entry 1 24) /\
  item_at (items rendered) 1 = Some (row 3) /\
  getAttribute (world_of (render rendered)) (row 3) "aria-setsize" = Some "2" /\
  getAttribute (world_of (render rendered)) (row 3) "aria-posinset" = Some "2".
Proof.
  assert (Hv : virtualizer rendered = Some 0) by reflexivity.
  assert (Hk : getVirtualItems rendered 0 !! 1 = Some (entry 1 24)) by reflexivity.
  assert (He : item_at (items rendered) (vi_index (entry 1 24)) = Some (row 3))
    by reflexivity.
  destruct (render_stamps_aria rendered 0 1
              (mkShadow "100%" "96px" "translate3d(0, 0px, 0)" [row 1; row 3])
              (entry 1 24) (row 3) Hv eq_refl Hk He)
    as (_ & Hsize & Hpos & _).
  split; [exact Hv |]. split; [exact Hk |]. split; [exact He |].
  split; [exact Hsize |].
  apply Hpos. intros k' v' Hlt Hlook.
  destruct k' as [| [| k']]; [lia | lia | discriminate Hlook].
Defined.

(** The guest was appended and removed again before the records arrived,
    and the registry has it all the same. *)
Example append_then_remove_registers_guest :
  items (world_of (handleLightDomMutations append_then_remove mounted))
  = [row 1; row 3; guest].
Proof. reflexivity. Qed.

Lemma added_element_stays_registered_witness :
  isElementNode guest = true /\
  guest ∈ addedNodes (mkMutation [guest] []) /\
  guest ∈ removedNodes (mkMutation [] [guest]) /\
  guest ∈ items (world_of (handleLightDomMutations append_then_remove mounted)).
Proof.
  assert (Ha : guest ∈ addedNodes (mkMutation [guest] []))
    by (apply list_elem_of_In; simpl; auto).
  assert (Hr : guest ∈ removedNodes (mkMutation [] [guest]))
    by (apply list_elem_of_In; simpl; auto).
  split; [reflexivity |]. split; [exact Ha |]. split; [exact Hr |].
  apply (added_element_stays_registered append_then_remove mounted guest
           (mkMutation [guest] []) (mkMutation [] [guest]));
    try assumption; try reflexivity;
    apply list_elem_of_In; simpl; auto.
Defined.

(** The second row has no id: its key is the empty string, not 1. *)
Lemma getItemKey_is_id_property_witness :
  item_at (items rendered) 1 = Some (row 3) /\
  getAttribute rendered (row 3) "id" = None /\
  getItemKey rendered 1 = KeyString "" /\
  getItemKey rendered 1 <> KeyNumber 1.
Proof.
  assert (Hitem : item_at (items rendered) 1 = Some (row 3)) by reflexivity.
  assert (Hid : getAttribute rendered (row 3) "id" = None) by reflexivity.
  destruct (getItemKey_is_id_property rendered 1 (row 3) Hitem)
    as (_ & _ & Hkey).
  split; [exact Hitem |]. split; [exact Hid |].
  split; [apply Hkey, Hid |].
  rewrite (Hkey Hid). discriminate.
Defined.

(** With both frame primitives one frame is pending, before and after a
    further render pass. *)
Lemma measurement_scheduling_witness :
  Reachable rendered /\
  has_requestAnimationFrame (host rendered) = true /\
  pending rendered <= 1 /\
  pending (world_of (render rendered)) <= 1.
Proof.
  assert (Hraf : has_requestAnimationFrame (host rendered) = true) by reflexivity.
  destruct (measurement_scheduling rendered Reachable_rendered) as [Hframes _].
  destruct (Hframes Hraf) as (Hnow & Hafter & _).
  split; [exact Reachable_rendered |].
  split; [exact Hraf |]. split; [exact Hnow | exact Hafter].
Defined.

(** Without [requestAnimationFrame] every render pass queues one more
    microtask and none is withdrawn: after the pass of the activation and
    the pass of an attribute change in the same task, two measurement
    callbacks are pending. *)
Lemma fallback_queues_two_measurements :
  has_requestAnimationFrame (host fallback_reconfigured) = false /\
  List.filter isCancel (calls fallback_reconfigured) = [] /\
  pending fallback_reconfigured = 2 /\
  ~ (forall w, Reachable w -> pending w <= 1).
Proof.
  split; [reflexivity |]. split; [reflexivity |]. split; [reflexivity |].
  intros Hall.
  pose proof (Hall fallback_reconfigured Reachable_fallback_reconfigured) as Hle.
  vm_compute in Hle. lia.
Qed.

(** The values of the third test: "foo" for estimate-size, "-5" for
    overscan. *)
Lemma invalid_number_falls_back_witness :
  Number_isFinite (StringToNumber "foo") = false /\
  estimateSize (config (world_of
     (attributeChangedCallback "estimate-size" (Some "64") (Some "foo") mounted)))
  = Finite 48 /\
  StringToNumber "-5" = Finite (-5) /\
  overscan (config (world_of
     (attributeChangedCallback "overscan" (Some "3") (Some "-5") mounted)))
  = Finite 0.
Proof.
  split; [reflexivity |]. split.
  { apply (invalid_number_falls_back "estimate-size" (Some "64") "foo" mounted);
      [discriminate | reflexivity | reflexivity]. }
  split; [reflexivity |].
  apply (invalid_number_falls_back "overscan" (Some "3") "-5" mounted)
    with (q := (-5)%Q); [discriminate | reflexivity | reflexivity | reflexivity].
Defined.

(** Deactivating the rendered example list. *)
Lemma teardown_once_then_noop_witness :
  Reachable rendered /\
  virtualizerCleanup rendered = Some 0 /\
  pending rendered = 1 /\
  pending (disconnectedCallback rendered) = 0 /\
  List.filter isCleanup (calls (disconnectedCallback rendered)) = [CallCleanup 0] /\
  disconnectedCallback (disconnectedCallback rendered) = disconnectedCallback rendered.
Proof.
  destruct (teardown_once_then_noop rendered Reachable_rendered)
    as (Hcancel & Honce & _ & _ & Hnoop & _).
  split; [exact Reachable_rendered |].
  split; [reflexivity |]. split; [reflexivity |].
  split; [apply Hcancel; reflexivity |].
  split; [exact Honce | exact Hnoop].
Defined.

(** Without [requestAnimationFrame] the measurement queued by a render
    pass is a microtask, and deactivation leaves it queued. *)
Lemma teardown_keeps_queued_microtask :
  pending fallback_mounted = 1 /\
  pending (disconnectedCallback fallback_mounted) = 1 /\
  List.filter isCancel (calls (disconnectedCallback fallback_mounted)) = [] /\
  ~ (forall w, Reachable w -> pending (disconnectedCallback w) = 0).
Proof.
  split; [reflexivity |]. split; [reflexivity |]. split; [reflexivity |].
  intros Hall.
  pose proof (Hall fallback_mounted Reachable_fallback_mounted) as Hzero.
  vm_compute in Hzero. discriminate.
Qed.

(** The layout of the example list, vertical and after the switch. *)
Lemma render_lays_out_witness :
  virtualizer rendered = Some 0 /\
  (exists sh', shadow (world_of (render rendered)) = Some sh' /\
     sizer_height sh' = "96px" /\ sizer_width sh' = "100%" /\
     items_transform sh' = "translate3d(0, 0px, 0)") /\
  (exists sh',
     shadow (world_of (attributeChangedCallback "orientation" None
                         (Some "horizontal") rendered)) = Some sh' /\
     sizer_width sh' = "96px" /\ sizer_height sh' = "100%" /\
     items_transform sh' = "translate3d(0px, 0, 0)").
Proof.
  destruct (render_lays_out rendered 0
              (mkShadow "100%" "96px" "translate3d(0, 0px, 0)" [row 1; row 3])
              eq_refl eq_refl) as [Hrender Hswitch].
  split; [reflexivity |]. split; [exact Hrender |].
  apply (Hswitch None); [reflexivity | discriminate].
Defined.

(** After a new activation the first instance is no longer the current
    one. *)
Lemma onChange_only_current_instance_witness :
  virtualizer reconnected = Some 1 /\
  onChange 0 reconnected = Done reconnected /\
  onChange 1 reconnected = render reconnected.
Proof.
  assert (Hstale : virtualizer reconnected <> Some 0) by (vm_compute; discriminate).
  destruct (onChange_only_current_instance 0 reconnected Hstale) as [Hno Hyes].
  split; [reflexivity |]. split; [exact Hno |].
  apply Hyes. reflexivity.
Defined.

(** ** Further properties on the example pages *)

Lemma Reachable_reconnected : Reachable reconnected.
Proof. apply Reachable_run, Reachable_rendered. Qed.

Lemma Reachable_two_rows raf caf : Reachable (two_rows raf caf).
Proof. apply Reachable_new. Qed.

(** The two rows of the rendered example list are measured, in order. *)
Lemma measure_measures_children_witness :
  virtualizer rendered = Some 0 /\
  calls (measure rendered)
  = calls rendered ++ [CallMeasureElement 0 (row 1); CallMeasureElement 0 (row 3)].
Proof.
  destruct (measure_measures_children rendered 0
              (mkShadow "100%" "96px" "translate3d(0, 0px, 0)" [row 1; row 3])
              eq_refl eq_refl) as (Hcalls & _).
  split; [reflexivity | exact Hcalls].
Defined.

(** A further render pass of the rendered example list attaches its rows,
    each once. *)
Lemma render_attaches_window_items_witness :
  virtualizer rendered = Some 0 /\
  exists sh', shadow (world_of (render rendered)) = Some sh' /\
    NoDup (items_children sh').
Proof.
  destruct (render_attaches_window_items rendered 0
              (mkShadow "100%" "96px" "translate3d(0, 0px, 0)" [row 1; row 3])
              eq_refl eq_refl) as (sh' & Hs & _ & Hnodup & _).
  split; [reflexivity |]. exists sh'. split; [exact Hs | exact Hnodup].
Defined.

(** The value of the second test: "64" for estimate-size. *)
Lemma finite_number_is_taken_witness :
  StringToNumber "64" = Finite 64 /\
  config (world_of
    (attributeChangedCallback "estimate-size" None (Some "64") mounted))
  = set_estimateSize (Finite 64) (config mounted).
Proof.
  pose proof (finite_number_is_taken "estimate-size" None "64" 64%Q mounted)
    as Htaken.
  cbv zeta in Htaken.
  destruct Htaken as (He & _); [discriminate | reflexivity |].
  split; [reflexivity | exact (He eq_refl)].
Defined.

Lemma configuration_stays_usable_witness :
  Reachable fallback_reconfigured /\
  config_ok (config fallback_reconfigured).
Proof.
  destruct (configuration_stays_usable fallback_reconfigured
              Reachable_fallback_reconfigured) as [Hok _].
  split; [exact Reachable_fallback_reconfigured | exact Hok].
Defined.

Lemma getEstimatedSize_is_finite_witness :
  Reachable rendered /\
  exists q : Q, getEstimatedSize rendered 0 = Finite q.
Proof.
  destruct (getEstimatedSize_is_finite rendered 0 Reachable_rendered)
    as [Hfinite _].
  split; [exact Reachable_rendered | exact Hfinite].
Defined.

(** The stray text node is taken out of the host when its record comes. *)
Lemma added_nodes_leave_the_host_witness :
  stray ∈ childNodes littered /\
  stray ∉ childNodes
    (world_of (handleLightDomMutations [mkMutation [stray] []] littered)).
Proof.
  split.
  { replace (childNodes littered) with [stray] by reflexivity.
    apply list_elem_of_In. simpl. auto. }
  apply (added_nodes_leave_the_host [mkMutation [stray] []] littered
           (mkMutation [stray] []) stray);
    apply list_elem_of_In; simpl; auto.
Defined.

(** The second row is removed by the page. *)
Lemma removed_element_leaves_registry_witness :
  row 3 ∈ items mounted /\
  row 3 ∉ items
    (world_of (handleLightDomMutations [mkMutation [] [row 3]] mounted)).
Proof.
  assert (Hitems : items mounted = [row 1; row 3]) by reflexivity.
  split; [rewrite Hitems; apply list_elem_of_In; simpl; auto |].
  apply (removed_element_leaves_registry [mkMutation [] [row 3]] mounted
           (mkMutation [] [row 3]) (row 3)).
  - rewrite Hitems. apply NoDup_cons_2; [| apply NoDup_singleton].
    rewrite list_elem_of_In. simpl. intros [Heq | []]. discriminate Heq.
  - reflexivity.
  - apply list_elem_of_In; simpl; auto.
  - apply list_elem_of_In; simpl; auto.
  - intros m Hm. apply list_elem_of_In in Hm. simpl in Hm.
    destruct Hm as [<- | []]. simpl. apply not_elem_of_nil.
Defined.

(** The record of the stray text node changes the host's children only. *)
Lemma quiet_batch_only_cleans_witness :
  exists rest,
    handleLightDomMutations [mkMutation [stray] []] littered
    = Done (set_childNodes rest littered).
Proof.
  destruct (quiet_batch_only_cleans [mkMutation [stray] []] littered)
    as (rest & Hrest & _).
  - intros m n Hm Hn. apply list_elem_of_In in Hm. simpl in Hm.
    destruct Hm as [<- | []]. apply list_elem_of_In in Hn. simpl in Hn.
    destruct Hn as [<- | []]. reflexivity.
  - intros m n Hm Hn. apply list_elem_of_In in Hm. simpl in Hm.
    destruct Hm as [<- | []]. apply list_elem_of_In in Hn. simpl in Hn.
    destruct Hn.
  - exists rest. exact Hrest.
Defined.

(** The guest has no role of its own. *)
Lemma added_element_gets_role_witness :
  getAttribute mounted guest "role" = None /\
  getAttribute
    (world_of (handleLightDomMutations [mkMutation [guest] []] mounted))
    guest "role" = Some "listitem".
Proof.
  split; [reflexivity |].
  apply (added_element_gets_role [mkMutation [guest] []] mounted
           (mkMutation [guest] []) guest);
    [reflexivity | apply list_elem_of_In; simpl; auto ..].
Defined.

Lemma batch_is_pushed_once_witness :
  virtualizer mounted = Some 0 /\
  items (world_of (handleLightDomMutations [mkMutation [guest] []] mounted))
  = [row 1; row 3; guest].
Proof.
  pose proof (batch_is_pushed_once [mkMutation [guest] []] mounted 0 eq_refl)
    as Hpushed.
  cbv zeta in Hpushed. destruct Hpushed as [_ Hadded].
  split; [reflexivity |].
  apply Hadded. intros m n Hm Hn. apply list_elem_of_In in Hm. simpl in Hm.
  destruct Hm as [<- | []]. apply list_elem_of_In in Hn. simpl in Hn.
  destruct Hn.
Defined.

(** The instance of the rendered example list counts its two rows. *)
Lemma engine_options_are_current_witness :
  Reachable rendered /\
  virtualizer rendered = Some 0 /\
  exists v, virtualizerInstances rendered !! 0 = Some v /\
    opt_count (options v) = 2.
Proof.
  destruct (engine_options_are_current rendered 0 Reachable_rendered eq_refl)
    as (v & Hlook & _ & Hcount & _).
  split; [exact Reachable_rendered |]. split; [reflexivity |].
  exists v. split; [exact Hlook | exact Hcount].
Defined.

Lemma no_step_throws_witness :
  safe_host rendered /\
  exists w', step rendered Connected = Done w'.
Proof.
  assert (Hsafe : safe_host rendered) by (right; reflexivity).
  destruct (no_step_throws rendered Connected Hsafe) as [Hreturns _].
  split; [exact Hsafe | exact Hreturns].
Defined.

(** The first activation of the example list. *)
Lemma connecting_first_activates_witness :
  initialized (two_rows true true) = false /\
  items (world_of (connectedCallback (two_rows true true))) = [row 1; row 3] /\
  virtualizer (world_of (connectedCallback (two_rows true true))) = Some 0.
Proof.
  pose proof (connecting_first_activates (two_rows true true)
                (Reachable_two_rows true true) eq_refl) as Hfirst.
  cbv zeta in Hfirst.
  destruct Hfirst as (_ & _ & _ & Hitems & _ & _ & Hv & _).
  split; [reflexivity |]. split; [exact Hitems | exact Hv].
Defined.

(** The example list reconnected: the second instance is retained. *)
Lemma reconnect_restarts_witness :
  Reachable rendered /\
  initialized rendered = true /\
  items (world_of (connectedCallback (disconnectedCallback rendered)))
  = [row 1; row 3] /\
  virtualizer (world_of (connectedCallback (disconnectedCallback rendered)))
  = Some 1.
Proof.
  pose proof (reconnect_restarts rendered Reachable_rendered eq_refl)
    as Hagain.
  cbv zeta in Hagain.
  destruct Hagain as (Hitems & _ & _ & _ & _ & _ & Hv & _).
  split; [exact Reachable_rendered |]. split; [reflexivity |].
  split; [exact Hitems | exact Hv].
Defined.

(** The life of the two instances of the reconnected example list. *)
Lemma instances_live_one_at_a_time_witness :
  Reachable reconnected /\
  virtualizerCleanup reconnected = virtualizer reconnected.
Proof.
  destruct (instances_live_one_at_a_time reconnected Reachable_reconnected)
    as [Hsame _].
  split; [exact Reachable_reconnected | exact Hsame].
Defined.

(** The id of the first row outlives the activation. *)
Lemma element_respects_attributes_witness :
  page_writes Connected = false /\
  getAttribute (world_of (step (two_rows true true) Connected)) (row 1) "id"
  = Some "first".
Proof.
  pose proof (element_respects_attributes (two_rows true true) Connected
                eq_refl) as Hkept.
  cbv zeta in Hkept. destruct Hkept as (_ & Hvalue & _).
  split; [reflexivity |].
  apply Hvalue; [discriminate | discriminate | reflexivity].
Defined.

Lemma Reachable_doubled : Reachable doubled.
Proof. apply Reachable_run, Reachable_run, Reachable_new. Qed.

(** The first row is in the registry twice and the window shows both
    places: after the pass it carries the position of the last one, so the
    first entry's item does not have the first entry's position. *)
Lemma repeated_item_keeps_last_position :
  items doubled = [row 1; row 3; row 1] /\
  getVirtualItems doubled 0 !! 0 = Some (entry 0 0) /\
  item_at (items doubled) (vi_index (entry 0 0)) = Some (row 1) /\
  shadow (world_of (render doubled))
  = Some (mkShadow "100%" "72px" "translate3d(0, 0px, 0)" [row 3; row 1]) /\
  getAttribute (world_of (render doubled)) (row 1) "aria-posinset" = Some "3" /\
  ~ (forall w inst sh k v e,
       Reachable w -> virtualizer w = Some inst -> shadow w = Some sh ->
       getVirtualItems w inst !! k = Some v ->
       item_at (items w) (vi_index v) = Some e ->
       getAttribute (world_of (render w)) e "aria-posinset"
       = Some (pretty (vi_index v + 1)%Z)).
Proof.
  assert (Hlast : getAttribute (world_of (render doubled)) (row 1) "aria-posinset"
                  = Some "3") by reflexivity.
  split; [reflexivity |]. split; [reflexivity |]. split; [reflexivity |].
  split; [reflexivity |]. split; [exact Hlast |].
  intros Hall.
  pose proof (Hall doubled 0
                (mkShadow "100%" "72px" "translate3d(0, 0px, 0)" [row 3; row 1])
                0 (entry 0 0) (row 1) Reachable_doubled eq_refl eq_refl
                eq_refl eq_refl) as Hfirst.
  rewrite Hlast in Hfirst. discriminate Hfirst.
Qed.

(** The microtask queued before the deactivation runs after the new
    activation, and measures with the new instance. *)
Example requeued_microtask_measures_new_instance :
  virtualizer fallback_restarted = Some 1 /\
  microtasks (host fallback_restarted) = 3 /\
  calls (runMicrotask fallback_restarted)
  = calls fallback_restarted
    ++ [CallMeasureElement 1 (row 1); CallMeasureElement 1 (row 3)].
Proof. split; [reflexivity |]. split; reflexivity. Qed.

(** The first activation of the example list: the text node is dropped
    and the second row gets the role listitem. *)
Lemma connectedCallback_captures_children_witness :
  initialized (two_rows true true) = false /\
  items (world_of (connectedCallback (two_rows true true))) = [row 1; row 3] /\
  childNodes (world_of (connectedCallback (two_rows true true))) = [] /\
  getAttribute (world_of (connectedCallback (two_rows true true))) (row 3) "role"
  = Some "listitem".
Proof.
  pose proof (connectedCallback_captures_children (two_rows true true) eq_refl)
    as Hfirst.
  cbv zeta in Hfirst. destruct Hfirst as (Hitems & Hnone & _ & Hrole).
  split; [reflexivity |]. split; [exact Hitems |]. split; [exact Hnone |].
  apply (Hrole (row 3)); [| reflexivity].
  apply list_elem_of_In. simpl. auto.
Defined.
